(** * mag2d: page geometry resolution and content assignment

    A shallow embedding of [extract_from_idml.py] (the script that holds the
    whole pipeline: transforms, bounds resolution, page index, containment,
    the recursive spread walk, aggregation and coordinate normalisation) and
    of the places where the older variant [extract_box.py] differs from it.

    Conventions of the embedding.
    - Python floats are read as exact rationals [Q]; Python's [==] on floats
      is [Qeq] ([==]), on tuples of floats it is component-wise.  Infinities
      and NaN are outside the model.
    - The builtin [float] is a parameter [py_float] of the development
      ([None] stands for [ValueError]); a small decimal reader [dec_float]
      instantiates it on concrete inputs.
    - An XML node is [Elem tag attrib children]; [tag] is the local name,
      i.e. what the scripts obtain with [element.tag.split('}')[-1]], and
      the [{*}] wildcard of the element paths matches every namespace.
    - Insertion-ordered dicts whose iteration order is observable
      ([pages_content_map], [all_page_data_by_id]) are association lists;
      dicts used as plain maps ([story_cache], [all_page_geometries]) are
      [gmap]s; the set [current_tf_ids] is a [gset].
    - Standard output is a list of events; only the prints that report a
      decision (warnings, notices, the per-element "Processing" line) are
      kept.
    - A parsed story file is a tree of [StoryElem] nodes with their [text],
      a sequence of code points; the two patterns of [get_story_text] are
      run by a backtracking matcher for sequences of character classes and
      greedy stars, and [\s] is the whitespace of [str.isspace()].
    - Attribute values are strings of 8-bit characters; [str.split()] is
      modelled with its separators of the ASCII range, which is all of them
      on ASCII strings.
    - The walk is a structural recursion; the interpreter's call stack
      enters through [process_spread_element_recursively_within].
    - Identities that need more than the order of the numbers are stated
      for rounded arithmetic ([Rounded]) and tested on the machine's
      binary64 numbers ([Binary64]). *)

From Stdlib Require Import QArith Lqa List String Ascii Bool Sorted Permutation Lia OrdersEx.
From Stdlib Require Import Qabs Qround.
From Stdlib Require PrimFloat.
From stdpp Require Import gmap strings.
Import ListNotations.

Open Scope string_scope.
Open Scope list_scope.
Open Scope Q_scope.

(** ** Python values and builtins *)

Inductive PyError : Type :=
| ValueError
| KeyError
| UnboundLocalError.

Inductive PyResult (A : Type) : Type :=
| Ok (a : A)
| Raise (e : PyError).

Arguments Ok {A} a.
Arguments Raise {A} e.

Definition py_bind {A B : Type} (r : PyResult A) (k : A -> PyResult B) : PyResult B :=
  match r with
  | Ok a => k a
  | Raise e => Raise e
  end.

(** Truth value of an optional string: [None] and [""] are false. *)
Definition py_truthy (o : option string) : bool :=
  match o with
  | None => false
  | Some EmptyString => false
  | Some _ => true
  end.

(** The characters [str.split()] treats as separators, in the ASCII range. *)
Definition is_py_space (c : ascii) : bool :=
  let n := nat_of_ascii c in
  ((9 <=? n)%nat && (n <=? 13)%nat) || ((28 <=? n)%nat && (n <=? 32)%nat).

Fixpoint py_split_from (cur : string) (s : string) : list string :=
  match s with
  | EmptyString => match cur with EmptyString => [] | _ => [cur] end
  | String c s' =>
      if is_py_space c
      then match cur with
           | EmptyString => py_split_from EmptyString s'
           | _ => cur :: py_split_from EmptyString s'
           end
      else py_split_from (String.append cur (String c EmptyString)) s'
  end.

(** [s.split()] *)
Definition py_split (s : string) : list string := py_split_from EmptyString s.

(** [min(l)] and [max(l)] on a non-empty sequence [x :: l]: the first
    smallest (largest) element is kept. *)
Definition Qlt_bool (x y : Q) : bool := negb (Qle_bool y x).

Fixpoint py_min (best : Q) (l : list Q) : Q :=
  match l with
  | [] => best
  | x :: l' => py_min (if Qlt_bool x best then x else best) l'
  end.

Fixpoint py_max (best : Q) (l : list Q) : Q :=
  match l with
  | [] => best
  | x :: l' => py_max (if Qlt_bool best x then x else best) l'
  end.

(** A decimal reader used to run the model on concrete attribute strings:
    optional sign, digits, optional fraction. *)
Definition digit_of (c : ascii) : option Z :=
  let n := nat_of_ascii c in
  if ((48 <=? n)%nat && (n <=? 57)%nat) then Some (Z.of_nat (n - 48)) else None.

Fixpoint dec_digits (acc : Z) (scale : positive) (in_frac : bool) (seen : bool) (s : string)
  : option Q :=
  match s with
  | EmptyString => if seen then Some (acc # scale) else None
  | String c s' =>
      match digit_of c with
      | Some d =>
          dec_digits (acc * 10 + d)%Z (if in_frac then (scale * 10)%positive else scale)
                     in_frac true s'
      | None =>
          if (Ascii.eqb c "."%char && negb in_frac)%bool
          then dec_digits acc scale true seen s'
          else None
      end
  end.

Definition dec_float (s : string) : option Q :=
  match s with
  | String "-"%char s' => option_map Qopp (dec_digits 0 1 false false s')
  | String "+"%char s' => dec_digits 0 1 false false s'
  | _ => dec_digits 0 1 false false s
  end.

(** ** XML trees (the interface of [xml.etree.ElementTree] that is used) *)

#[local] Unset Elimination Schemes.

Inductive Element : Type :=
| Elem (tag : string) (attrib : list (string * string)) (children : list Element).

#[local] Set Elimination Schemes.

Definition tag_of (e : Element) : string :=
  match e with Elem t _ _ => t end.

Definition attrib_of (e : Element) : list (string * string) :=
  match e with Elem _ a _ => a end.

Definition children_of (e : Element) : list Element :=
  match e with Elem _ _ cs => cs end.

Fixpoint attr_lookup (k : string) (a : list (string * string)) : option string :=
  match a with
  | [] => None
  | (k', v) :: a' => if String.eqb k k' then Some v else attr_lookup k a'
  end.

(** [element.get(k)] *)
Definition get (e : Element) (k : string) : option string :=
  attr_lookup k (attrib_of e).

(** [element.get(k, default)] *)
Definition get_default (e : Element) (k : string) (default : string) : string :=
  match get e k with
  | Some v => v
  | None => default
  end.

(** All proper descendants in document order ([element.iter()] without the
    element itself). *)
Fixpoint descendants (e : Element) : list Element :=
  match e with
  | Elem _ _ cs => flat_map (fun c => c :: descendants c) cs
  end.

Definition has_tag (t : string) (e : Element) : bool := String.eqb (tag_of e) t.

(** One step [/{*}t] of an element path: the children named [t]. *)
Definition children_tagged (t : string) (e : Element) : list Element :=
  List.filter (has_tag t) (children_of e).

(** The step [.//{*}t]: the proper descendants named [t]. *)
Definition descendants_tagged (t : string) (e : Element) : list Element :=
  List.filter (has_tag t) (descendants e).

(** [element.findall('.//{*}t0/{*}t1/.../{*}tn')] *)
Definition findall_path (t0 : string) (steps : list string) (e : Element) : list Element :=
  fold_left (fun found t => flat_map (children_tagged t) found) steps (descendants_tagged t0 e).

(** [element.find(path)]: the first match, if any. *)
Definition find_path (t0 : string) (steps : list string) (e : Element) : option Element :=
  head (findall_path t0 steps e).

(** Truth value of an [Element]: it is false when the element has no
    children. *)
Definition element_truthy (e : Element) : bool :=
  match children_of e with
  | [] => false
  | _ :: _ => true
  end.

(** ** Geometry: transforms, bounds, boxes *)

(** (a, b, c, d, tx, ty) *)
Definition Matrix : Type := (Q * Q * Q * Q * Q * Q)%type.

(** (y1, x1, y2, x2) *)
Definition LocalBounds : Type := (Q * Q * Q * Q)%type.

Definition Point : Type := (Q * Q)%type.

(** The dict [{"x1":..,"y1":..,"x2":..,"y2":..}]. *)
Record AABB : Type := mkAABB { x1 : Q; y1 : Q; x2 : Q; y2 : Q }.

Definition identity_matrix : Matrix := (1, 0, 0, 1, 0, 0).

Definition zero_bounds : LocalBounds := (0, 0, 0, 0).

Definition zero_aabb : AABB := mkAABB 0 0 0 0.

(** Python's [==] on transforms, points, bounds and boxes. *)
Definition matrix_eq (m n : Matrix) : Prop :=
  let '(a1, b1, c1, d1, tx1, ty1) := m in
  let '(a2, b2, c2, d2, tx2, ty2) := n in
  a1 == a2 /\ b1 == b2 /\ c1 == c2 /\ d1 == d2 /\ tx1 == tx2 /\ ty1 == ty2.

Definition point_eq (p q : Point) : Prop :=
  fst p == fst q /\ snd p == snd q.

Definition aabb_eq (b c : AABB) : Prop :=
  x1 b == x1 c /\ y1 b == y1 c /\ x2 b == x2 c /\ y2 b == y2 c.

(** [bounds == (0.0, 0.0, 0.0, 0.0)] *)
Definition bounds_is_zero (b : LocalBounds) : bool :=
  let '(by1, bx1, by2, bx2) := b in
  Qeq_bool by1 0 && Qeq_bool bx1 0 && Qeq_bool by2 0 && Qeq_bool bx2 0.

Definition multiply_matrices (m1 m2 : Matrix) : Matrix :=
  let '(a1, b1, c1, d1, tx1, ty1) := m1 in
  let '(a2, b2, c2, d2, tx2, ty2) := m2 in
  (a1*a2+c1*b2, b1*a2+d1*b2, a1*c2+c1*d2, b1*c2+d1*d2,
   a1*tx2+c1*ty2+tx1, b1*tx2+d1*ty2+ty1).

Definition apply_transform_to_point (x y : Q) (matrix : Matrix) : Point :=
  let '(a, b, c, d, tx, ty) := matrix in
  (a*x+c*y+tx, b*x+d*y+ty).

Definition get_global_corners (local_bounds : LocalBounds) (item_global_matrix : Matrix)
  : list Point :=
  let '(ly1, lx1, ly2, lx2) := local_bounds in
  [ apply_transform_to_point lx1 ly1 item_global_matrix;
    apply_transform_to_point lx2 ly1 item_global_matrix;
    apply_transform_to_point lx1 ly2 item_global_matrix;
    apply_transform_to_point lx2 ly2 item_global_matrix ].

Definition get_axis_aligned_bounding_box (corners : list Point) : AABB :=
  match corners with
  | [] => zero_aabb
  | p :: ps =>
      let all_x := List.map fst ps in
      let all_y := List.map snd ps in
      mkAABB (py_min (fst p) all_x) (py_min (snd p) all_y)
             (py_max (fst p) all_x) (py_max (snd p) all_y)
  end.

Definition get_item_center (global_aabb : AABB) : Point :=
  ((x1 global_aabb + x2 global_aabb) / 2, (y1 global_aabb + y2 global_aabb) / 2).

Definition is_point_in_rect (px py rect_y1 rect_x1 rect_y2 rect_x2 : Q) : bool :=
  (Qle_bool rect_x1 px && Qle_bool px rect_x2) &&
  (Qle_bool rect_y1 py && Qle_bool py rect_y2).

(** The fifth and sixth entry of a transform, [m[4]] and [m[5]]. *)
Definition matrix_tx (m : Matrix) : Q := let '(_, _, _, _, tx, _) := m in tx.
Definition matrix_ty (m : Matrix) : Q := let '(_, _, _, _, _, ty) := m in ty.

(** ** Records of the pipeline *)

(** The attributes of a [PageGeometricInfo] object. *)
Record PageGeometricInfo : Type := mkPageGeometricInfo {
  pg_id : string;
  pg_name : string;
  local_bounds : LocalBounds;
  global_matrix : Matrix;
  global_aabb : AABB
}.

(** The dicts appended to [pd["texts"]] and [pd["images"]]. *)
Record TextItem : Type := mkTextItem {
  story_id : string;
  text_frame_id : string;
  content : string;
  text_global_bounds : AABB;
  text_item_transform : option string
}.

Record ImageItem : Type := mkImageItem {
  uri : string;
  image_element_id : string;
  container_element_tag : string;
  container_element_id : string;
  image_global_bounds : AABB;
  image_item_transform : option string
}.

(** [{"name": .., "images": [..], "texts": [..]}] *)
Record PageData : Type := mkPageData {
  name : string;
  images : list ImageItem;
  texts : list TextItem
}.

(** Insertion-ordered dict with string keys. *)
Definition Dict (V : Type) : Type := list (string * V).

Fixpoint dict_get {V : Type} (k : string) (d : Dict V) : option V :=
  match d with
  | [] => None
  | (k', v) :: d' => if String.eqb k k' then Some v else dict_get k d'
  end.

(** [d[k] = v]: an existing key keeps its position, a new key goes last. *)
Fixpoint dict_set {V : Type} (k : string) (v : V) (d : Dict V) : Dict V :=
  match d with
  | [] => [(k, v)]
  | (k', v') :: d' =>
      if String.eqb k k' then (k', v) :: d' else (k', v') :: dict_set k v d'
  end.

Definition dict_keys {V : Type} (d : Dict V) : list string := List.map fst d.

(** What the scripts print, as far as it reports a decision. [indent] is
    the number of two-space units in front of the line. *)
Inductive Event : Type :=
| EvProcessing (indent : nat) (tag id : string)
| EvGraphicBoundsError (indent : nat) (id : string)
| EvStoryNotFound (indent : nat) (story_file_name id : string)
| EvTextAdded (indent : nat) (id story pid : string)
| EvEmptyText (indent : nat) (id story : string)
| EvNotAssigned (indent : nat) (id story : string)
| EvNoPages
| EvGeometryMissing (pid : string).

(** The mutable objects threaded through the walk. *)
Record WalkState : Type := mkWalkState {
  pages_content_map : Dict PageData;
  story_cache : gmap string string;
  stdout : list Event
}.

(** [find_page_for_item_center] (the item id and tag are only logged). *)
Fixpoint find_page_for_item_center (item_center_x item_center_y : Q)
  (geometric_pages : list PageGeometricInfo) : option string :=
  match geometric_pages with
  | [] => None
  | page_info :: rest =>
      if is_point_in_rect item_center_x item_center_y
           (y1 (global_aabb page_info)) (x1 (global_aabb page_info))
           (y2 (global_aabb page_info)) (x2 (global_aabb page_info))
      then Some (pg_id page_info)
      else find_page_for_item_center item_center_x item_center_y rest
  end.

(** Lines 162-167 of [process_spread_element_recursively]: the box that is
    reported and the point that is tested against the pages. *)
Definition item_geometry (determined_local_bounds : LocalBounds) (item_global_matrix : Matrix)
  : AABB * Point :=
  if negb (bounds_is_zero determined_local_bounds)
  then
    let igc := get_global_corners determined_local_bounds item_global_matrix in
    let item_global_aabb := get_axis_aligned_bounding_box igc in
    (item_global_aabb, get_item_center item_global_aabb)
  else (zero_aabb, (matrix_tx item_global_matrix, matrix_ty item_global_matrix)).

Definition recursable (t : string) : bool :=
  String.eqb t "Group" || String.eqb t "Rectangle" || String.eqb t "Oval" ||
  String.eqb t "Polygon".

(** ** Floating-point arithmetic *)

(** The entries without their signs. *)
Definition abs_matrix (m : Matrix) : Matrix :=
  let '(a, b, c, d, tx, ty) := m in
  (Qabs a, Qabs b, Qabs c, Qabs d, Qabs tx, Qabs ty).

(** The size of the terms that make up [A] applied to [B] applied to
    (x, y): the same expression on the absolute values. *)
Definition reach (A B : Matrix) (x y : Q) : Point :=
  let q := apply_transform_to_point (Qabs x) (Qabs y) (abs_matrix B) in
  apply_transform_to_point (fst q) (snd q) (abs_matrix A).

(** The numbers with at most three binary digits behind the point, a
    small format to run the definitions on. *)
Definition eighths (q : Q) : Prop :=
  Qeq_bool (q * 8) (inject_Z (Qfloor (q * 8))) = true.


Module Rounded.
Section Rounding.

(** The numbers of the floating-point format, and its unit roundoff. *)
Variable representable : Q -> Prop.
Variable u : Q.

(** [r] is the result of an operation whose exact value is [x]: a number
    of the format, [x] itself when [x] is one, and off by at most the
    fraction [u] of [x].  Rounding to nearest in binary64 gives this with
    [u] = 2^-53 for every operation that neither overflows nor
    underflows. *)
Definition rounds (x r : Q) : Prop :=
  representable r /\ (representable x -> r == x) /\ Qabs (r - x) <= u * Qabs x.

(** [a*x+c*y] *)
Definition dot (a x c y r : Q) : Prop :=
  exists p q, rounds (a * x) p /\ rounds (c * y) q /\ rounds (p + q) r.

(** [a*x+c*y+t] *)
Definition dot_plus (a x c y t r : Q) : Prop :=
  exists s, dot a x c y s /\ rounds (s + t) r.

Definition multiply_matrices (m1 m2 m : Matrix) : Prop :=
  let '(a1, b1, c1, d1, tx1, ty1) := m1 in
  let '(a2, b2, c2, d2, tx2, ty2) := m2 in
  let '(a, b, c, d, tx, ty) := m in
  dot a1 a2 c1 b2 a /\ dot b1 a2 d1 b2 b /\ dot a1 c2 c1 d2 c /\ dot b1 c2 d1 d2 d /\
  dot_plus a1 tx2 c1 ty2 tx1 tx /\ dot_plus b1 tx2 d1 ty2 ty1 ty.

Definition apply_transform_to_point (x y : Q) (matrix : Matrix) (p : Point) : Prop :=
  let '(a, b, c, d, tx, ty) := matrix in
  dot_plus a x c y tx (fst p) /\ dot_plus b x d y ty (snd p).

(** Every entry is a number of the format. *)
Definition representable_matrix (m : Matrix) : Prop :=
  let '(a, b, c, d, tx, ty) := m in
  representable a /\ representable b /\ representable c /\ representable d /\
  representable tx /\ representable ty.

End Rounding.

(** [(1 + u)^k] *)
Fixpoint compound (u : Q) (k : nat) : Q :=
  match k with
  | O => 1
  | S k' => (1 + u) * compound u k'
  end.

(** [v] stands for the exact value [e], whose size is at most [V], after
    at most [k] roundings one on top of the other. *)
Definition approximates (u : Q) (k : nat) (V e v : Q) : Prop :=
  Qabs e <= V /\ Qabs (v - e) <= (compound u k - 1) * V.

End Rounded.

(** The same two functions on the machine's binary64 numbers. *)
Module Binary64.
Import PrimFloat.
#[local] Open Scope float_scope.

Definition Matrix : Type := (float * float * float * float * float * float)%type.

Definition multiply_matrices (m1 m2 : Matrix) : Matrix :=
  let '(a1, b1, c1, d1, tx1, ty1) := m1 in
  let '(a2, b2, c2, d2, tx2, ty2) := m2 in
  (a1*a2+c1*b2, b1*a2+d1*b2, a1*c2+c1*d2, b1*c2+d1*d2,
   a1*tx2+c1*ty2+tx1, b1*tx2+d1*ty2+ty1).

Definition apply_transform_to_point (x y : float) (matrix : Matrix) : float * float :=
  let '(a, b, c, d, tx, ty) := matrix in
  (a*x+c*y+tx, b*x+d*y+ty).

(** Python's [==] on two points. *)
Definition point_eqb (p q : float * float) : bool :=
  (fst p =? fst q) && (snd p =? snd q).

(** The translation by (dx, 0). *)
Definition shift (dx : float) : Matrix := (1, 0, 0, 1, dx, 0).

(** The floats that Python writes 0.1, 0.2 and 0.3. *)
Definition tenth : float := 0x1.999999999999ap-4.
Definition fifth : float := 0x1.999999999999ap-3.
Definition three_tenths : float := 0x1.3333333333333p-2.

(** 2^-52, the distance from 1 to the next float. *)
Definition epsilon : float := 0x1p-52.

Definition distance (a b : float) : float := abs (a - b).

Definition within (bound a b : float) : bool := distance a b <=? bound.

End Binary64.

(** ** The extraction pipeline of [extract_from_idml.py] *)

Section Extract.

(** The builtin [float]; [None] is [ValueError]. *)
Variable py_float : string -> option Q.

(** The contents of the [Stories] directory: file name to the result of
    [get_story_text] on that file (the flattening itself is modelled apart,
    as [get_story_text] below). *)
Variable stories_dir : gmap string string.

(** [list(map(float, parts))] *)
Fixpoint map_float (parts : list string) : option (list Q) :=
  match parts with
  | [] => Some []
  | p :: ps =>
      match py_float p with
      | None => None
      | Some x =>
          match map_float ps with
          | None => None
          | Some xs => Some (x :: xs)
          end
      end
  end.

Definition parse_transform_matrix (transform_str : option string) : Matrix :=
  match transform_str with
  | None => identity_matrix
  | Some s =>
      if negb (py_truthy transform_str) then identity_matrix
      else match map_float (py_split s) with
           | Some [a; b; c; d; tx; ty] => (a, b, c, d, tx, ty)
           | _ => identity_matrix
           end
  end.

Definition parse_geometric_bounds (bounds_str : option string) : LocalBounds :=
  match bounds_str with
  | None => zero_bounds
  | Some s =>
      if negb (py_truthy bounds_str) then zero_bounds
      else match map_float (py_split s) with
           | Some [by1; bx1; by2; bx2] => (by1, bx1, by2, bx2)
           | _ => zero_bounds
           end
  end.

(** [PageGeometricInfo.__init__] *)
Definition PageGeometricInfo_init (self_id name : string)
  (page_local_transform_str page_local_bounds_str : option string)
  (spread_base_transform_matrix : Matrix) : PageGeometricInfo :=
  let page_local_matrix := parse_transform_matrix page_local_transform_str in
  let self_local_bounds := parse_geometric_bounds page_local_bounds_str in
  let self_global_matrix := multiply_matrices spread_base_transform_matrix page_local_matrix in
  let page_global_corners := get_global_corners self_local_bounds self_global_matrix in
  mkPageGeometricInfo self_id name self_local_bounds self_global_matrix
    (get_axis_aligned_bounding_box page_global_corners).

(** The loop body of [get_local_bounds_from_path_geometry]: the anchors that
    parse to exactly two numbers, in order. *)
Fixpoint anchor_points (path_points : list Element) : list Point :=
  match path_points with
  | [] => []
  | path_point_type :: rest =>
      let anchor_str := get path_point_type "Anchor" in
      match anchor_str with
      | Some s =>
          if py_truthy anchor_str
          then match map_float (py_split s) with
               | Some [cx; cy] => (cx, cy) :: anchor_points rest
               | _ => anchor_points rest
               end
          else anchor_points rest
      | None => anchor_points rest
      end
  end.

Definition get_local_bounds_from_path_geometry (tf_element : Element) : option LocalBounds :=
  let path_point_array :=
    match find_path "Properties" ["PathGeometry"; "GeometryPathType"; "PathPointArray"] tf_element with
    | Some a => Some a
    | None => find_path "PathGeometry" ["GeometryPathType"; "PathPointArray"] tf_element
    end in
  match path_point_array with
  | None => None
  | Some a =>
      match anchor_points (children_tagged "PathPointType" a) with
      | [] => None
      | p :: ps =>
          let all_x := List.map fst ps in
          let all_y := List.map snd ps in
          Some (py_min (snd p) all_y, py_min (fst p) all_x,
                py_max (snd p) all_y, py_max (fst p) all_x)
      end
  end.

(** The four edge offsets of a [GraphicBounds] node as (y1, x1, y2, x2);
    [None] when one of them does not parse. *)
Definition graphic_bounds (gb_prop : Element) : option LocalBounds :=
  match py_float (get_default gb_prop "Left" "0"),
        py_float (get_default gb_prop "Top" "0"),
        py_float (get_default gb_prop "Right" "0"),
        py_float (get_default gb_prop "Bottom" "0") with
  | Some gb_l, Some gb_t, Some gb_r, Some gb_b => Some (gb_t, gb_l, gb_b, gb_r)
  | _, _, _, _ => None
  end.

(** Lines 141-160 of [process_spread_element_recursively]: the local bounds
    of an element and what is printed on the way. *)
Definition resolve_local_bounds (indent : nat) (element : Element)
  : LocalBounds * list Event :=
  let element_tag_local := tag_of element in
  let element_id := get_default element "Self" "UnknownID" in
  if String.eqb element_tag_local "Image" then
    let '(from_graphic, out) :=
      match find_path "Properties" ["GraphicBounds"] element with
      | Some gb_prop =>
          match graphic_bounds gb_prop with
          | Some b => (b, [])
          | None => (zero_bounds, [EvGraphicBoundsError indent element_id])
          end
      | None => (zero_bounds, [])
      end in
    if bounds_is_zero from_graphic
    then
      let item_lbs_img := get element "GeometricBounds" in
      if py_truthy item_lbs_img
      then (parse_geometric_bounds item_lbs_img, out)
      else (from_graphic, out)
    else (from_graphic, out)
  else if String.eqb element_tag_local "TextFrame" then
    match get_local_bounds_from_path_geometry element with
    | Some path_gb => (path_gb, [])
    | None =>
        let lbs_tf := get element "GeometricBounds" in
        if py_truthy lbs_tf
        then (parse_geometric_bounds lbs_tf, [])
        else (zero_bounds, [])
    end
  else (parse_geometric_bounds (get element "GeometricBounds"), []).

Definition determined_local_bounds (element : Element) : LocalBounds :=
  fst (resolve_local_bounds 0 element).

Definition emit (out : list Event) (st : WalkState) : WalkState :=
  mkWalkState (pages_content_map st) (story_cache st) (stdout st ++ out).

(** Lines 176-179: the story text is looked up on disk once per story id. *)
Definition resolve_story (indent : nat) (element_id story : string) (st : WalkState)
  : WalkState :=
  match story_cache st !! story with
  | Some _ => st
  | None =>
      let sfn := String.append "Story_" (String.append story ".xml") in
      match stories_dir !! sfn with
      | Some text =>
          mkWalkState (pages_content_map st) (<[story := text]> (story_cache st)) (stdout st)
      | None =>
          mkWalkState (pages_content_map st) (<[story := ""]> (story_cache st))
            (stdout st ++ [EvStoryNotFound indent sfn element_id])
      end
  end.

(** Lines 172-188: the side effect of a [TextFrame]. *)
Definition process_text_frame (indent : nat) (element : Element)
  (assigned_page_id : option string) (item_global_aabb : AABB) (st : WalkState)
  : WalkState :=
  let element_id := get_default element "Self" "UnknownID" in
  let item_local_matrix_str := get element "ItemTransform" in
  let story_ref := get element "ParentStory" in
  if py_truthy assigned_page_id && py_truthy story_ref then
    match assigned_page_id, story_ref with
    | Some pid, Some story =>
        let st1 := resolve_story indent element_id story st in
        let tc := default "" (story_cache st1 !! story) in
        match dict_get pid (pages_content_map st1) with
        | Some pd =>
            if negb (existsb (fun tf => String.eqb (text_frame_id tf) element_id) (texts pd))
            then
              if py_truthy (Some tc)
              then
                let item := mkTextItem story element_id tc item_global_aabb
                              item_local_matrix_str in
                mkWalkState
                  (dict_set pid (mkPageData (name pd) (images pd) (texts pd ++ [item]))
                     (pages_content_map st1))
                  (story_cache st1)
                  (stdout st1 ++ [EvTextAdded indent element_id story pid])
              else emit [EvEmptyText indent element_id story] st1
            else st1
        | None => st1
        end
    | _, _ => st
    end
  else
    match story_ref with
    | Some story =>
        if py_truthy story_ref
        then emit [EvNotAssigned indent element_id story] st
        else st
    | None => st
    end.

(** Lines 189-200: the side effect of an [Image]. *)
Definition process_image (element : Element) (parent_element : option Element)
  (assigned_page_id : option string) (item_global_aabb : AABB) (st : WalkState)
  : WalkState :=
  let element_id := get_default element "Self" "UnknownID" in
  let item_local_matrix_str := get element "ItemTransform" in
  match assigned_page_id with
  | Some pid =>
      if py_truthy assigned_page_id then
        match find_path "Link" [] element with
        | Some le =>
            match get le "LinkResourceURI" with
            | Some u =>
                if py_truthy (Some u) then
                  match dict_get pid (pages_content_map st) with
                  | Some pd =>
                      let '(ctag, cid) :=
                        match parent_element with
                        | Some p =>
                            if element_truthy p
                            then (tag_of p, get_default p "Self" "Unk")
                            else ("Unk", "Unk")
                        | None => ("Unk", "Unk")
                        end in
                      if negb (existsb
                                 (fun i => String.eqb (uri i) u &&
                                           String.eqb (image_element_id i) element_id)
                                 (images pd))
                      then
                        let item := mkImageItem u element_id ctag cid item_global_aabb
                                      item_local_matrix_str in
                        mkWalkState
                          (dict_set pid (mkPageData (name pd) (images pd ++ [item]) (texts pd))
                             (pages_content_map st))
                          (story_cache st) (stdout st)
                      else st
                  | None => st
                  end
                else st
            | None => st
            end
        | None => st
        end
      else st
  | None => st
  end.

(** Lines 131-200: everything the function does for one element before it
    descends; returns the new state and the element's global transform. *)
Definition process_element (element : Element) (parent_element : option Element)
  (current_accumulated_matrix : Matrix) (geometric_pages : list PageGeometricInfo)
  (depth : nat) (st : WalkState) : WalkState * Matrix :=
  let indent := (depth + 1)%nat in
  let element_tag_local := tag_of element in
  let element_id := get_default element "Self" "UnknownID" in
  let st0 := emit [EvProcessing indent element_tag_local element_id] st in
  let item_local_matrix := parse_transform_matrix (get element "ItemTransform") in
  let item_global_matrix := multiply_matrices current_accumulated_matrix item_local_matrix in
  let '(bounds, out) := resolve_local_bounds indent element in
  let st1 := emit out st0 in
  let '(item_global_aabb, (item_center_x, item_center_y)) :=
    item_geometry bounds item_global_matrix in
  let assigned_page_id :=
    find_page_for_item_center item_center_x item_center_y geometric_pages in
  let st2 :=
    if String.eqb element_tag_local "TextFrame"
    then process_text_frame indent element assigned_page_id item_global_aabb st1
    else if String.eqb element_tag_local "Image"
         then process_image element parent_element assigned_page_id item_global_aabb st1
         else st1 in
  (st2, item_global_matrix).

Fixpoint process_spread_element_recursively (element : Element)
  (parent_element : option Element) (current_accumulated_matrix : Matrix)
  (geometric_pages : list PageGeometricInfo) (depth : nat) (st : WalkState)
  {struct element} : WalkState :=
  let '(st2, item_global_matrix) :=
    process_element element parent_element current_accumulated_matrix
      geometric_pages depth st in
  match element with
  | Elem element_tag_local _ cs =>
      if recursable element_tag_local
      then fold_left
             (fun s child =>
                process_spread_element_recursively child (Some element)
                  item_global_matrix geometric_pages (S depth) s)
             cs st2
      else st2
  end.


(** Lines 221-228 of [get_page_content_from_spread]: the page index of a
    spread and the empty content entry of every page. *)
Fixpoint build_pages (spread_base_matrix : Matrix) (page_els : list Element)
  (current_spread_pages_content : Dict PageData)
  (geometric_pages : list PageGeometricInfo)
  : Dict PageData * list PageGeometricInfo :=
  match page_els with
  | [] => (current_spread_pages_content, geometric_pages)
  | page_el :: rest =>
      match get page_el "Self" with
      | Some pid =>
          if py_truthy (Some pid) then
            let page_name := get_default page_el "Name" (String.append "UnkPage_" pid) in
            let page_info :=
              PageGeometricInfo_init pid page_name (get page_el "ItemTransform")
                (get page_el "GeometricBounds") spread_base_matrix in
            build_pages spread_base_matrix rest
              (match dict_get pid current_spread_pages_content with
               | None => dict_set pid (mkPageData page_name [] []) current_spread_pages_content
               | Some _ => current_spread_pages_content
               end)
              (geometric_pages ++ [page_info])
          else build_pages spread_base_matrix rest current_spread_pages_content geometric_pages
      | None => build_pages spread_base_matrix rest current_spread_pages_content geometric_pages
      end
  end.

Definition skipped_child (t : string) : bool :=
  String.eqb t "Page" || String.eqb t "FlattenerPreference" || String.eqb t "Properties".

(** What [get_page_content_from_spread] returns: the pair of line 237, or
    the bare empty dict of line 229. *)
Inductive SpreadResult : Type :=
| SpreadContent (content : Dict PageData) (geometric_pages : list PageGeometricInfo)
| SpreadEmptyDict.

(** Lines 216-237 of [get_page_content_from_spread], from the located
    [spread_element] on; the story cache and the output are passed through. *)
Definition get_page_content_from_spread (spread_element : Element)
  (cache : gmap string string) (out : list Event)
  : SpreadResult * gmap string string * list Event :=
  let spread_base_matrix := parse_transform_matrix (get spread_element "ItemTransform") in
  let '(current_spread_pages_content, geometric_pages) :=
    build_pages spread_base_matrix (descendants_tagged "Page" spread_element) [] [] in
  match geometric_pages with
  | [] => (SpreadEmptyDict, cache, (out ++ [EvNoPages]))
  | _ :: _ =>
      let st :=
        fold_left
          (fun s child_el =>
             if skipped_child (tag_of child_el) then s
             else process_spread_element_recursively child_el (Some spread_element)
                    spread_base_matrix geometric_pages 0 s)
          (children_of spread_element)
          (mkWalkState current_spread_pages_content cache out) in
      (SpreadContent (pages_content_map st) geometric_pages, story_cache st, stdout st)
  end.

(** *** Aggregation (lines 279-292 of [extract]) *)

Definition same_image (a b : ImageItem) : bool :=
  String.eqb (uri a) (uri b) && String.eqb (image_element_id a) (image_element_id b).

Definition merge_images (existing incoming : list ImageItem) : list ImageItem :=
  fold_left
    (fun ex img_item => if negb (existsb (fun ex_img => same_image ex_img img_item) ex)
                        then ex ++ [img_item] else ex)
    incoming existing.

Definition merge_texts_from (incoming : list TextItem)
  (acc : list TextItem * gset string) : list TextItem * gset string :=
  fold_left
    (fun '(ex, current_tf_ids) text_item =>
       if bool_decide (text_frame_id text_item ∈ current_tf_ids)
       then (ex, current_tf_ids)
       else ((ex ++ [text_item]), {[text_frame_id text_item]} ∪ current_tf_ids))
    incoming acc.

Definition merge_texts (existing incoming : list TextItem) : list TextItem :=
  fst (merge_texts_from incoming
         (existing, list_to_set (List.map text_frame_id existing))).

Definition merge_page (all_page_data_by_id : Dict PageData) (entry : string * PageData)
  : Dict PageData :=
  let '(pid, pdata_in_spread) := entry in
  match dict_get pid all_page_data_by_id with
  | None => dict_set pid pdata_in_spread all_page_data_by_id
  | Some cur =>
      dict_set pid
        (mkPageData (name cur)
           (merge_images (images cur) (images pdata_in_spread))
           (merge_texts (texts cur) (texts pdata_in_spread)))
        all_page_data_by_id
  end.

(** The loop of lines 283-292 over [content_from_this_spread.items()]. *)
Definition merge_spread (all_page_data_by_id content_from_this_spread : Dict PageData)
  : Dict PageData :=
  fold_left merge_page content_from_this_spread all_page_data_by_id.

(** The loop of lines 279-281. *)
Definition merge_geometries (all_page_geometries : gmap string PageGeometricInfo)
  (geoinfo_from_this_spread : list PageGeometricInfo) : gmap string PageGeometricInfo :=
  fold_left
    (fun g page_info =>
       match g !! pg_id page_info with
       | None => <[pg_id page_info := page_info]> g
       | Some _ => g
       end)
    geoinfo_from_this_spread all_page_geometries.

(** *** Output (lines 327-376 of [extract]) *)

(** [sorted(l, key=key)] with string keys: a stable sort, written as the
    insertion sort that puts each element behind the elements that do not
    compare greater. *)
Fixpoint insert_by {A : Type} (key : A -> string) (x : A) (l : list A) : list A :=
  match l with
  | [] => [x]
  | y :: l' => if String.ltb (key x) (key y) then x :: y :: l' else y :: insert_by key x l'
  end.

Definition py_sorted {A : Type} (key : A -> string) (l : list A) : list A :=
  fold_left (fun acc x => insert_by key x acc) l [].

(** [all_page_data_by_id[pid_key]["name"]] for a key of the dict. *)
Definition name_of_page (all_page_data_by_id : Dict PageData) (pid_key : string) : string :=
  match dict_get pid_key all_page_data_by_id with
  | Some pd => name pd
  | None => ""
  end.

Definition final_sorted_page_ids (all_page_data_by_id : Dict PageData) : list string :=
  py_sorted (name_of_page all_page_data_by_id) (dict_keys all_page_data_by_id).

Record OutImage : Type := mkOutImage {
  URI : string;
  ImageId : string;
  image_Bounds : AABB;
  image_page_width : Q;
  image_page_height : Q
}.

Record OutText : Type := mkOutText {
  Content : string;
  TextId : string;
  text_Bounds : AABB;
  text_page_width : Q;
  text_page_height : Q
}.

Record PageOutput : Type := mkPageOutput {
  page_name : string;
  page_id : string;
  out_images : list OutImage;
  out_texts : list OutText
}.

(** The page-relative box of lines 357-360 and 369-372. *)
Definition rebase (item_global_bounds : AABB) (page_offset_x page_offset_y : Q) : AABB :=
  mkAABB (x1 item_global_bounds - page_offset_x) (y1 item_global_bounds - page_offset_y)
         (x2 item_global_bounds - page_offset_x) (y2 item_global_bounds - page_offset_y).

(** The locals [page_width] and [page_height] of [extract]: unbound until
    the first page with geometry has been handled, and then left as that
    page set them until the next page with geometry. *)
Definition PageDims : Type := option (Q * Q).

(** Reading [page_width] and [page_height] while building an item. *)
Definition read_dims (dims : PageDims) : PyResult (Q * Q) :=
  match dims with
  | Some wh => Ok wh
  | None => Raise UnboundLocalError
  end.

Fixpoint output_images (imgs : list ImageItem) (page_offset_x page_offset_y : Q)
  (dims : PageDims) : PyResult (list OutImage) :=
  match imgs with
  | [] => Ok []
  | img_item :: rest =>
      py_bind (read_dims dims) (fun '(w, h) =>
      py_bind (output_images rest page_offset_x page_offset_y dims) (fun outs =>
      Ok (mkOutImage (uri img_item) (image_element_id img_item)
            (rebase (image_global_bounds img_item) page_offset_x page_offset_y) w h
          :: outs)))
  end.

Fixpoint output_texts (txts : list TextItem) (page_offset_x page_offset_y : Q)
  (dims : PageDims) : PyResult (list OutText) :=
  match txts with
  | [] => Ok []
  | t_item :: rest =>
      py_bind (read_dims dims) (fun '(w, h) =>
      py_bind (output_texts rest page_offset_x page_offset_y dims) (fun outs =>
      Ok (mkOutText (content t_item) (text_frame_id t_item)
            (rebase (text_global_bounds t_item) page_offset_x page_offset_y) w h
          :: outs)))
  end.

(** One iteration of the loop of lines 332-376. *)
Definition output_page (all_page_geometries : gmap string PageGeometricInfo)
  (pid : string) (pdata : PageData) (dims : PageDims)
  : list Event * PageDims * PyResult PageOutput :=
  let '(out, page_offset_x, page_offset_y, dims') :=
    match all_page_geometries !! pid with
    | None => ([EvGeometryMissing pid], 0, 0, dims)
    | Some page_geo_info =>
        let page_global_bounds := global_aabb page_geo_info in
        ([], x1 page_global_bounds, y1 page_global_bounds,
         Some (x2 page_global_bounds - x1 page_global_bounds,
               y2 page_global_bounds - y1 page_global_bounds))
    end in
  (out, dims',
   py_bind (output_images (images pdata) page_offset_x page_offset_y dims') (fun imgs =>
   py_bind (output_texts (texts pdata) page_offset_x page_offset_y dims') (fun txts =>
   Ok (mkPageOutput (name pdata) pid imgs txts)))).

Fixpoint output_pages (all_page_data_by_id : Dict PageData)
  (all_page_geometries : gmap string PageGeometricInfo)
  (pids : list string) (dims : PageDims) (out : list Event)
  : list Event * PyResult (list PageOutput) :=
  match pids with
  | [] => (out, Ok [])
  | pid :: rest =>
      match dict_get pid all_page_data_by_id with
      | None => (out, Raise KeyError)
      | Some pdata =>
          let '(ev, dims', r) := output_page all_page_geometries pid pdata dims in
          match r with
          | Raise e => ((out ++ ev), Raise e)
          | Ok page_output =>
              let '(out', r') :=
                output_pages all_page_data_by_id all_page_geometries rest dims'
                  (out ++ ev) in
              (out', py_bind r' (fun pages => Ok (page_output :: pages)))
          end
      end
  end.

(** [output_data["pages"]] as built by lines 328-376. *)
Definition prepare_output (all_page_data_by_id : Dict PageData)
  (all_page_geometries : gmap string PageGeometricInfo)
  : list Event * PyResult (list PageOutput) :=
  output_pages all_page_data_by_id all_page_geometries
    (final_sorted_page_ids all_page_data_by_id) None [].

(** *** The run over all spread files *)

Record ExtractState : Type := mkExtractState {
  all_page_data_by_id : Dict PageData;
  all_page_geometries : gmap string PageGeometricInfo;
  run_story_cache : gmap string string;
  run_stdout : list Event
}.

(** The loop of lines 274-292; unpacking the bare dict of line 229 into two
    names raises [ValueError]. *)
Fixpoint process_spreads (spreads : list Element) (st : ExtractState)
  : PyResult ExtractState :=
  match spreads with
  | [] => Ok st
  | spread_element :: rest =>
      let '(res, cache, out) :=
        get_page_content_from_spread spread_element (run_story_cache st) (run_stdout st) in
      match res with
      | SpreadEmptyDict => Raise ValueError
      | SpreadContent content_from_this_spread geoinfo_from_this_spread =>
          process_spreads rest
            (mkExtractState
               (merge_spread (all_page_data_by_id st) content_from_this_spread)
               (merge_geometries (all_page_geometries st) geoinfo_from_this_spread)
               cache out)
      end
  end.

(** ** Where [extract_box.py] differs *)

(** [PageGeometricInfo.__init__] of [extract_box.py]: no spread transform. *)
Definition ExtractBox_PageGeometricInfo_init (self_id name : string)
  (page_matrix_str page_bounds_str : option string) : PageGeometricInfo :=
  let self_matrix := parse_transform_matrix page_matrix_str in
  let self_local_bounds := parse_geometric_bounds page_bounds_str in
  let page_global_corners := get_global_corners self_local_bounds self_matrix in
  mkPageGeometricInfo self_id name self_local_bounds self_matrix
    (get_axis_aligned_bounding_box page_global_corners).

(** Lines 194-211 of [extract_box.py]: the local bounds of an [Image] come
    from the graphic bounds alone; without them the local
    [item_local_bounds] stays unbound and reading it at line 237 raises. *)
Definition ExtractBox_image_local_bounds (element : Element) : PyResult LocalBounds :=
  match find_path "Properties" ["GraphicBounds"] element with
  | Some graphic_bounds_prop =>
      match graphic_bounds graphic_bounds_prop with
      | Some item_local_bounds => Ok item_local_bounds
      | None => Raise UnboundLocalError
      end
  | None => Raise UnboundLocalError
  end.

(** Lines 223-241 of [extract_box.py]: a [Group] always gets a box. *)
Definition ExtractBox_item_geometry (element_tag_local : string)
  (item_local_bounds : LocalBounds) (item_global_matrix : Matrix) : AABB * Point :=
  if negb (bounds_is_zero item_local_bounds) || String.eqb element_tag_local "Group"
  then
    let item_global_corners := get_global_corners item_local_bounds item_global_matrix in
    let item_global_aabb := get_axis_aligned_bounding_box item_global_corners in
    (item_global_aabb, get_item_center item_global_aabb)
  else (zero_aabb, (matrix_tx item_global_matrix, matrix_ty item_global_matrix)).

(** ** Example documents *)

(** A sheet that is scaled and shifted, with one shifted page. *)
Definition offset_page : Element :=
  Elem "Page"
    [("Self", "p1"); ("Name", "1"); ("GeometricBounds", "0 0 800 600");
     ("ItemTransform", "1 0 0 1 100 50")] [].

Definition offset_sheet : Element :=
  Elem "Spread" [("Self", "s1"); ("ItemTransform", "2 0 0 2 10 0")] [offset_page].

Definition offset_page_info : PageGeometricInfo :=
  mkPageGeometricInfo "p1" "1" (0, 0, 800, 600) (2, 0, 0, 2, 210, 100)
    (mkAABB 210 100 1410 1700).

(** A sheet with two text containers that carry the same element id and
    reference two different stories, both inside the one page. *)
Definition twin_page : Element :=
  Elem "Page" [("Self", "p1"); ("Name", "1"); ("GeometricBounds", "0 0 800 600")] [].

Definition twin_frame_1 : Element :=
  Elem "TextFrame"
    [("Self", "tf1"); ("ParentStory", "u1"); ("GeometricBounds", "10 10 100 200")] [].

Definition twin_frame_2 : Element :=
  Elem "TextFrame"
    [("Self", "tf1"); ("ParentStory", "u2"); ("GeometricBounds", "200 10 300 200")] [].

Definition twin_sheet : Element :=
  Elem "Spread" [("Self", "s1")] [twin_page; twin_frame_1; twin_frame_2].

Definition twin_stories : gmap string string :=
  <["Story_u1.xml" := "Hello"]> (<["Story_u2.xml" := "World"]> ∅).

Definition twin_box_1 : AABB := mkAABB 10 10 200 100.
Definition twin_box_2 : AABB := mkAABB 10 200 200 300.

Definition twin_item_1 : TextItem := mkTextItem "u1" "tf1" "Hello" twin_box_1 None.

(** The walk state after the first of the two containers. *)
Definition twin_state : WalkState :=
  mkWalkState [("p1", mkPageData "1" [] [twin_item_1])] {["u1" := "Hello"]}
    [EvProcessing 1 "TextFrame" "tf1"; EvTextAdded 1 "tf1" "u1" "p1";
     EvProcessing 1 "TextFrame" "tf1"].

(** An image with explicit graphic bounds and a bounds attribute. *)
Definition framed_image : Element :=
  Elem "Image" [("Self", "i1"); ("GeometricBounds", "1 2 3 4")]
    [Elem "Properties" []
       [Elem "GraphicBounds"
          [("Left", "5"); ("Top", "6"); ("Right", "55"); ("Bottom", "66")] []];
     Elem "Link" [("LinkResourceURI", "file:a.png")] []].

(** An image that has only the bounds attribute. *)
Definition plain_image : Element :=
  Elem "Image" [("Self", "i2"); ("GeometricBounds", "1 2 3 4")]
    [Elem "Link" [("LinkResourceURI", "file:b.png")] []].

(** A shape without bounds. *)
Definition bare_rectangle : Element :=
  Elem "Rectangle" [("Self", "r1"); ("ItemTransform", "1 0 0 1 30 40")] [].

(** A text container that is the leaf of a chain of groups. *)
Definition deep_leaf : Element :=
  Elem "TextFrame" [("Self", "leaf")] [].

(** Items for the aggregation examples: [image_a'] is [image_a] met again
    in another sheet, [text_a'] is [text_a] met again. *)
Definition image_a : ImageItem :=
  mkImageItem "file:a.png" "i1" "Rectangle" "r1" (mkAABB 0 0 50 50) None.
Definition image_a' : ImageItem :=
  mkImageItem "file:a.png" "i1" "Rectangle" "r9" (mkAABB 5 5 55 55) None.
Definition image_b : ImageItem :=
  mkImageItem "file:b.png" "i2" "Oval" "o1" (mkAABB 60 0 90 50) None.
Definition text_a : TextItem := mkTextItem "u1" "tf1" "Hello" (mkAABB 0 0 10 10) None.
Definition text_a' : TextItem := mkTextItem "u7" "tf1" "Again" (mkAABB 0 0 10 10) None.
Definition text_b : TextItem := mkTextItem "u2" "tf2" "World" (mkAABB 0 20 10 30) None.

Definition known_document : Dict PageData :=
  [("p1", mkPageData "1" [image_a] [text_a])].

Definition second_sheet : Dict PageData :=
  [("p1", mkPageData "one" [image_a'; image_b] [text_a'; text_b]);
   ("p2", mkPageData "2" [] [])].

(** Four pages whose names are not in the order of their ids. *)
Definition unordered_document : Dict PageData :=
  [("a", mkPageData "2" [] []); ("b", mkPageData "10" [] []);
   ("c", mkPageData "1" [] []); ("d", mkPageData "10" [] [])].

(** ** Specification-side vocabulary *)

(** Closed-interval containment of a point in a box. *)
Definition aabb_contains (b : AABB) (px py : Q) : Prop :=
  (x1 b <= px /\ px <= x2 b) /\ (y1 b <= py /\ py <= y2 b).

(** The box the page index has to give a page element of a sheet whose base
    transform is [sheet_base]. *)
Definition page_box (sheet_base : Matrix) (page_el : Element) : AABB :=
  get_axis_aligned_bounding_box
    (get_global_corners
       (parse_geometric_bounds (get page_el "GeometricBounds"))
       (multiply_matrices sheet_base (parse_transform_matrix (get page_el "ItemTransform")))).

(** The box that the walk reports for an element and the point it tests
    against the pages, under the accumulated transform of the parent. *)
Definition element_geometry (element : Element) (current_accumulated_matrix : Matrix)
  : AABB * Point :=
  item_geometry (determined_local_bounds element)
    (multiply_matrices current_accumulated_matrix
       (parse_transform_matrix (get element "ItemTransform"))).





(** [n] groups, one inside the other, around [leaf]. *)
Fixpoint nest (n : nat) (leaf : Element) : Element :=
  match n with
  | O => leaf
  | S n' => Elem "Group" [] [nest n' leaf]
  end.

(** The text a story resolves to at a point of the run: the cached text if
    the story has been resolved before, else the text of its file, else the
    empty text. *)
Definition resolved_text (story : string) (cache : gmap string string) : string :=
  match cache !! story with
  | Some t => t
  | None => default "" (stories_dir !! String.append "Story_" (String.append story ".xml"))
  end.

(** A text item of this element id is already in the page's list. *)
Definition frame_recorded (element_id : string) (pd : PageData) : bool :=
  existsb (fun tf => String.eqb (text_frame_id tf) element_id) (texts pd).

(** A text item of this story and this element id is already in the page's
    list. *)
Definition pair_recorded (story element_id : string) (pd : PageData) : bool :=
  existsb (fun tf => String.eqb (story_id tf) story && String.eqb (text_frame_id tf) element_id)
    (texts pd).

(** The entry of a page after one sheet's data for it has been merged:
    [cur] is the document's entry before, if any. *)
Definition merged_entry (cur : option PageData) (pdata_in_spread : PageData) : PageData :=
  match cur with
  | None => pdata_in_spread
  | Some c =>
      mkPageData (name c) (merge_images (images c) (images pdata_in_spread))
        (merge_texts (texts c) (texts pdata_in_spread))
  end.

(** The document's entry of [pid] holds an item for every key of [pd]. *)
Definition covers (doc : Dict PageData) (pid : string) (pd : PageData) : Prop :=
  exists cur,
    dict_get pid doc = Some cur /\
    (forall i, In i (images pd) -> existsb (fun e => same_image e i) (images cur) = true) /\
    (forall t, In t (texts pd) ->
               In (text_frame_id t) (List.map text_frame_id (texts cur))).

(** Ascending order of two sort keys (code-point order of the strings). *)
Definition key_le {A : Type} (key : A -> string) (a b : A) : Prop :=
  String.leb (key a) (key b) = true.

(** The elements of a list that carry the sort key [n], in list order. *)
Definition with_key {A : Type} (key : A -> string) (n : string) (l : list A) : list A :=
  List.filter (fun a => String.eqb (key a) n) l.

(** Every page that has content in the document has a geometry. *)
Definition geometry_known (st : ExtractState) : Prop :=
  forall pid, In pid (dict_keys (all_page_data_by_id st)) ->
              exists page_geo_info, all_page_geometries st !! pid = Some page_geo_info.

(** The output entry of a page whose box is [box]: every item rebased to
    the corner (x1, y1) of the box, with the width and height of the box. *)
Definition normalized_page (pid : string) (pdata : PageData) (box : AABB) : PageOutput :=
  mkPageOutput (name pdata) pid
    (List.map
       (fun img_item =>
          mkOutImage (uri img_item) (image_element_id img_item)
            (rebase (image_global_bounds img_item) (x1 box) (y1 box))
            (x2 box - x1 box) (y2 box - y1 box))
       (images pdata))
    (List.map
       (fun t_item =>
          mkOutText (content t_item) (text_frame_id t_item)
            (rebase (text_global_bounds t_item) (x1 box) (y1 box))
            (x2 box - x1 box) (y2 box - y1 box))
       (texts pdata)).

(** The page elements that carry an identity. *)
Definition identified (page_el : Element) : bool := py_truthy (get page_el "Self").

(** *** Vocabulary for boxes *)

(** [inner] lies inside [outer], bounds included. *)
Definition aabb_within (inner outer : AABB) : Prop :=
  (x1 outer <= x1 inner /\ x2 inner <= x2 outer) /\
  (y1 outer <= y1 inner /\ y2 inner <= y2 outer).

(** A box whose lower corner is not beyond its upper corner. *)
Definition aabb_ordered (b : AABB) : Prop := x1 b <= x2 b /\ y1 b <= y2 b.

(** The translation by (dx, dy). *)
Definition translation (dx dy : Q) : Matrix := (1, 0, 0, 1, dx, dy).

(** The box of an element's local rectangle under a global transform. *)
Definition box_of (b : LocalBounds) (M : Matrix) : AABB :=
  get_axis_aligned_bounding_box (get_global_corners b M).

(** *** Vocabulary for strings *)

Fixpoint string_all (f : ascii -> bool) (s : string) : bool :=
  match s with
  | EmptyString => true
  | String c s' => f c && string_all f s'
  end.

(** A character of the ASCII range, where the separators of
    [str.split()] are exactly those of [is_py_space]. *)
Definition is_ascii_char (c : ascii) : bool := (nat_of_ascii c <? 128)%nat.

Definition ascii_only (s : string) : bool := string_all is_ascii_char s.

(** A string without separator characters. *)
Definition unbroken (t : string) : bool := string_all (fun c => negb (is_py_space c)) t.

(** What [str.split()] can return as one item: not empty, no separator. *)
Definition is_token (t : string) : bool :=
  match t with
  | EmptyString => false
  | String _ _ => unbroken t
  end.

(** A string of separator characters only (possibly empty). *)
Definition blank (s : string) : bool := string_all is_py_space s.

(** [" ".join(tokens)] *)
Fixpoint join_space (tokens : list string) : string :=
  match tokens with
  | [] => EmptyString
  | t :: rest =>
      match rest with
      | [] => t
      | _ :: _ => String.append t (String " "%char (join_space rest))
      end
  end.

(** *** Vocabulary for the walk *)

(** The container that is recorded with an image: the parent's tag and id,
    or "Unk" when there is no parent or the parent counts as false. *)
Definition container_of (parent_element : option Element) : string * string :=
  match parent_element with
  | Some p => if element_truthy p then (tag_of p, get_default p "Self" "Unk")
              else ("Unk", "Unk")
  | None => ("Unk", "Unk")
  end.

(** An image item of this uri and this element id is already in the page's
    list. *)
Definition image_recorded (u element_id : string) (pd : PageData) : bool :=
  existsb (fun i => String.eqb (uri i) u && String.eqb (image_element_id i) element_id)
    (images pd).

(** The key of an image item. *)
Definition image_key (i : ImageItem) : string * string := (uri i, image_element_id i).

(** No two texts of the page share an element id, no two images a key. *)
Definition unique_items (pd : PageData) : Prop :=
  List.NoDup (List.map text_frame_id (texts pd)) /\
  List.NoDup (List.map image_key (images pd)).

Definition content_unique (m : Dict PageData) : Prop :=
  forall pid pd, In (pid, pd) m -> unique_items pd.

(** [m] has the pages of [m0], in the same order and with the same names,
    and each page's lists start with what [m0] holds. *)
Definition extends (m0 m : Dict PageData) : Prop :=
  Forall2
    (fun e0 e =>
       fst e = fst e0 /\ name (snd e) = name (snd e0) /\
       (exists more, images (snd e) = images (snd e0) ++ more) /\
       (exists more, texts (snd e) = texts (snd e0) ++ more))
    m0 m.

(** The text of a story as the [Stories] directory has it; empty when the
    file is missing. *)
Definition file_text (story : string) : string :=
  default "" (stories_dir !! String.append "Story_" (String.append story ".xml")).

(** The cache holds nothing but the texts of the files. *)
Definition cache_faithful (cache : gmap string string) : Prop :=
  forall story t, cache !! story = Some t -> t = file_text story.

(** Every recorded text is the non-empty text of its story's file. *)
Definition texts_faithful (m : Dict PageData) : Prop :=
  forall pid pd t, In (pid, pd) m -> In t (texts pd) ->
                   content t = file_text (story_id t) /\ content t <> "".

(** One page entry grown out of another: same name, lists extended. *)
Definition grown_from (pd0 pd : PageData) : Prop :=
  name pd = name pd0 /\
  (exists more, images pd = images pd0 ++ more) /\
  (exists more, texts pd = texts pd0 ++ more).

(** The keys of [d] hold [k]. *)
Definition has_key {V : Type} (k : string) (d : Dict V) : bool :=
  existsb (String.eqb k) (dict_keys d).

(** *** Locating the sheet in a spread file (lines 206-213) *)

(** [s.endswith(suffix)]: some tail of [s] is [suffix]. *)
Fixpoint py_endswith (s suffix : string) : bool :=
  String.eqb s suffix ||
  match s with
  | EmptyString => false
  | String _ s' => py_endswith s' suffix
  end.

(** [any(c.tag.split('}')[-1]=='Page' for c in el)] *)
Definition has_page_child (el : Element) : bool :=
  existsb (has_tag "Page") (children_of el).

(** The test of line 211.  Tags are kept as local names; on a qualified tag
    [{ns}local] the test [endswith('Spread')] gives what it gives on
    [local], since the suffix holds no brace ([endswith_qualified]). *)
Definition spread_with_pages (el : Element) : bool :=
  py_endswith (tag_of el) "Spread" && has_page_child el.

(** Lines 206-213 of [get_page_content_from_spread]: the element that is
    taken as the sheet of a parsed file; [None] where line 213 prints and
    returns the bare dict. *)
Definition locate_spread (root : Element) : option Element :=
  if negb (py_endswith (tag_of root) "Spread") || negb (has_page_child root)
  then
    let found_spreads := List.filter spread_with_pages (root :: descendants root) in
    match head (children_tagged "Spread" root) with
    | Some candidate =>
        if has_page_child candidate then Some candidate else head found_spreads
    | None => head found_spreads
    end
  else Some root.


Fixpoint has_brace (s : string) : bool :=
  match s with
  | EmptyString => false
  | String c s' => Ascii.eqb c "}"%char || has_brace s'
  end.

(** *** Story files ([get_story_text], lines 100-114) *)

(** The text of a story is a Python [str]: a sequence of code points. *)
Definition Text : Type := list N.

(** The code points of a string of the model, one for each character. *)
Fixpoint code_points (s : string) : Text :=
  match s with
  | EmptyString => []
  | String c s' => N_of_ascii c :: code_points s'
  end.

#[local] Unset Elimination Schemes.

(** An element of a story file: its tag, its [text] and its children. *)
Inductive StoryElement : Type :=
| StoryElem (tag : string) (text : option Text) (children : list StoryElement).

#[local] Set Elimination Schemes.

(** [root.iter()]: the element itself and its descendants, in document
    order. *)
Fixpoint story_iter (e : StoryElement) : list StoryElement :=
  match e with
  | StoryElem _ _ cs => e :: flat_map story_iter cs
  end.

Definition newline_char : N := 10%N.

Definition newline : Text := [newline_char].

Definition is_newline (c : N) : bool := N.eqb c newline_char.

(** The whitespace of a [str]: the code points for which [str.isspace()]
    holds.  It is the class [\s] of a [str] pattern and what [strip()]
    strips. *)
Definition is_unicode_space (c : N) : bool :=
  ((9 <=? c) && (c <=? 13) || (28 <=? c) && (c <=? 32) ||
   (c =? 133) || (c =? 160) || (c =? 5760) ||
   (8192 <=? c) && (c <=? 8202) ||
   (c =? 8232) || (c =? 8233) || (c =? 8239) || (c =? 8287) || (c =? 12288))%N.

(** Truth value of [element.text]: [None] and the empty string are
    false. *)
Definition text_truthy (t : option Text) : bool :=
  match t with
  | Some (_ :: _) => true
  | _ => false
  end.

(** The loop of lines 105-108. *)
Definition text_content_segments (root : StoryElement) : list Text :=
  flat_map
    (fun element =>
       match element with
       | StoryElem tag_name text _ =>
           if String.eqb tag_name "Content" && text_truthy text then [default [] text]
           else if String.eqb tag_name "Br" then [newline]
           else []
       end)
    (story_iter root).

(** The patterns of line 110 are sequences of single characters of a class
    and of greedy stars of a class. *)
Inductive ReAtom : Type :=
| ReOne (p : N -> bool)
| ReMany (p : N -> bool).

Definition RePattern : Type := list ReAtom.

(** A greedy star in front of the rest [k] of a pattern: as many
    characters of the class as there are, and one fewer each time the rest
    does not match. *)
Fixpoint greedy (p : N -> bool) (k : Text -> option Text) (s : Text) : option Text :=
  match s with
  | c :: s' =>
      if p c
      then match greedy p k s' with
           | Some rest => Some rest
           | None => k s
           end
      else k s
  | [] => k s
  end.

(** A match of the pattern at the start of [s]: what is left behind it. *)
Fixpoint re_match (pat : RePattern) (s : Text) : option Text :=
  match pat with
  | [] => Some s
  | ReOne p :: pat' =>
      match s with
      | c :: s' => if p c then re_match pat' s' else None
      | [] => None
      end
  | ReMany p :: pat' => greedy p (re_match pat') s
  end.

(** [re.sub(pat, repl, s)], scanning from the left; [skip] counts the
    characters of a match that are still to be passed over.  An empty match
    puts the replacement in front of the character, which is copied; with
    greedy stars of classes only, no longer match starts where the empty one
    was found. *)
Fixpoint re_sub_from (pat : RePattern) (repl : Text) (skip : nat) (s : Text) : Text :=
  match skip, s with
  | S n, _ :: s' => re_sub_from pat repl n s'
  | S _, [] => []
  | O, _ =>
      match re_match pat s with
      | Some rest =>
          repl ++
            match (length s - length rest)%nat, s with
            | S n, _ :: s' => re_sub_from pat repl n s'
            | O, c :: s' => c :: re_sub_from pat repl 0 s'
            | _, [] => []
            end
      | None =>
          match s with
          | c :: s' => c :: re_sub_from pat repl 0 s'
          | [] => []
          end
      end
  end.

Definition re_sub (pat : RePattern) (repl : Text) (s : Text) : Text :=
  re_sub_from pat repl 0 s.

(** [\s*\n\s*] *)
Definition space_newline_space : RePattern :=
  [ReMany is_unicode_space; ReOne is_newline; ReMany is_unicode_space].

(** [\n{2,}] *)
Definition newlines : RePattern :=
  [ReOne is_newline; ReOne is_newline; ReMany is_newline].

(** The text behind the leading characters of a class. *)
Fixpoint drop_class (p : N -> bool) (s : Text) : Text :=
  match s with
  | c :: s' => if p c then drop_class p s' else s
  | [] => []
  end.

Definition py_lstrip (s : Text) : Text := drop_class is_unicode_space s.

Fixpoint py_rstrip (s : Text) : Text :=
  match s with
  | [] => []
  | c :: s' =>
      match py_rstrip s' with
      | [] => if is_unicode_space c then [] else [c]
      | r => c :: r
      end
  end.

(** [s.strip()] *)
Definition py_strip (s : Text) : Text := py_rstrip (py_lstrip s).

(** Line 110. *)
Definition normalize_story_text (full_text : Text) : Text :=
  py_strip (re_sub newlines newline (re_sub space_newline_space newline full_text)).

(** [get_story_text] on the parsed file; [None] when parsing raises
    (lines 113-114). *)
Definition get_story_text (parsed : option StoryElement) : Text :=
  match parsed with
  | Some root => normalize_story_text (List.concat (text_content_segments root))
  | None => []
  end.

(** Vocabulary for texts. *)
Definition first_char (s : Text) : option N :=
  match s with
  | c :: _ => Some c
  | [] => None
  end.

(** The whitespace at the start of [s] holds a newline. *)
Fixpoint run_has_newline (s : Text) : bool :=
  match s with
  | c :: s' => if is_unicode_space c then is_newline c || run_has_newline s' else false
  | [] => false
  end.

Definition tight_pair (a b : N) : bool :=
  negb (is_newline a && is_unicode_space b) && negb (is_unicode_space a && is_newline b).

(** No newline stands next to a whitespace character. *)
Fixpoint lines_tight (s : Text) : bool :=
  match s with
  | a :: s' =>
      match first_char s' with
      | Some b => tight_pair a b
      | None => true
      end && lines_tight s'
  | [] => true
  end.

(** A text in the form that [get_story_text] returns: no newline next to
    whitespace, and no whitespace at either end. *)
Definition tidy_text (s : Text) : Prop :=
  lines_tight s = true /\ py_lstrip s = s /\ py_rstrip s = s.

(** Read through [decode], every file of the [Stories] directory holds
    what [get_story_text] makes of some parsed file. *)
Definition stories_from_get_story_text (decode : string -> Text) : Prop :=
  forall file text, stories_dir !! file = Some text ->
                    exists parsed, decode text = get_story_text parsed.

(** *** Further example documents *)

(** A text container whose outline is given by three anchors. *)
Definition path_frame : Element :=
  Elem "TextFrame" [("Self", "tf9"); ("GeometricBounds", "0 0 1 1")]
    [Elem "Properties" []
       [Elem "PathGeometry" []
          [Elem "GeometryPathType" []
             [Elem "PathPointArray" []
                [Elem "PathPointType" [("Anchor", "10 20")] [];
                 Elem "PathPointType" [("Anchor", "30 5")] [];
                 Elem "PathPointType" [("Anchor", "oops")] [];
                 Elem "PathPointType" [("Anchor", "15 40")] []]]]]].

(** A spread file as the package writes it: the sheet is the child of a
    wrapper of the same local name. *)
Definition wrapped_file : Element := Elem "Spread" [] [twin_sheet].

(** Two pages side by side. *)
Definition left_page_info : PageGeometricInfo :=
  mkPageGeometricInfo "pL" "2" (0, 0, 800, 600) identity_matrix (mkAABB 0 0 600 800).

Definition right_page_info : PageGeometricInfo :=
  mkPageGeometricInfo "pR" "3" (0, 0, 800, 600) (1, 0, 0, 1, 600, 0) (mkAABB 600 0 1200 800).

(** A walk state in which page [p1] holds nothing yet. *)
Definition fresh_state : WalkState := mkWalkState [("p1", mkPageData "1" [] [])] ∅ [].

(** Story files whose texts are the two stories of [twin_stories]. *)
Definition hello_story : StoryElement :=
  StoryElem "Story" None
    [StoryElem "ParagraphStyleRange" None
       [StoryElem "Content" (Some (code_points " Hello")) []; StoryElem "Br" None []]].

Definition world_story : StoryElement :=
  StoryElem "Story" None [StoryElem "Content" (Some (code_points "World")) []].

(** A story with ideographic spaces (U+3000) around its two lines, and a
    no-break space (U+00A0) and an em space (U+2003) around the line
    break. *)
Definition spaced_story : StoryElement :=
  StoryElem "Story" None
    [StoryElem "Content" (Some (12288%N :: code_points "Hello" ++ [160%N])) [];
     StoryElem "Br" None [];
     StoryElem "Content" (Some (8195%N :: code_points "World" ++ [12288%N])) []].

(** *** The walk under a bounded call stack *)


(** [process_spread_element_recursively] under an interpreter whose call
    stack holds the calls up to nesting depth [recursion_room] with
    everything they call.  Up to that depth the function is the one above;
    [None] stands for a call below that depth, where the stack gives out
    (Python's [RecursionError], which lines 131-202 do not guard against). *)
Fixpoint process_spread_element_recursively_within (recursion_room : nat)
  (element : Element) (parent_element : option Element)
  (current_accumulated_matrix : Matrix) (geometric_pages : list PageGeometricInfo)
  (depth : nat) (st : WalkState) {struct element} : option WalkState :=
  if (recursion_room <? depth)%nat then None
  else
    let '(st2, item_global_matrix) :=
      process_element element parent_element current_accumulated_matrix
        geometric_pages depth st in
    match element with
    | Elem element_tag_local _ cs =>
        if recursable element_tag_local
        then fold_left
               (fun s child =>
                  match s with
                  | Some s' =>
                      process_spread_element_recursively_within recursion_room child
                        (Some element) item_global_matrix geometric_pages (S depth) s'
                  | None => None
                  end)
               cs (Some st2)
        else Some st2
    end.

(** A sheet that is shifted, with one shifted page and a text container
    on it. *)
Definition shifted_frame : Element :=
  Elem "TextFrame"
    [("Self", "tf1"); ("ParentStory", "u1"); ("GeometricBounds", "10 20 110 220");
     ("ItemTransform", "1 0 0 1 100 50")] [].

Definition shifted_sheet : Element :=
  Elem "Spread" [("Self", "s1"); ("ItemTransform", "1 0 0 1 10 0")]
    [offset_page; shifted_frame].

(** ** Proof tools *)

Ltac unfold_geometry :=
  unfold matrix_eq, point_eq, multiply_matrices, apply_transform_to_point,
    identity_matrix, fst, snd.

Ltac destruct_matrix M :=
  let a := fresh "a" in let b := fresh "b" in let c := fresh "c" in
  let d := fresh "d" in let tx := fresh "tx" in let ty := fresh "ty" in
  destruct M as [[[[[a b] c] d] tx] ty].

Lemma Qlt_bool_true (x y : Q) : Qlt_bool x y = true <-> x < y.
Proof.
  unfold Qlt_bool. rewrite negb_true_iff. split; intros H.
  - apply Qnot_le_lt. intros Hle. apply Qle_bool_iff in Hle. congruence.
  - destruct (Qle_bool y x) eqn:E; [|reflexivity].
    apply Qle_bool_iff in E. exfalso. apply (Qlt_not_le _ _ H E).
Qed.

Lemma is_point_in_rect_spec (px py ry1 rx1 ry2 rx2 : Q) :
  is_point_in_rect px py ry1 rx1 ry2 rx2 = true <->
  (rx1 <= px /\ px <= rx2) /\ (ry1 <= py /\ py <= ry2).
Proof.
  unfold is_point_in_rect. rewrite !andb_true_iff, !Qle_bool_iff. tauto.
Qed.

Lemma page_contains_spec (pg : PageGeometricInfo) (px py : Q) :
  is_point_in_rect px py (y1 (global_aabb pg)) (x1 (global_aabb pg))
    (y2 (global_aabb pg)) (x2 (global_aabb pg)) = true <->
  aabb_contains (global_aabb pg) px py.
Proof. apply is_point_in_rect_spec. Qed.

(** ** Transform *)

Lemma multiply_identity_l (M : Matrix) : matrix_eq (multiply_matrices identity_matrix M) M.
Proof. destruct_matrix M. unfold_geometry. repeat split; ring. Qed.

Lemma multiply_identity_r (M : Matrix) : matrix_eq (multiply_matrices M identity_matrix) M.
Proof. destruct_matrix M. unfold_geometry. repeat split; ring. Qed.

Lemma apply_multiply (A B : Matrix) (x y : Q) :
  point_eq (apply_transform_to_point x y (multiply_matrices A B))
           (apply_transform_to_point
              (fst (apply_transform_to_point x y B))
              (snd (apply_transform_to_point x y B)) A).
Proof. destruct_matrix A. destruct_matrix B. unfold_geometry. split; ring. Qed.

Lemma multiply_assoc (A B C : Matrix) :
  matrix_eq (multiply_matrices (multiply_matrices A B) C)
            (multiply_matrices A (multiply_matrices B C)).
Proof.
  destruct_matrix A. destruct_matrix B. destruct_matrix C. unfold_geometry.
  repeat split; ring.
Qed.

(** Composition is not commutative: a translation and a scaling. *)
Lemma multiply_not_commutative :
  ~ matrix_eq (multiply_matrices (1, 0, 0, 1, 10, 0) (2, 0, 0, 2, 0, 0))
              (multiply_matrices (2, 0, 0, 2, 0, 0) (1, 0, 0, 1, 10, 0)).
Proof.
  unfold_geometry. intros (_ & _ & _ & _ & H & _). vm_compute in H. discriminate.
Qed.

(** In exact arithmetic the identity transform is neutral for composition
    on both sides, and applying a composed transform to a point is applying
    the child's transform first and the parent's to the result. *)
Theorem compose_identity_and_apply (M A B : Matrix) (x y : Q) :
  matrix_eq (multiply_matrices identity_matrix M) M /\
  matrix_eq M (multiply_matrices M identity_matrix) /\
  point_eq (apply_transform_to_point x y (multiply_matrices A B))
           (apply_transform_to_point
              (fst (apply_transform_to_point x y B))
              (snd (apply_transform_to_point x y B)) A).
Proof.
  split; [apply multiply_identity_l|]. split.
  - destruct_matrix M. unfold_geometry. repeat split; ring.
  - destruct_matrix A. destruct_matrix B. unfold_geometry. split; ring.
Qed.

(** ** ContainmentAssigner *)

Lemma find_page_some (px py : Q) (pages : list PageGeometricInfo) (pid : string) :
  find_page_for_item_center px py pages = Some pid <->
  exists before pg after,
    pages = before ++ pg :: after /\ pid = pg_id pg /\
    aabb_contains (global_aabb pg) px py /\
    Forall (fun q => ~ aabb_contains (global_aabb q) px py) before.
Proof.
  induction pages as [|q pages IH]; cbn.
  - split; [discriminate|]. intros (before & pg & after & H & _). destruct before; discriminate.
  - destruct (is_point_in_rect _ _ _ _ _ _) eqn:E.
    + apply page_contains_spec in E. split.
      * intros [= <-]. exists [], q, pages. repeat split; auto; apply E.
      * intros (before & pg & after & H & -> & Hin & Hbefore).
        destruct before as [|b before]; cbn in H; injection H as -> ->; [reflexivity|].
        inversion Hbefore; subst. contradiction.
    + assert (Hn : ~ aabb_contains (global_aabb q) px py).
      { intros H. apply page_contains_spec in H. congruence. }
      rewrite IH. split.
      * intros (before & pg & after & -> & -> & Hin & Hbefore).
        exists (q :: before), pg, after. repeat split; auto; apply Hin.
      * intros (before & pg & after & H & -> & Hin & Hbefore).
        destruct before as [|b before]; cbn in H; injection H as -> ->; [contradiction|].
        inversion Hbefore; subst. exists before, pg, after. repeat split; auto; apply Hin.
Qed.

Lemma find_page_none (px py : Q) (pages : list PageGeometricInfo) :
  find_page_for_item_center px py pages = None <->
  Forall (fun q => ~ aabb_contains (global_aabb q) px py) pages.
Proof.
  induction pages as [|q pages IH]; cbn.
  - split; auto.
  - destruct (is_point_in_rect _ _ _ _ _ _) eqn:E.
    + apply page_contains_spec in E. split; [discriminate|].
      intros H. inversion H; subst. contradiction.
    + rewrite IH. split.
      * intros H. constructor; auto. intros Hc. apply page_contains_spec in Hc. congruence.
      * intros H. inversion H; auto.
Qed.

(** C2. The owner of a point is the id of the first page, in the order of
    the page list, whose box contains the point, bounds included on both
    axes; it is none exactly when no page's box contains the point.  The
    pages before the winner are those that do not contain the point, so an
    earlier containing page always wins. *)
Theorem find_owner_first_match (px py : Q) (pages : list PageGeometricInfo) :
  (forall pid,
     find_page_for_item_center px py pages = Some pid <->
     exists before pg after,
       pages = before ++ pg :: after /\ pid = pg_id pg /\
       ((x1 (global_aabb pg) <= px /\ px <= x2 (global_aabb pg)) /\
        (y1 (global_aabb pg) <= py /\ py <= y2 (global_aabb pg))) /\
       Forall (fun q => ~ aabb_contains (global_aabb q) px py) before) /\
  (find_page_for_item_center px py pages = None <->
   Forall (fun q => ~ aabb_contains (global_aabb q) px py) pages).
Proof.
  split.
  - intros pid. apply find_page_some.
  - apply find_page_none.
Qed.

(** A page that is in the index and has its entry in the contents: the
    owner of a point always has an entry. *)
Lemma assigned_page_has_entry (px py : Q) (pages : list PageGeometricInfo)
  (m : Dict PageData) (pid : string) :
  (forall k, In k (List.map pg_id pages) -> exists pd, dict_get k m = Some pd) ->
  find_page_for_item_center px py pages = Some pid ->
  exists pd, dict_get pid m = Some pd.
Proof.
  intros Hentries H. apply Hentries.
  apply find_page_some in H as (before & pg & after & -> & -> & _).
  rewrite map_app. apply in_or_app. right. left. reflexivity.
Qed.

(** The owner is one of the pages that were searched. *)
Lemma assigned_page_is_indexed (px py : Q) (pages : list PageGeometricInfo) (pid : string) :
  find_page_for_item_center px py pages = Some pid -> In pid (List.map pg_id pages).
Proof.
  intros H. apply find_page_some in H as (before & pg & after & -> & -> & _).
  rewrite map_app. apply in_or_app. right. left. reflexivity.
Qed.

(** A point on the left edge of the first page is owned by it, even if a
    later page contains it as well. *)
Lemma find_page_edge (pg : PageGeometricInfo) (rest : list PageGeometricInfo) (py : Q) :
  x1 (global_aabb pg) <= x2 (global_aabb pg) ->
  y1 (global_aabb pg) <= py <= y2 (global_aabb pg) ->
  find_page_for_item_center (x1 (global_aabb pg)) py (pg :: rest) = Some (pg_id pg).
Proof.
  intros Hx Hy. apply find_page_some. exists [], pg, rest.
  repeat split; auto; try apply Hy. apply Qle_refl.
Qed.

(** ** BoundsResolver *)

Lemma resolve_local_bounds_fst (indent : nat) (element : Element) :
  fst (resolve_local_bounds indent element) = determined_local_bounds element.
Proof.
  unfold determined_local_bounds, resolve_local_bounds.
  destruct (String.eqb (tag_of element) "Image").
  - destruct (find_path _ _ element) as [gb|]; [destruct (graphic_bounds gb)|];
      repeat match goal with |- context [if ?c then _ else _] => destruct c end; reflexivity.
  - destruct (String.eqb (tag_of element) "TextFrame"); [|reflexivity].
    destruct (get_local_bounds_from_path_geometry element); [reflexivity|].
    destruct (py_truthy _); reflexivity.
Qed.






(** ** The reported box and the tested point *)

Lemma bounds_is_zero_spec (b : LocalBounds) :
  bounds_is_zero b = true <->
  let '(by1, bx1, by2, bx2) := b in by1 == 0 /\ bx1 == 0 /\ by2 == 0 /\ bx2 == 0.
Proof.
  destruct b as [[[by1 bx1] by2] bx2]. unfold bounds_is_zero.
  rewrite !andb_true_iff, !Qeq_bool_iff. tauto.
Qed.

(** The translation component is where the transform sends the local
    origin. *)
Lemma translation_is_image_of_origin (M : Matrix) :
  point_eq (apply_transform_to_point 0 0 M) (matrix_tx M, matrix_ty M).
Proof. destruct_matrix M. unfold_geometry. cbn [matrix_tx matrix_ty]. split; ring. Qed.

(** What [process_element] does is computed from [element_geometry]. *)
Lemma process_element_uses_geometry (element : Element) (parent_element : option Element)
  (M : Matrix) (pages : list PageGeometricInfo) (depth : nat) (st : WalkState) :
  let indent := (depth + 1)%nat in
  let box := fst (element_geometry element M) in
  let center := snd (element_geometry element M) in
  let assigned := find_page_for_item_center (fst center) (snd center) pages in
  let st1 :=
    emit (snd (resolve_local_bounds indent element))
      (emit [EvProcessing indent (tag_of element) (get_default element "Self" "UnknownID")] st) in
  fst (process_element element parent_element M pages depth st) =
  if String.eqb (tag_of element) "TextFrame"
  then process_text_frame indent element assigned box st1
  else if String.eqb (tag_of element) "Image"
       then process_image element parent_element assigned box st1
       else st1.
Proof.
  cbv zeta. unfold process_element, element_geometry.
  rewrite <- (resolve_local_bounds_fst (depth + 1) element).
  destruct (resolve_local_bounds (depth + 1) element) as [b out]. cbn [fst snd].
  destruct (item_geometry b _) as [box [cx cy]]. cbn [fst snd]. reflexivity.
Qed.


(** *** The box encloses the corners it is computed from *)

Lemma py_min_le (l : list Q) :
  forall best, py_min best l <= best /\ Forall (fun x => py_min best l <= x) l.
Proof.
  induction l as [|x l IH]; intros best; cbn [py_min].
  - split; [apply Qle_refl|constructor].
  - destruct (Qlt_bool x best) eqn:E.
    + apply Qlt_bool_true in E. destruct (IH x) as [H1 H2]. split; [lra|].
      constructor; [exact H1|exact H2].
    + assert (Hle : best <= x).
      { unfold Qlt_bool in E. apply negb_false_iff, Qle_bool_iff in E. exact E. }
      destruct (IH best) as [H1 H2]. split; [exact H1|].
      constructor; [lra|exact H2].
Qed.

Lemma py_max_ge (l : list Q) :
  forall best, best <= py_max best l /\ Forall (fun x => x <= py_max best l) l.
Proof.
  induction l as [|x l IH]; intros best; cbn [py_max].
  - split; [apply Qle_refl|constructor].
  - destruct (Qlt_bool best x) eqn:E.
    + apply Qlt_bool_true in E. destruct (IH x) as [H1 H2]. split; [lra|].
      constructor; [exact H1|exact H2].
    + assert (Hle : x <= best).
      { unfold Qlt_bool in E. apply negb_false_iff, Qle_bool_iff in E. exact E. }
      destruct (IH best) as [H1 H2]. split; [exact H1|].
      constructor; [lra|exact H2].
Qed.

Lemma py_min_ge (lb : Q) (l : list Q) :
  forall best, lb <= best -> Forall (fun x => lb <= x) l -> lb <= py_min best l.
Proof.
  induction l as [|x l IH]; intros best Hb Hl; cbn [py_min]; [exact Hb|].
  inversion Hl; subst. destruct (Qlt_bool x best); apply IH; assumption.
Qed.

Lemma py_max_le (ub : Q) (l : list Q) :
  forall best, best <= ub -> Forall (fun x => x <= ub) l -> py_max best l <= ub.
Proof.
  induction l as [|x l IH]; intros best Hb Hl; cbn [py_max]; [exact Hb|].
  inversion Hl; subst. destruct (Qlt_bool best x); apply IH; assumption.
Qed.

Lemma box_encloses_points (corners : list Point) :
  Forall (fun p => aabb_contains (get_axis_aligned_bounding_box corners) (fst p) (snd p))
    corners.
Proof.
  destruct corners as [|p ps]; [constructor|].
  cbn [get_axis_aligned_bounding_box]. unfold aabb_contains. cbn [x1 y1 x2 y2].
  destruct (py_min_le (List.map fst ps) (fst p)) as [Hx1 Hx1s].
  destruct (py_min_le (List.map snd ps) (snd p)) as [Hy1 Hy1s].
  destruct (py_max_ge (List.map fst ps) (fst p)) as [Hx2 Hx2s].
  destruct (py_max_ge (List.map snd ps) (snd p)) as [Hy2 Hy2s].
  constructor; [repeat split; assumption|].
  rewrite List.Forall_forall in *. intros q Hq.
  repeat split;
    [apply Hx1s|apply Hx2s|apply Hy1s|apply Hy2s]; apply in_map; exact Hq.
Qed.

(** The box of a page contains the image of every corner of the page's
    local rectangle under the page's transform followed by the sheet's. *)
Lemma page_box_encloses_corners (sheet_base : Matrix) (page_el : Element) :
  let '(by1, bx1, by2, bx2) := parse_geometric_bounds (get page_el "GeometricBounds") in
  let local := parse_transform_matrix (get page_el "ItemTransform") in
  forall cx cy,
    In (cx, cy) [(bx1, by1); (bx2, by1); (bx1, by2); (bx2, by2)] ->
    exists gx gy,
      point_eq (gx, gy)
        (apply_transform_to_point (fst (apply_transform_to_point cx cy local))
           (snd (apply_transform_to_point cx cy local)) sheet_base) /\
      aabb_contains (page_box sheet_base page_el) gx gy.
Proof.
  unfold page_box.
  destruct (parse_geometric_bounds (get page_el "GeometricBounds")) as [[[by1 bx1] by2] bx2].
  intros cx cy Hin.
  set (G := multiply_matrices sheet_base
              (parse_transform_matrix (get page_el "ItemTransform"))).
  exists (fst (apply_transform_to_point cx cy G)), (snd (apply_transform_to_point cx cy G)).
  split.
  - subst G. unfold point_eq. cbn [fst snd]. apply (apply_multiply sheet_base _ cx cy).
  - pose proof (box_encloses_points (get_global_corners (by1, bx1, by2, bx2) G)) as Hall.
    rewrite List.Forall_forall in Hall. apply Hall. cbn [get_global_corners].
    cbn [In] in Hin |- *.
    destruct Hin as [[= <- <-]|[[= <- <-]|[[= <- <-]|[[= <- <-]|[]]]]]; auto.
Qed.

(** An all-zero rectangle collapses to the point the transform sends the
    origin to. *)
Lemma zero_rectangle_box (M : Matrix) :
  aabb_eq (get_axis_aligned_bounding_box (get_global_corners zero_bounds M))
          (mkAABB (matrix_tx M) (matrix_ty M) (matrix_tx M) (matrix_ty M)).
Proof.
  destruct_matrix M. unfold aabb_eq.
  cbn [get_global_corners zero_bounds get_axis_aligned_bounding_box List.map fst snd
       x1 y1 x2 y2 matrix_tx matrix_ty].
  unfold apply_transform_to_point. cbn [fst snd].
  set (vx := a * 0 + c * 0 + tx). set (vy := b * 0 + d * 0 + ty).
  assert (Hvx : vx == tx) by (unfold vx; ring).
  assert (Hvy : vy == ty) by (unfold vy; ring).
  assert (Hxs : Forall (fun x => vx <= x) [vx; vx; vx] /\ Forall (fun x => x <= vx) [vx; vx; vx])
    by (split; repeat constructor; apply Qle_refl).
  assert (Hys : Forall (fun y => vy <= y) [vy; vy; vy] /\ Forall (fun y => y <= vy) [vy; vy; vy])
    by (split; repeat constructor; apply Qle_refl).
  pose proof (proj1 (py_min_le [vx; vx; vx] vx)) as H1.
  pose proof (py_min_ge vx [vx; vx; vx] vx (Qle_refl _) (proj1 Hxs)) as H2.
  pose proof (proj1 (py_max_ge [vx; vx; vx] vx)) as H3.
  pose proof (py_max_le vx [vx; vx; vx] vx (Qle_refl _) (proj2 Hxs)) as H4.
  pose proof (proj1 (py_min_le [vy; vy; vy] vy)) as H5.
  pose proof (py_min_ge vy [vy; vy; vy] vy (Qle_refl _) (proj1 Hys)) as H6.
  pose proof (proj1 (py_max_ge [vy; vy; vy] vy)) as H7.
  pose proof (py_max_le vy [vy; vy; vy] vy (Qle_refl _) (proj2 Hys)) as H8.
  repeat split; lra.
Qed.

(** In [extract_box.py] a Group without bounds takes part with the
    collapsed box, whose midpoint is again the translation. *)
Lemma ExtractBox_group_without_bounds (M : Matrix) :
  aabb_eq (fst (ExtractBox_item_geometry "Group" zero_bounds M))
          (mkAABB (matrix_tx M) (matrix_ty M) (matrix_tx M) (matrix_ty M)) /\
  point_eq (snd (ExtractBox_item_geometry "Group" zero_bounds M))
           (matrix_tx M, matrix_ty M).
Proof.
  unfold ExtractBox_item_geometry. change (String.eqb "Group" "Group") with true.
  rewrite orb_true_r. cbn [fst snd].
  pose proof (zero_rectangle_box M) as Hbox. split; [exact Hbox|].
  destruct Hbox as (Hx1 & Hy1 & Hx2 & Hy2). cbn [x1 y1 x2 y2] in *.
  unfold point_eq, get_item_center. cbn [fst snd].
  rewrite Hx1, Hx2, Hy1, Hy2. split; field.
Qed.

(** ** PageIndex *)

Lemma page_init_box (self_id name : string) (page_el : Element) (sheet_base : Matrix) :
  global_aabb
    (PageGeometricInfo_init self_id name (get page_el "ItemTransform")
       (get page_el "GeometricBounds") sheet_base)
  = page_box sheet_base page_el.
Proof. reflexivity. Qed.

Lemma build_pages_index (sheet_base : Matrix) (page_els : list Element) :
  forall (content : Dict PageData) (pages : list PageGeometricInfo),
  exists added,
    snd (build_pages sheet_base page_els content pages) = pages ++ added /\
    Forall2
      (fun page_el page_info =>
         get page_el "Self" = Some (pg_id page_info) /\
         global_aabb page_info = page_box sheet_base page_el)
      (List.filter identified page_els) added.
Proof.
  induction page_els as [|page_el rest IH]; intros content pages.
  - exists []. cbn. rewrite app_nil_r. auto.
  - cbn [build_pages List.filter]. unfold identified at 1.
    destruct (get page_el "Self") as [pid|] eqn:Hself.
    + destruct (py_truthy (Some pid)) eqn:Ht.
      * match goal with
        | |- context [build_pages _ rest ?c (pages ++ [?pi])] =>
            destruct (IH c (pages ++ [pi])) as (added & Heq & Hall); exists (pi :: added)
        end.
        rewrite Heq, <- app_assoc. split; [reflexivity|].
        constructor; [|exact Hall]. split; [exact Hself|]. apply page_init_box.
      * apply IH.
    + cbn [py_truthy]. apply IH.
Qed.

(** C1. Every page that the page index of a sheet holds comes from a page
    element of that sheet, in document order, and its global box is the
    page's own local bounds taken through the product of the sheet's base
    transform and the page's local transform, in that order. *)
Theorem page_box_composes_sheet_base (spread_element : Element)
  (cache cache' : gmap string string) (out out' : list Event)
  (content : Dict PageData) (geometric_pages : list PageGeometricInfo) :
  get_page_content_from_spread spread_element cache out
    = (SpreadContent content geometric_pages, cache', out') ->
  Forall2
    (fun page_el page_info =>
       get page_el "Self" = Some (pg_id page_info) /\
       global_aabb page_info =
         get_axis_aligned_bounding_box
           (get_global_corners
              (parse_geometric_bounds (get page_el "GeometricBounds"))
              (multiply_matrices
                 (parse_transform_matrix (get spread_element "ItemTransform"))
                 (parse_transform_matrix (get page_el "ItemTransform")))))
    (List.filter identified (descendants_tagged "Page" spread_element))
    geometric_pages.
Proof.
  unfold get_page_content_from_spread.
  destruct (build_pages_index
              (parse_transform_matrix (get spread_element "ItemTransform"))
              (descendants_tagged "Page" spread_element) [] []) as (added & Heq & Hall).
  destruct (build_pages _ _ [] []) as [c pages]. cbn [snd app] in Heq. subst added.
  destruct pages as [|pg pages]; [discriminate|].
  intros [= _ <- _ _]. exact Hall.
Qed.

(** The variant of [extract_box.py] leaves the sheet's base transform out:
    its page box is the one of a sheet with the identity transform. *)
Lemma ExtractBox_page_box_without_sheet_base (self_id name : string) (page_el : Element) :
  global_aabb
    (ExtractBox_PageGeometricInfo_init self_id name (get page_el "ItemTransform")
       (get page_el "GeometricBounds"))
  = get_axis_aligned_bounding_box
      (get_global_corners (parse_geometric_bounds (get page_el "GeometricBounds"))
         (parse_transform_matrix (get page_el "ItemTransform"))).
Proof. reflexivity. Qed.

(** ** SpreadWalker: the descent *)

Lemma Element_ind (P : Element -> Prop) :
  (forall t a cs, Forall P cs -> P (Elem t a cs)) -> forall e, P e.
Proof.
  intros H. fix IH 1. intros [t a cs]. apply H.
  induction cs as [|c cs IHcs]; constructor; [apply IH | exact IHcs].
Qed.












Lemma stdout_image (element : Element) (parent_element : option Element)
  (assigned : option string) (box : AABB) (st : WalkState) :
  stdout (process_image element parent_element assigned box st) = stdout st.
Proof.
  unfold process_image.
  repeat match goal with
         | |- context [match ?x with _ => _ end] => destruct x
         end; reflexivity.
Qed.








(** ** SpreadWalker: text containers *)

Lemma py_truthy_some (s : string) : py_truthy (Some s) = true <-> s <> "".
Proof. destruct s; cbn; split; congruence. Qed.

Lemma py_truthy_some_false (s : string) : py_truthy (Some s) = false <-> s = "".
Proof. destruct s; cbn; split; congruence. Qed.

Lemma resolve_story_content (indent : nat) (element_id story : string) (st : WalkState) :
  pages_content_map (resolve_story indent element_id story st) = pages_content_map st.
Proof.
  unfold resolve_story. destruct (story_cache st !! story); [reflexivity|].
  destruct (stories_dir !! _); reflexivity.
Qed.

Lemma resolve_story_cache (indent : nat) (element_id story : string) (st : WalkState) :
  story_cache (resolve_story indent element_id story st) !! story
  = Some (resolved_text story (story_cache st)).
Proof.
  unfold resolve_story, resolved_text.
  destruct (story_cache st !! story) eqn:E; [exact E|].
  destruct (stories_dir !! _); cbn [story_cache]; apply lookup_insert_eq.
Qed.

(** What a text container does to the page contents, by cases. *)
Lemma process_text_frame_content (indent : nat) (element : Element)
  (assigned : option string) (box : AABB) (st : WalkState) :
  let element_id := get_default element "Self" "UnknownID" in
  pages_content_map (process_text_frame indent element assigned box st) =
  match assigned, get element "ParentStory" with
  | Some pid, Some story =>
      match dict_get pid (pages_content_map st) with
      | Some pd =>
          if py_truthy (Some pid) && py_truthy (Some story)
             && negb (frame_recorded element_id pd)
             && py_truthy (Some (resolved_text story (story_cache st)))
          then dict_set pid
                 (mkPageData (name pd) (images pd)
                    (texts pd ++ [mkTextItem story element_id
                                    (resolved_text story (story_cache st)) box
                                    (get element "ItemTransform")]))
                 (pages_content_map st)
          else pages_content_map st
      | None => pages_content_map st
      end
  | _, _ => pages_content_map st
  end.
Proof.
  cbv zeta. unfold process_text_frame, frame_recorded.
  destruct assigned as [pid|]; destruct (get element "ParentStory") as [story|].
  - destruct (py_truthy (Some pid)); cbn [andb].
    + destruct (py_truthy (Some story)); cbn [andb].
      * rewrite resolve_story_cache, resolve_story_content.
        cbn [default from_option]. unfold id.
        destruct (dict_get pid (pages_content_map st)) as [pd|];
          [|apply resolve_story_content].
        destruct (negb _); cbn [andb]; [|apply resolve_story_content].
        destruct (py_truthy (Some (resolved_text _ _))); cbn [emit pages_content_map];
          [reflexivity|]. apply resolve_story_content.
      * destruct (dict_get pid _); reflexivity.
    + destruct (py_truthy (Some story)); destruct (dict_get pid _); reflexivity.
  - rewrite andb_false_r. reflexivity.
  - change (py_truthy None) with false. cbn [andb].
    destruct (py_truthy (Some story)); reflexivity.
  - reflexivity.
Qed.

(** C6, as the code has it. A text container adds a Text item to a page's
    list exactly when a page was assigned to its centre, it references a
    story, the story resolves to a non-empty text, and no item with the
    same element id is in that page's list yet, whatever story that item
    belongs to; the item goes last and carries the story id, the element id,
    the text, the reported box and the transform attribute.  In every other
    case the page contents stay as they are.  When the story has not been
    resolved before and its file does not exist, the empty text is cached
    and nothing is added. *)
Theorem text_item_appended_iff (indent : nat) (element : Element)
  (assigned : option string) (box : AABB) (st : WalkState) :
  let element_id := get_default element "Self" "UnknownID" in
  let st' := process_text_frame indent element assigned box st in
  (forall pid story pd,
     assigned = Some pid -> pid <> "" ->
     get element "ParentStory" = Some story -> story <> "" ->
     dict_get pid (pages_content_map st) = Some pd ->
     resolved_text story (story_cache st) <> "" ->
     frame_recorded element_id pd = false ->
     pages_content_map st' =
       dict_set pid
         (mkPageData (name pd) (images pd)
            (texts pd ++ [mkTextItem story element_id
                            (resolved_text story (story_cache st)) box
                            (get element "ItemTransform")]))
         (pages_content_map st)) /\
  (~ (exists pid story pd,
        assigned = Some pid /\ pid <> "" /\
        get element "ParentStory" = Some story /\ story <> "" /\
        dict_get pid (pages_content_map st) = Some pd /\
        resolved_text story (story_cache st) <> "" /\
        frame_recorded element_id pd = false) ->
   pages_content_map st' = pages_content_map st) /\
  (forall pid story,
     assigned = Some pid -> pid <> "" ->
     get element "ParentStory" = Some story -> story <> "" ->
     story_cache st !! story = None ->
     stories_dir !! String.append "Story_" (String.append story ".xml") = None ->
     story_cache st' !! story = Some "" /\
     pages_content_map st' = pages_content_map st).
Proof.
  cbv zeta. split; [|split].
  - intros pid story pd -> Hpid Hs Hstory Hpd Htext Hrec.
    rewrite process_text_frame_content, Hs, Hpd, Hrec.
    apply py_truthy_some in Hpid, Hstory, Htext. rewrite Hpid, Hstory, Htext. reflexivity.
  - intros Hnot. rewrite process_text_frame_content.
    destruct assigned as [pid|]; [|reflexivity].
    destruct (get element "ParentStory") as [story|] eqn:Hs; [|reflexivity].
    destruct (dict_get pid _) as [pd|] eqn:Hpd; [|reflexivity].
    destruct (py_truthy (Some pid)) eqn:H1; [|reflexivity].
    destruct (py_truthy (Some story)) eqn:H2; [|reflexivity].
    destruct (frame_recorded _ pd) eqn:H3; [reflexivity|].
    destruct (py_truthy (Some (resolved_text _ _))) eqn:H4; [|reflexivity].
    exfalso. apply Hnot. exists pid, story, pd.
    apply py_truthy_some in H1, H2, H4. repeat split; auto.
  - intros pid story -> Hpid Hs Hstory Hcache Hfile. split.
    + unfold process_text_frame. cbv zeta. rewrite Hs.
      apply py_truthy_some in Hpid, Hstory. rewrite Hpid, Hstory. cbn [andb].
      assert (Hc : story_cache (resolve_story indent (get_default element "Self" "UnknownID")
                                  story st) !! story = Some "").
      { rewrite resolve_story_cache. unfold resolved_text. rewrite Hcache, Hfile. reflexivity. }
      rewrite Hc. cbn [default from_option py_truthy].
      destruct (dict_get pid _) as [pd|]; [|exact Hc].
      destruct (negb _); exact Hc.
    + rewrite process_text_frame_content, Hs.
      destruct (dict_get pid _) as [pd|]; [|reflexivity].
      assert (Ht : resolved_text story (story_cache st) = "").
      { unfold resolved_text. rewrite Hcache, Hfile. reflexivity. }
      rewrite Ht. cbn [py_truthy]. rewrite !andb_false_r. reflexivity.
Qed.

(** ** Aggregator *)

Lemma dict_get_set_same {V : Type} (k : string) (v : V) (d : Dict V) :
  dict_get k (dict_set k v d) = Some v.
Proof.
  induction d as [|[k' v'] d IH]; cbn.
  - rewrite String.eqb_refl. reflexivity.
  - destruct (String.eqb k k') eqn:E; cbn; rewrite E; auto.
Qed.

Lemma dict_get_set_other {V : Type} (k k' : string) (v : V) (d : Dict V) :
  k' <> k -> dict_get k' (dict_set k v d) = dict_get k' d.
Proof.
  intros Hne. apply String.eqb_neq in Hne.
  induction d as [|[k0 v0] d IH]; cbn.
  - rewrite Hne. reflexivity.
  - destruct (String.eqb k k0) eqn:E; cbn.
    + apply String.eqb_eq in E. subst k0. rewrite Hne. reflexivity.
    + rewrite IH. reflexivity.
Qed.

Lemma dict_set_unchanged {V : Type} (k : string) (v : V) (d : Dict V) :
  dict_get k d = Some v -> dict_set k v d = d.
Proof.
  induction d as [|[k' v'] d IH]; cbn; [discriminate|].
  destruct (String.eqb k k') eqn:E.
  - intros [= ->]. reflexivity.
  - intros H. rewrite IH; auto.
Qed.

Lemma dict_get_none_keys {V : Type} (k : string) (d : Dict V) :
  ~ In k (dict_keys d) -> dict_get k d = None.
Proof.
  induction d as [|[k' v'] d IH]; cbn; [reflexivity|].
  intros H. destruct (String.eqb k k') eqn:E.
  - apply String.eqb_eq in E. subst. exfalso. apply H. left. reflexivity.
  - apply IH. intros Hin. apply H. right. exact Hin.
Qed.

Lemma same_image_refl (i : ImageItem) : same_image i i = true.
Proof. unfold same_image. rewrite !String.eqb_refl. reflexivity. Qed.

(** What [merge_images] appends: items of the sheet whose key the
    document's list does not hold; afterwards every key of the sheet is
    held. *)
Lemma merge_images_appends (incoming : list ImageItem) :
  forall existing,
  exists added,
    merge_images existing incoming = existing ++ added /\
    (forall i, In i added ->
               In i incoming /\ existsb (fun e => same_image e i) existing = false) /\
    (forall i, In i incoming ->
               existsb (fun e => same_image e i) (existing ++ added) = true).
Proof.
  unfold merge_images.
  induction incoming as [|i incoming IH]; intros existing; cbn [fold_left].
  - exists []. rewrite app_nil_r. split; [reflexivity|]. split; intros j [].
  - destruct (existsb (fun e => same_image e i) existing) eqn:E; cbn [negb].
    + destruct (IH existing) as (added & Heq & Hnew & Hall).
      exists added. split; [exact Heq|]. split.
      * intros j Hj. destruct (Hnew j Hj). split; [right|]; assumption.
      * intros j [<-|Hj]; [|apply Hall, Hj].
        rewrite existsb_app, E. reflexivity.
    + destruct (IH (existing ++ [i])) as (added & Heq & Hnew & Hall).
      exists (i :: added). rewrite Heq, <- app_assoc. split; [reflexivity|]. split.
      * intros j [<-|Hj]; [split; [left; reflexivity|exact E]|].
        destruct (Hnew j Hj) as [Hin Hex]. split; [right; exact Hin|].
        rewrite existsb_app in Hex. apply orb_false_iff in Hex. apply Hex.
      * intros j [<-|Hj].
        -- rewrite existsb_app. cbn. rewrite same_image_refl, orb_true_r. reflexivity.
        -- specialize (Hall j Hj). rewrite <- app_assoc in Hall. exact Hall.
Qed.

Lemma merge_texts_from_appends (incoming : list TextItem) :
  forall (existing : list TextItem) (ids : gset string),
  (forall x, x ∈ ids <-> In x (List.map text_frame_id existing)) ->
  exists added,
    fst (merge_texts_from incoming (existing, ids)) = existing ++ added /\
    (forall t, In t added ->
               In t incoming /\ ~ In (text_frame_id t) (List.map text_frame_id existing)) /\
    (forall t, In t incoming ->
               In (text_frame_id t) (List.map text_frame_id (existing ++ added))).
Proof.
  unfold merge_texts_from.
  induction incoming as [|t incoming IH]; intros existing ids Hids; cbn [fold_left].
  - exists []. rewrite app_nil_r. split; [reflexivity|]. split; intros j [].
  - destruct (bool_decide (text_frame_id t ∈ ids)) eqn:E.
    + apply bool_decide_eq_true in E. apply Hids in E.
      destruct (IH existing ids Hids) as (added & Heq & Hnew & Hall).
      exists added. split; [exact Heq|]. split.
      * intros j Hj. destruct (Hnew j Hj). split; [right|]; assumption.
      * intros j [<-|Hj]; [|apply Hall, Hj].
        rewrite map_app. apply in_or_app. left. exact E.
    + apply bool_decide_eq_false in E.
      assert (Hids' : forall x, x ∈ ({[text_frame_id t]} ∪ ids : gset string) <->
                                In x (List.map text_frame_id (existing ++ [t]))).
      { intros x. rewrite elem_of_union, elem_of_singleton, Hids, map_app, in_app_iff.
        cbn. split.
        - intros [->|H]; [right; left; reflexivity|left; exact H].
        - intros [H|[->|[]]]; [right; exact H|left; reflexivity]. }
      destruct (IH (existing ++ [t]) _ Hids') as (added & Heq & Hnew & Hall).
      exists (t :: added). rewrite Heq, <- app_assoc. split; [reflexivity|]. split.
      * intros j [<-|Hj].
        -- split; [left; reflexivity|]. intros Hin. apply E, Hids, Hin.
        -- destruct (Hnew j Hj) as [Hin Hex]. split; [right; exact Hin|].
           intros Hc. apply Hex. rewrite map_app. apply in_or_app. left. exact Hc.
      * intros j [<-|Hj].
        -- rewrite map_app. apply in_or_app. right. cbn. left. reflexivity.
        -- specialize (Hall j Hj). rewrite <- app_assoc in Hall. exact Hall.
Qed.

Lemma merge_texts_appends (existing incoming : list TextItem) :
  exists added,
    merge_texts existing incoming = existing ++ added /\
    (forall t, In t added ->
               In t incoming /\ ~ In (text_frame_id t) (List.map text_frame_id existing)) /\
    (forall t, In t incoming ->
               In (text_frame_id t) (List.map text_frame_id (existing ++ added))).
Proof.
  unfold merge_texts. apply merge_texts_from_appends.
  intros x. rewrite elem_of_list_to_set. apply list_elem_of_In.
Qed.

(** Nothing is appended when every key is held already. *)
Lemma merge_images_covered (existing incoming : list ImageItem) :
  (forall i, In i incoming -> existsb (fun e => same_image e i) existing = true) ->
  merge_images existing incoming = existing.
Proof.
  unfold merge_images. induction incoming as [|i incoming IH]; intros H; cbn [fold_left].
  - reflexivity.
  - rewrite (H i (or_introl eq_refl)). cbn [negb]. apply IH.
    intros j Hj. apply H. right. exact Hj.
Qed.

Lemma merge_texts_from_covered (incoming : list TextItem) (existing : list TextItem)
  (ids : gset string) :
  (forall t, In t incoming -> text_frame_id t ∈ ids) ->
  merge_texts_from incoming (existing, ids) = (existing, ids).
Proof.
  unfold merge_texts_from. induction incoming as [|t incoming IH]; intros H; cbn [fold_left].
  - reflexivity.
  - rewrite bool_decide_eq_true_2 by (apply H; left; reflexivity).
    apply IH. intros j Hj. apply H. right. exact Hj.
Qed.

Lemma merge_texts_covered (existing incoming : list TextItem) :
  (forall t, In t incoming -> In (text_frame_id t) (List.map text_frame_id existing)) ->
  merge_texts existing incoming = existing.
Proof.
  intros H. unfold merge_texts. rewrite merge_texts_from_covered; [reflexivity|].
  intros t Ht. rewrite elem_of_list_to_set. apply list_elem_of_In. apply H, Ht.
Qed.

Lemma merge_page_same (doc : Dict PageData) (pid : string) (pd : PageData) :
  dict_get pid (merge_page doc (pid, pd)) = Some (merged_entry (dict_get pid doc) pd).
Proof.
  unfold merge_page, merged_entry.
  destruct (dict_get pid doc); apply dict_get_set_same.
Qed.

Lemma merge_page_other (doc : Dict PageData) (pid pid' : string) (pd : PageData) :
  pid' <> pid -> dict_get pid' (merge_page doc (pid, pd)) = dict_get pid' doc.
Proof.
  intros H. unfold merge_page.
  destruct (dict_get pid doc); apply dict_get_set_other; exact H.
Qed.

(** The merged document, page by page. *)
Lemma merge_spread_lookup (sheet : Dict PageData) :
  forall (doc : Dict PageData) (pid : string),
    List.NoDup (dict_keys sheet) ->
    dict_get pid (merge_spread doc sheet) =
    match dict_get pid sheet with
    | Some pd => Some (merged_entry (dict_get pid doc) pd)
    | None => dict_get pid doc
    end.
Proof.
  unfold merge_spread.
  induction sheet as [|[k v] sheet IH]; intros doc pid Hnd; cbn [fold_left dict_get].
  - reflexivity.
  - cbn in Hnd. apply List.NoDup_cons_iff in Hnd as [Hk Hnd].
    rewrite IH by exact Hnd.
    destruct (String.eqb pid k) eqn:E.
    + apply String.eqb_eq in E. subst k.
      rewrite (dict_get_none_keys pid sheet Hk). apply merge_page_same.
    + apply String.eqb_neq in E. rewrite merge_page_other by exact E. reflexivity.
Qed.

Lemma covers_merge_page_same (doc : Dict PageData) (pid : string) (pd : PageData) :
  covers (merge_page doc (pid, pd)) pid pd.
Proof.
  unfold covers. rewrite merge_page_same. eexists. split; [reflexivity|].
  unfold merged_entry. destruct (dict_get pid doc) as [cur|].
  - cbn [images texts].
    destruct (merge_images_appends (images pd) (images cur)) as (ai & -> & _ & Hi).
    destruct (merge_texts_appends (texts cur) (texts pd)) as (at_ & -> & _ & Ht).
    split; assumption.
  - split.
    + intros i Hi. apply existsb_exists. exists i. split; [exact Hi|apply same_image_refl].
    + intros t Ht. apply in_map. exact Ht.
Qed.

Lemma covers_merge_page_mono (doc : Dict PageData) (pid pid' : string) (pd pd' : PageData) :
  covers doc pid pd -> covers (merge_page doc (pid', pd')) pid pd.
Proof.
  intros (cur & Hcur & Hi & Ht). unfold covers.
  destruct (string_dec pid pid') as [<-|Hne].
  - rewrite merge_page_same, Hcur. eexists. split; [reflexivity|].
    cbn [merged_entry images texts].
    destruct (merge_images_appends (images pd') (images cur)) as (ai & -> & _ & _).
    destruct (merge_texts_appends (texts cur) (texts pd')) as (at_ & -> & _ & _).
    split.
    + intros i Hin. rewrite existsb_app, (Hi i Hin). reflexivity.
    + intros t Hin. rewrite map_app. apply in_or_app. left. apply Ht, Hin.
  - rewrite merge_page_other by exact Hne. exists cur. auto.
Qed.

Lemma covers_merge_spread_mono (sheet : Dict PageData) :
  forall (doc : Dict PageData) (pid : string) (pd : PageData),
    covers doc pid pd -> covers (merge_spread doc sheet) pid pd.
Proof.
  unfold merge_spread. induction sheet as [|[k v] sheet IH]; intros doc pid pd H; cbn.
  - exact H.
  - apply IH. apply covers_merge_page_mono. exact H.
Qed.

Lemma covers_merge_spread (sheet : Dict PageData) :
  forall (doc : Dict PageData) (pid : string) (pd : PageData),
    In (pid, pd) sheet -> covers (merge_spread doc sheet) pid pd.
Proof.
  induction sheet as [|[k v] sheet IH]; intros doc pid pd Hin; [destruct Hin|].
  destruct Hin as [[= -> ->]|Hin].
  - apply (covers_merge_spread_mono sheet). apply covers_merge_page_same.
  - apply (IH (merge_page doc (k, v))). exact Hin.
Qed.

Lemma merge_page_covered (doc : Dict PageData) (pid : string) (pd : PageData) :
  covers doc pid pd -> merge_page doc (pid, pd) = doc.
Proof.
  intros (cur & Hcur & Hi & Ht). unfold merge_page. rewrite Hcur.
  rewrite merge_images_covered by exact Hi.
  rewrite merge_texts_covered by exact Ht.
  apply dict_set_unchanged. rewrite Hcur. destruct cur; reflexivity.
Qed.

Lemma merge_spread_covered (sheet : Dict PageData) (doc : Dict PageData) :
  (forall pid pd, In (pid, pd) sheet -> covers doc pid pd) ->
  merge_spread doc sheet = doc.
Proof.
  unfold merge_spread. induction sheet as [|[k v] sheet IH]; intros H; cbn [fold_left].
  - reflexivity.
  - rewrite merge_page_covered by (apply H; left; reflexivity).
    apply IH. intros pid pd Hin. apply H. right. exact Hin.
Qed.

(** Merging the same sheet content again changes nothing. *)
Lemma merge_spread_idempotent (doc sheet : Dict PageData) :
  merge_spread (merge_spread doc sheet) sheet = merge_spread doc sheet.
Proof.
  apply merge_spread_covered. intros pid pd Hin. apply covers_merge_spread. exact Hin.
Qed.

(** C3. Merging a sheet's page contents into the document: a page whose id
    is new is taken over as it is; for a page whose id is known, the name
    stays the document's, and behind the document's images and texts come
    only items of the sheet whose key, the pair of uri and image element id
    for an image and the text-frame id for a text, the document's list did
    not hold, after which every key of the sheet is held; pages the sheet
    does not mention are untouched; and merging the same sheet content a
    second time leaves the document unchanged. *)
Theorem merge_copies_new_appends_unseen (doc sheet : Dict PageData) :
  List.NoDup (dict_keys sheet) ->
  (forall pid pd,
     dict_get pid sheet = Some pd -> dict_get pid doc = None ->
     dict_get pid (merge_spread doc sheet) = Some pd) /\
  (forall pid pd cur,
     dict_get pid sheet = Some pd -> dict_get pid doc = Some cur ->
     exists new_images new_texts,
       dict_get pid (merge_spread doc sheet)
         = Some (mkPageData (name cur) (images cur ++ new_images) (texts cur ++ new_texts)) /\
       (forall i, In i new_images ->
          In i (images pd) /\ existsb (fun e => same_image e i) (images cur) = false) /\
       (forall i, In i (images pd) ->
          existsb (fun e => same_image e i) (images cur ++ new_images) = true) /\
       (forall t, In t new_texts ->
          In t (texts pd) /\ ~ In (text_frame_id t) (List.map text_frame_id (texts cur))) /\
       (forall t, In t (texts pd) ->
          In (text_frame_id t) (List.map text_frame_id (texts cur ++ new_texts)))) /\
  (forall pid,
     dict_get pid sheet = None ->
     dict_get pid (merge_spread doc sheet) = dict_get pid doc) /\
  merge_spread (merge_spread doc sheet) sheet = merge_spread doc sheet.
Proof.
  intros Hnd. repeat split.
  - intros pid pd Hs Hd. rewrite merge_spread_lookup, Hs, Hd by exact Hnd. reflexivity.
  - intros pid pd cur Hs Hd. rewrite merge_spread_lookup, Hs, Hd by exact Hnd.
    cbn [merged_entry].
    destruct (merge_images_appends (images pd) (images cur)) as (ai & -> & Hi1 & Hi2).
    destruct (merge_texts_appends (texts cur) (texts pd)) as (at_ & -> & Ht1 & Ht2).
    exists ai, at_. repeat split; auto; try (apply Hi1; assumption); apply Ht1; assumption.
  - intros pid Hs. rewrite merge_spread_lookup, Hs by exact Hnd. reflexivity.
  - apply merge_spread_idempotent.
Qed.

(** ** Output order *)

Lemma string_compare_OT (a b : string) : String_as_OT.compare a b = String.compare a b.
Proof. reflexivity. Qed.

Lemma string_ltb_lt (a b : string) : String.ltb a b = true <-> String_as_OT.lt a b.
Proof.
  unfold String.ltb, String_as_OT.lt.
  change (String_as_OT.compare a b) with (String.compare a b).
  destruct (String.compare a b); split; congruence.
Qed.

Lemma string_leb_lt (a b : string) :
  String.leb a b = true <-> a = b \/ String_as_OT.lt a b.
Proof.
  unfold String.leb, String_as_OT.lt.
  change (String_as_OT.compare a b) with (String.compare a b).
  destruct (String.compare a b) eqn:E; split; auto; try discriminate.
  - intros _. left. apply String.compare_eq_iff. exact E.
  - intros [->|H]; [|discriminate].
    pose proof (String.compare_antisym b b) as Ha. rewrite E in Ha. discriminate.
Qed.

Lemma string_leb_trans (a b c : string) :
  String.leb a b = true -> String.leb b c = true -> String.leb a c = true.
Proof.
  rewrite !string_leb_lt. intros [->|H1] [->|H2]; auto.
  right. exact (StrictOrder_Transitive (R := String_as_OT.lt) a b c H1 H2).
Qed.

Lemma string_ltb_leb (a b : string) : String.ltb a b = true -> String.leb a b = true.
Proof. rewrite string_ltb_lt, string_leb_lt. auto. Qed.

Lemma string_ltb_false_leb (a b : string) : String.ltb a b = false -> String.leb b a = true.
Proof.
  unfold String.ltb, String.leb. rewrite (String.compare_antisym a b).
  destruct (String.compare b a); cbn; congruence.
Qed.

Lemma string_ltb_neq (a b : string) : String.ltb a b = true -> String.eqb b a = false.
Proof.
  intros H. apply String.eqb_neq. intros ->.
  apply string_ltb_lt in H. exact (StrictOrder_Irreflexive (R := String_as_OT.lt) a H).
Qed.

Lemma filter_none {A : Type} (f : A -> bool) (l : list A) :
  Forall (fun a => f a = false) l -> List.filter f l = [].
Proof.
  induction 1 as [|a l Ha _ IH]; cbn; [reflexivity|]. rewrite Ha. exact IH.
Qed.

Section Sorting.

Context {A : Type} (key : A -> string).

Lemma insert_by_perm (x : A) (l : list A) : Permutation (x :: l) (insert_by key x l).
Proof.
  induction l as [|y l IH]; cbn; [reflexivity|].
  destruct (String.ltb (key x) (key y)); [reflexivity|].
  rewrite perm_swap. apply perm_skip. exact IH.
Qed.

Lemma py_sorted_perm_from (l acc : list A) :
  Permutation (acc ++ l) (fold_left (fun acc x => insert_by key x acc) l acc).
Proof.
  revert acc. induction l as [|x l IH]; intros acc; cbn.
  - rewrite app_nil_r. reflexivity.
  - rewrite <- IH. rewrite <- insert_by_perm. symmetry. apply Permutation_middle.
Qed.

Lemma py_sorted_perm (l : list A) : Permutation l (py_sorted key l).
Proof. apply (py_sorted_perm_from l []). Qed.

Lemma insert_by_sorted (x : A) (l : list A) :
  StronglySorted (key_le key) l -> StronglySorted (key_le key) (insert_by key x l).
Proof.
  induction 1 as [|y l Hs IH Hy]; cbn.
  - repeat constructor.
  - destruct (String.ltb (key x) (key y)) eqn:E.
    + constructor; [constructor; assumption|].
      apply string_ltb_leb in E. constructor; [exact E|].
      eapply List.Forall_impl; [|exact Hy]. intros z Hz. unfold key_le in *.
      eapply string_leb_trans; eassumption.
    + constructor; [exact IH|].
      apply string_ltb_false_leb in E.
      rewrite !List.Forall_forall in *. intros z Hz.
      apply (Permutation_in _ (Permutation_sym (insert_by_perm x l))) in Hz.
      destruct Hz as [<-|Hz]; [exact E|apply Hy, Hz].
Qed.

Lemma py_sorted_sorted_from (l acc : list A) :
  StronglySorted (key_le key) acc ->
  StronglySorted (key_le key) (fold_left (fun acc x => insert_by key x acc) l acc).
Proof.
  revert acc. induction l as [|x l IH]; intros acc H; cbn; [exact H|].
  apply IH, insert_by_sorted, H.
Qed.

Lemma py_sorted_sorted (l : list A) : StronglySorted (key_le key) (py_sorted key l).
Proof. apply py_sorted_sorted_from. constructor. Qed.

(** The inserted element goes behind the elements of its own key. *)
Lemma insert_by_with_key (n : string) (x : A) (l : list A) :
  StronglySorted (key_le key) l ->
  with_key key n (insert_by key x l) = with_key key n l ++ with_key key n [x].
Proof.
  unfold with_key. induction 1 as [|y l Hs IH Hy]; cbn [insert_by].
  - reflexivity.
  - destruct (String.ltb (key x) (key y)) eqn:E.
    + change (x :: y :: l) with ([x] ++ (y :: l)). rewrite List.filter_app.
      destruct (String.eqb (key x) n) eqn:Ex.
      * apply String.eqb_eq in Ex. subst n.
        assert (Hnone : List.filter (fun a => String.eqb (key a) (key x)) (y :: l) = []).
        { apply filter_none. constructor; [apply string_ltb_neq, E|].
          eapply List.Forall_impl; [|exact Hy]. intros z Hz. apply string_ltb_neq.
          apply string_ltb_lt. apply string_ltb_lt in E. apply string_leb_lt in Hz.
          destruct Hz as [<-|Hz]; [exact E|].
          exact (StrictOrder_Transitive (R := String_as_OT.lt) _ _ _ E Hz). }
        rewrite Hnone. rewrite app_nil_r. reflexivity.
      * cbn [List.filter]. rewrite Ex. rewrite app_nil_r. reflexivity.
    + cbn [List.filter]. rewrite IH.
      destruct (String.eqb (key y) n); reflexivity.
Qed.

Lemma py_sorted_with_key_from (n : string) (l acc : list A) :
  StronglySorted (key_le key) acc ->
  with_key key n (fold_left (fun acc x => insert_by key x acc) l acc)
  = with_key key n acc ++ with_key key n l.
Proof.
  revert acc. induction l as [|x l IH]; intros acc H; cbn [fold_left].
  - cbn. rewrite app_nil_r. reflexivity.
  - rewrite IH by (apply insert_by_sorted, H).
    rewrite insert_by_with_key by exact H.
    rewrite <- app_assoc. f_equal.
    unfold with_key. change (x :: l) with ([x] ++ l). rewrite List.filter_app. reflexivity.
Qed.

(** Stability: the elements of one key keep the order of the input. *)
Lemma py_sorted_stable (n : string) (l : list A) :
  with_key key n (py_sorted key l) = with_key key n l.
Proof. apply (py_sorted_with_key_from n l []). constructor. Qed.

(** A sorted list is determined by its elements of each key in order: every
    stable sort returns what [py_sorted] returns. *)
Lemma sorted_stable_unique (l1 : list A) :
  forall l2 : list A,
    StronglySorted (key_le key) l1 -> StronglySorted (key_le key) l2 ->
    (forall n, with_key key n l1 = with_key key n l2) ->
    l1 = l2.
Proof.
  assert (Hhead : forall (h : A) (t l : list A),
             StronglySorted (key_le key) l ->
             with_key key (key h) l = h :: t ->
             match l with
             | [] => False
             | h' :: _ => key_le key h' h
             end).
  { intros h t l Hs Hw. destruct l as [|h' t']; [discriminate|].
    assert (Hin : In h (h' :: t')).
    { assert (Hin : In h (with_key key (key h) (h' :: t'))) by (rewrite Hw; left; reflexivity).
      unfold with_key in Hin. apply filter_In in Hin. apply Hin. }
    destruct Hin as [->|Hin].
    - unfold key_le. destruct (String.leb_total (key h) (key h)); assumption.
    - apply StronglySorted_inv in Hs as [_ Hall].
      rewrite List.Forall_forall in Hall. apply Hall, Hin. }
  induction l1 as [|h1 t1 IH]; intros l2 Hs1 Hs2 Hw.
  - destruct l2 as [|h2 t2]; [reflexivity|].
    specialize (Hw (key h2)). unfold with_key in Hw. cbn in Hw.
    rewrite String.eqb_refl in Hw. discriminate.
  - assert (H1 : with_key key (key h1) (h1 :: t1) = h1 :: with_key key (key h1) t1).
    { unfold with_key. cbn. rewrite String.eqb_refl. reflexivity. }
    pose proof (Hhead h1 _ l2 Hs2 (eq_trans (eq_sym (Hw (key h1))) H1)) as Hle21.
    destruct l2 as [|h2 t2]; [destruct Hle21|].
    assert (H2 : with_key key (key h2) (h2 :: t2) = h2 :: with_key key (key h2) t2).
    { unfold with_key. cbn. rewrite String.eqb_refl. reflexivity. }
    pose proof (Hhead h2 _ (h1 :: t1) Hs1 (eq_trans (Hw (key h2)) H2)) as Hle12.
    assert (Hk : key h1 = key h2) by (apply String.leb_antisym; assumption).
    assert (Hh : h1 = h2).
    { pose proof (Hw (key h1)) as Hw1. rewrite H1 in Hw1. rewrite Hk in Hw1 at 2.
      rewrite H2, <- Hk in Hw1. injection Hw1 as Hh _. exact Hh. }
    subst h2. f_equal.
    apply StronglySorted_inv in Hs1 as [Hs1 _]. apply StronglySorted_inv in Hs2 as [Hs2 _].
    apply (IH t2 Hs1 Hs2). intros n. specialize (Hw n). unfold with_key in *. cbn in Hw.
    destruct (String.eqb (key h1) n); [injection Hw as Hw|]; exact Hw.
Qed.

End Sorting.

Lemma name_of_page_get (all : Dict PageData) (pid : string) (pdata : PageData) :
  dict_get pid all = Some pdata -> name_of_page all pid = name pdata.
Proof. intros H. unfold name_of_page. rewrite H. reflexivity. Qed.

Lemma output_page_header (geoms : gmap string PageGeometricInfo) (pid : string)
  (pdata : PageData) (dims : PageDims) (page_output : PageOutput) :
  snd (output_page geoms pid pdata dims) = Ok page_output ->
  page_id page_output = pid /\ page_name page_output = name pdata.
Proof.
  unfold output_page.
  destruct (match geoms !! pid with Some _ => _ | None => _ end) as [[[ev ox] oy] dims'].
  cbn [snd].
  destruct (output_images _ _ _ _) as [imgs|]; cbn [py_bind]; [|discriminate].
  destruct (output_texts _ _ _ _) as [txts|]; cbn [py_bind]; [|discriminate].
  intros [= <-]. split; reflexivity.
Qed.

(** The emitted pages follow the list of ids that the loop runs over. *)
Lemma output_pages_order (all : Dict PageData) (geoms : gmap string PageGeometricInfo)
  (pids : list string) :
  forall (dims : PageDims) (out ev : list Event) (pages : list PageOutput),
    output_pages all geoms pids dims out = (ev, Ok pages) ->
    List.map page_id pages = pids /\
    List.map page_name pages = List.map (name_of_page all) pids.
Proof.
  induction pids as [|pid pids IH]; intros dims out ev pages; cbn [output_pages].
  - intros [= _ <-]. split; reflexivity.
  - destruct (dict_get pid all) as [pdata|] eqn:Hget; [|discriminate].
    pose proof (output_page_header geoms pid pdata dims) as Hhead.
    destruct (output_page geoms pid pdata dims) as [[ev1 dims'] r]. cbn [snd] in Hhead.
    destruct r as [page_output|]; [|discriminate].
    destruct (Hhead page_output eq_refl) as [Hid Hname].
    specialize (IH dims' (out ++ ev1)).
    destruct (output_pages all geoms pids dims' (out ++ ev1)) as [out' [rest|]];
      cbn [py_bind]; [|discriminate].
    intros [= _ <-]. destruct (IH out' rest eq_refl) as [IH1 IH2].
    cbn [List.map]. rewrite Hid, Hname, IH1, IH2, (name_of_page_get all pid pdata Hget).
    split; reflexivity.
Qed.

(** C10. The pages of the emitted structure come in ascending order of
    their display names, compared as strings character by character; pages
    with the same name keep the order in which their ids entered the
    document map; every page of the map appears once.  This is the order of
    names, not the order in which the sheets and pages were met. *)
Theorem output_follows_page_names (all : Dict PageData) :
  let ids := final_sorted_page_ids all in
  Permutation (dict_keys all) ids /\
  StronglySorted
    (fun a b => String.leb (name_of_page all a) (name_of_page all b) = true) ids /\
  (forall n,
     List.filter (fun pid => String.eqb (name_of_page all pid) n) ids =
     List.filter (fun pid => String.eqb (name_of_page all pid) n) (dict_keys all)) /\
  (forall geoms ev pages,
     prepare_output all geoms = (ev, Ok pages) ->
     List.map page_id pages = ids /\
     List.map page_name pages = List.map (name_of_page all) ids).
Proof.
  cbv zeta. unfold final_sorted_page_ids. repeat split.
  - apply py_sorted_perm.
  - apply (py_sorted_sorted (name_of_page all)).
  - intros n. apply (py_sorted_stable (name_of_page all)).
  - eapply output_pages_order, H.
  - eapply output_pages_order, H.
Qed.

(** ** CoordinateNormalizer *)

Lemma output_images_bound (imgs : list ImageItem) (ox oy w h : Q) :
  output_images imgs ox oy (Some (w, h)) =
  Ok (List.map
        (fun img_item =>
           mkOutImage (uri img_item) (image_element_id img_item)
             (rebase (image_global_bounds img_item) ox oy) w h)
        imgs).
Proof.
  induction imgs as [|i imgs IH]; cbn [output_images List.map]; [reflexivity|].
  rewrite IH. reflexivity.
Qed.

Lemma output_texts_bound (txts : list TextItem) (ox oy w h : Q) :
  output_texts txts ox oy (Some (w, h)) =
  Ok (List.map
        (fun t_item =>
           mkOutText (content t_item) (text_frame_id t_item)
             (rebase (text_global_bounds t_item) ox oy) w h)
        txts).
Proof.
  induction txts as [|t txts IH]; cbn [output_texts List.map]; [reflexivity|].
  rewrite IH. reflexivity.
Qed.

(** A page with geometry: every item is rebased to the page's origin and
    carries the page's width and height; nothing is printed. *)
Lemma output_page_normalizes (geoms : gmap string PageGeometricInfo) (pid : string)
  (pdata : PageData) (dims : PageDims) (page_geo_info : PageGeometricInfo) :
  geoms !! pid = Some page_geo_info ->
  let box := global_aabb page_geo_info in
  output_page geoms pid pdata dims =
  ([], Some (x2 box - x1 box, y2 box - y1 box),
   Ok (mkPageOutput (name pdata) pid
         (List.map
            (fun img_item =>
               mkOutImage (uri img_item) (image_element_id img_item)
                 (mkAABB (x1 (image_global_bounds img_item) - x1 box)
                         (y1 (image_global_bounds img_item) - y1 box)
                         (x2 (image_global_bounds img_item) - x1 box)
                         (y2 (image_global_bounds img_item) - y1 box))
                 (x2 box - x1 box) (y2 box - y1 box))
            (images pdata))
         (List.map
            (fun t_item =>
               mkOutText (content t_item) (text_frame_id t_item)
                 (mkAABB (x1 (text_global_bounds t_item) - x1 box)
                         (y1 (text_global_bounds t_item) - y1 box)
                         (x2 (text_global_bounds t_item) - x1 box)
                         (y2 (text_global_bounds t_item) - y1 box))
                 (x2 box - x1 box) (y2 box - y1 box))
            (texts pdata)))).
Proof.
  intros H. cbv zeta. unfold output_page. rewrite H.
  rewrite output_images_bound, output_texts_bound. reflexivity.
Qed.

(** A page without geometry, after a page with geometry: the warning is
    printed, the boxes are passed on with offset (0, 0), and the items carry
    the width and height that the earlier page left in the locals. *)
Lemma output_page_missing_after (geoms : gmap string PageGeometricInfo) (pid : string)
  (pdata : PageData) (w h : Q) :
  geoms !! pid = None ->
  output_page geoms pid pdata (Some (w, h)) =
  ([EvGeometryMissing pid], Some (w, h),
   Ok (mkPageOutput (name pdata) pid
         (List.map
            (fun img_item =>
               mkOutImage (uri img_item) (image_element_id img_item)
                 (rebase (image_global_bounds img_item) 0 0) w h)
            (images pdata))
         (List.map
            (fun t_item =>
               mkOutText (content t_item) (text_frame_id t_item)
                 (rebase (text_global_bounds t_item) 0 0) w h)
            (texts pdata)))).
Proof.
  intros H. unfold output_page. rewrite H.
  rewrite output_images_bound, output_texts_bound. reflexivity.
Qed.

(** A page without geometry while the locals are unbound: building the
    first item fails. *)
Lemma output_page_missing_first (geoms : gmap string PageGeometricInfo) (pid : string)
  (pdata : PageData) :
  geoms !! pid = None ->
  images pdata <> [] \/ texts pdata <> [] ->
  output_page geoms pid pdata None = ([EvGeometryMissing pid], None, Raise UnboundLocalError).
Proof.
  intros H Hitems. unfold output_page. rewrite H.
  destruct (images pdata) as [|i imgs]; cbn [output_images read_dims py_bind].
  - destruct (texts pdata) as [|t txts]; cbn [output_texts read_dims py_bind]; [|reflexivity].
    destruct Hitems; contradiction.
  - reflexivity.
Qed.

(** Rebasing by (0, 0) leaves a box as it is. *)
Lemma rebase_zero (b : AABB) : aabb_eq (rebase b 0 0) b.
Proof. unfold aabb_eq, rebase. cbn [x1 y1 x2 y2]. repeat split; ring. Qed.

(** *** Whole runs: the geometry of a page with content is never missing *)

Lemma dict_keys_set {V : Type} (k : string) (v : V) (d : Dict V) :
  dict_keys (dict_set k v d) =
  match dict_get k d with
  | Some _ => dict_keys d
  | None => dict_keys d ++ [k]
  end.
Proof.
  unfold dict_keys. induction d as [|[k' v'] d IH]; cbn; [reflexivity|].
  destruct (String.eqb k k') eqn:E; cbn; [reflexivity|].
  rewrite IH. destruct (dict_get k d); reflexivity.
Qed.

Lemma dict_get_some_keys {V : Type} (k : string) (d : Dict V) :
  In k (dict_keys d) <-> exists v, dict_get k d = Some v.
Proof.
  induction d as [|[k' v'] d IH]; cbn.
  - split; [intros []|intros [v H]; discriminate].
  - destruct (String.eqb k k') eqn:E.
    + apply String.eqb_eq in E. subst k'. split; [intros _; eexists; reflexivity|].
      intros _. left. reflexivity.
    + apply String.eqb_neq in E. rewrite <- IH. split; [|intros H; right; exact H].
      intros [H|H]; [congruence|exact H].
Qed.

Lemma process_text_frame_keys (indent : nat) (element : Element)
  (assigned : option string) (box : AABB) (st : WalkState) :
  dict_keys (pages_content_map (process_text_frame indent element assigned box st))
  = dict_keys (pages_content_map st).
Proof.
  rewrite process_text_frame_content.
  destruct assigned as [pid|]; [|reflexivity].
  destruct (get element "ParentStory") as [story|]; [|reflexivity].
  destruct (dict_get pid (pages_content_map st)) as [pd|] eqn:Hpd; [|reflexivity].
  match goal with |- context [if ?c then _ else _] => destruct c end; [|reflexivity].
  rewrite dict_keys_set, Hpd. reflexivity.
Qed.

Lemma process_image_keys (element : Element) (parent_element : option Element)
  (assigned : option string) (box : AABB) (st : WalkState) :
  dict_keys (pages_content_map (process_image element parent_element assigned box st))
  = dict_keys (pages_content_map st).
Proof.
  unfold process_image.
  destruct assigned as [pid|]; [|reflexivity].
  destruct (py_truthy _); [|reflexivity].
  destruct (find_path _ _ _) as [le|]; [|reflexivity].
  destruct (get le _) as [u|]; [|reflexivity].
  destruct (py_truthy _); [|reflexivity].
  destruct (dict_get pid (pages_content_map st)) as [pd|] eqn:Hpd; [|reflexivity].
  destruct (match parent_element with Some _ => _ | None => _ end) as [ctag cid].
  destruct (negb _); [|reflexivity].
  cbn [pages_content_map]. rewrite dict_keys_set, Hpd. reflexivity.
Qed.

Lemma process_element_keys (element : Element) (parent_element : option Element)
  (M : Matrix) (pages : list PageGeometricInfo) (depth : nat) (st : WalkState) :
  dict_keys (pages_content_map (fst (process_element element parent_element M pages depth st)))
  = dict_keys (pages_content_map st).
Proof.
  rewrite process_element_uses_geometry.
  destruct (String.eqb (tag_of element) "TextFrame");
    [rewrite process_text_frame_keys; reflexivity|].
  destruct (String.eqb (tag_of element) "Image");
    [rewrite process_image_keys; reflexivity|reflexivity].
Qed.

(** The walk adds items to the pages it is given, never a page. *)
Lemma walk_keys (element : Element) :
  forall (parent_element : option Element) (M : Matrix) (pages : list PageGeometricInfo)
         (depth : nat) (st : WalkState),
    dict_keys (pages_content_map
                 (process_spread_element_recursively element parent_element M pages depth st))
    = dict_keys (pages_content_map st).
Proof.
  induction element as [t a cs IH] using Element_ind.
  intros parent_element M pages depth st.
  cbn [process_spread_element_recursively].
  pose proof (process_element_keys (Elem t a cs) parent_element M pages depth st) as Hstep.
  destruct (process_element (Elem t a cs) parent_element M pages depth st) as [st2 G].
  cbn [fst] in Hstep. rewrite <- Hstep.
  destruct (recursable t); [|reflexivity].
  clear Hstep. revert st2. generalize (Some (Elem t a cs)) as parent.
  induction IH as [|c cs' Hc _ IHcs]; intros parent st2; cbn [fold_left].
  - reflexivity.
  - rewrite IHcs. apply Hc.
Qed.

Lemma build_pages_keys (sheet_base : Matrix) (page_els : list Element) :
  forall (content : Dict PageData) (pages : list PageGeometricInfo),
    (forall pid, In pid (dict_keys content) <-> In pid (List.map pg_id pages)) ->
    forall pid,
      In pid (dict_keys (fst (build_pages sheet_base page_els content pages))) <->
      In pid (List.map pg_id (snd (build_pages sheet_base page_els content pages))).
Proof.
  induction page_els as [|page_el rest IH]; intros content pages Hinv; cbn [build_pages].
  - exact Hinv.
  - destruct (get page_el "Self") as [self|]; [|apply IH, Hinv].
    destruct (py_truthy (Some self)); [|apply IH, Hinv].
    apply IH. intros pid. rewrite map_app, in_app_iff. cbn [List.map pg_id PageGeometricInfo_init In].
    destruct (dict_get self content) as [pd|] eqn:Hget.
    + rewrite <- Hinv. split; [intros H; left; exact H|].
      intros [H|[<-|[]]]; [exact H|]. apply dict_get_some_keys. eexists. exact Hget.
    + rewrite dict_keys_set, Hget, in_app_iff, <- Hinv. cbn [In]. reflexivity.
Qed.

Lemma walk_children_keys (spread_element : Element) (sheet_base : Matrix)
  (pages : list PageGeometricInfo) (cs : list Element) :
  forall st : WalkState,
    dict_keys (pages_content_map
                 (fold_left
                    (fun s child_el =>
                       if skipped_child (tag_of child_el) then s
                       else process_spread_element_recursively child_el (Some spread_element)
                              sheet_base pages 0 s)
                    cs st))
    = dict_keys (pages_content_map st).
Proof.
  induction cs as [|c cs IH]; intros st; cbn [fold_left]; [reflexivity|].
  rewrite IH. destruct (skipped_child (tag_of c)); [reflexivity|apply walk_keys].
Qed.

(** The pages with content that a sheet returns are the pages of its index. *)
Lemma spread_content_keys (spread_element : Element) (cache cache' : gmap string string)
  (out out' : list Event) (content : Dict PageData) (pages : list PageGeometricInfo) :
  get_page_content_from_spread spread_element cache out
    = (SpreadContent content pages, cache', out') ->
  forall pid, In pid (dict_keys content) <-> In pid (List.map pg_id pages).
Proof.
  unfold get_page_content_from_spread.
  pose proof (build_pages_keys (parse_transform_matrix (get spread_element "ItemTransform"))
                (descendants_tagged "Page" spread_element) [] []) as Hkeys.
  destruct (build_pages _ _ [] []) as [c0 pages0]. cbn [fst snd] in Hkeys.
  destruct pages0 as [|pg pages0]; [discriminate|].
  intros [= <- <- _ _] pid. rewrite walk_children_keys. cbn [pages_content_map].
  apply Hkeys. intros k. reflexivity.
Qed.

Lemma merge_page_keys (doc : Dict PageData) (pid k : string) (pd : PageData) :
  In k (dict_keys (merge_page doc (pid, pd))) <-> In k (dict_keys doc) \/ k = pid.
Proof.
  unfold merge_page. destruct (dict_get pid doc) as [cur|] eqn:Hget;
    rewrite dict_keys_set, Hget.
  - split; [intros H; left; exact H|]. intros [H| ->]; [exact H|].
    apply dict_get_some_keys. eexists. exact Hget.
  - rewrite in_app_iff. cbn [In]. split; [intros [H|[<-|[]]]|intros [H| ->]]; auto.
Qed.

Lemma merge_spread_keys (sheet : Dict PageData) :
  forall (doc : Dict PageData) (k : string),
    In k (dict_keys (merge_spread doc sheet)) <->
    In k (dict_keys doc) \/ In k (dict_keys sheet).
Proof.
  unfold merge_spread. induction sheet as [|[pid pd] sheet IH]; intros doc k; cbn [fold_left].
  - cbn. split; [intros H; left; exact H|intros [H|[]]; exact H].
  - rewrite IH, merge_page_keys. cbn [dict_keys List.map fst In].
    split; [intros [[H|H]|H]|intros [H|[H|H]]]; auto.
Qed.

Lemma merge_geometries_known (pages : list PageGeometricInfo) :
  forall (g : gmap string PageGeometricInfo) (pid : string),
    (exists info, g !! pid = Some info) \/ In pid (List.map pg_id pages) ->
    exists info, merge_geometries g pages !! pid = Some info.
Proof.
  unfold merge_geometries.
  induction pages as [|pg pages IH]; intros g pid H; cbn [fold_left].
  - destruct H as [H|[]]. exact H.
  - apply IH. destruct H as [[info H]|[<-|H]]; [| |right; exact H]; left.
    + destruct (g !! pg_id pg) eqn:E; [eexists; exact H|].
      destruct (string_dec (pg_id pg) pid) as [<-|Hne]; [congruence|].
      rewrite lookup_insert_ne by exact Hne. eexists. exact H.
    + destruct (g !! pg_id pg) eqn:E; [eexists; exact E|].
      rewrite lookup_insert_eq. eexists. reflexivity.
Qed.

(** Every state that the loop over the spread files reaches knows the
    geometry of every page it holds content for. *)
Lemma process_spreads_geometry_known (spreads : list Element) :
  forall st st' : ExtractState,
    geometry_known st -> process_spreads spreads st = Ok st' -> geometry_known st'.
Proof.
  induction spreads as [|spread_element rest IH]; intros st st' Hinv; cbn [process_spreads].
  - intros [= <-]. exact Hinv.
  - destruct (get_page_content_from_spread spread_element (run_story_cache st) (run_stdout st))
      as [[res cache] out] eqn:Hres.
    destruct res as [content pages|]; [|discriminate].
    apply IH. intros pid Hin. cbn [all_page_data_by_id all_page_geometries] in *.
    apply merge_geometries_known. apply merge_spread_keys in Hin.
    destruct Hin as [Hin|Hin]; [left; apply Hinv, Hin|right].
    apply (spread_content_keys spread_element _ cache _ out content pages Hres). exact Hin.
Qed.

Lemma output_pages_normalized (all : Dict PageData) (geoms : gmap string PageGeometricInfo)
  (pids : list string) :
  (forall pid, In pid pids -> exists pdata, dict_get pid all = Some pdata) ->
  (forall pid, In pid pids -> exists info, geoms !! pid = Some info) ->
  forall (dims : PageDims) (out : list Event),
  exists pages,
    output_pages all geoms pids dims out = (out, Ok pages) /\
    Forall2
      (fun pid page =>
         exists pdata info,
           dict_get pid all = Some pdata /\ geoms !! pid = Some info /\
           page = normalized_page pid pdata (global_aabb info))
      pids pages.
Proof.
  induction pids as [|pid pids IH]; intros Hdata Hgeo dims out; cbn [output_pages].
  - exists []. split; [reflexivity|constructor].
  - destruct (Hdata pid (or_introl eq_refl)) as [pdata Hd].
    destruct (Hgeo pid (or_introl eq_refl)) as [info Hg].
    rewrite Hd, (output_page_normalizes geoms pid pdata dims info Hg). cbv zeta.
    rewrite app_nil_r.
    destruct (IH (fun k H => Hdata k (or_intror H)) (fun k H => Hgeo k (or_intror H))
                (Some (x2 (global_aabb info) - x1 (global_aabb info),
                       y2 (global_aabb info) - y1 (global_aabb info))) out)
      as (pages & Heq & Hall).
    rewrite Heq. cbn [py_bind]. eexists. split; [reflexivity|].
    constructor; [|exact Hall]. exists pdata, info. repeat split; assumption.
Qed.

(** X30. On a whole run the geometry of a page is never missing: every
    page is emitted, in the order of the names, with each item's box rebased
    to the page's origin and with the page's width and height, and no
    warning is printed. *)
Lemma run_output_normalized (spreads : list Element) (st : ExtractState) :
  process_spreads spreads (mkExtractState [] ∅ ∅ []) = Ok st ->
  exists pages,
    prepare_output (all_page_data_by_id st) (all_page_geometries st) = ([], Ok pages) /\
    Forall2
      (fun pid page =>
         exists pdata info,
           dict_get pid (all_page_data_by_id st) = Some pdata /\
           all_page_geometries st !! pid = Some info /\
           page = normalized_page pid pdata (global_aabb info))
      (final_sorted_page_ids (all_page_data_by_id st)) pages.
Proof.
  intros Hrun.
  assert (Hknown : geometry_known st).
  { apply (process_spreads_geometry_known spreads (mkExtractState [] ∅ ∅ []) st);
      [|exact Hrun]. intros pid []. }
  assert (Hkeys : forall pid, In pid (final_sorted_page_ids (all_page_data_by_id st)) ->
                              In pid (dict_keys (all_page_data_by_id st))).
  { intros pid Hin. eapply Permutation_in; [|exact Hin].
    symmetry. apply py_sorted_perm. }
  unfold prepare_output. apply output_pages_normalized.
  - intros pid Hin. apply dict_get_some_keys, Hkeys, Hin.
  - intros pid Hin. apply Hknown, Hkeys, Hin.
Qed.

(** The fallback entered on the first page of the loop, in a state that no
    run builds ([process_spreads_geometry_known]): one page with one image
    and no geometry.  The warning is printed and the offsets are (0, 0),
    but building the image entry reads [page_width], which no earlier page
    has set. *)
Theorem missing_geometry_fails_on_first_page :
  prepare_output
    [("p1", mkPageData "1"
              [mkImageItem "file:a.png" "i1" "Rectangle" "r1" (mkAABB 10 20 30 40) None] [])]
    ∅
  = ([EvGeometryMissing "p1"], Raise UnboundLocalError).
Proof. reflexivity. Qed.

(** ** Further properties of the geometry *)

Lemma box_ordered (p : Point) (ps : list Point) :
  aabb_ordered (get_axis_aligned_bounding_box (p :: ps)).
Proof.
  cbn [get_axis_aligned_bounding_box]. unfold aabb_ordered. cbn [x1 y1 x2 y2].
  destruct (py_min_le (List.map fst ps) (fst p)) as [Hx1 _].
  destruct (py_min_le (List.map snd ps) (snd p)) as [Hy1 _].
  destruct (py_max_ge (List.map fst ps) (fst p)) as [Hx2 _].
  destruct (py_max_ge (List.map snd ps) (snd p)) as [Hy2 _].
  split; lra.
Qed.

Lemma box_least (p : Point) (ps : list Point) (other : AABB) :
  Forall (fun q => aabb_contains other (fst q) (snd q)) (p :: ps) ->
  aabb_within (get_axis_aligned_bounding_box (p :: ps)) other.
Proof.
  intros Hall. inversion Hall as [|q qs Hp Hps]; subst.
  cbn [get_axis_aligned_bounding_box]. unfold aabb_within. cbn [x1 y1 x2 y2].
  unfold aabb_contains in Hp.
  assert (Hxs : Forall (fun x => x1 other <= x) (List.map fst ps) /\
                Forall (fun x => x <= x2 other) (List.map fst ps) /\
                Forall (fun y => y1 other <= y) (List.map snd ps) /\
                Forall (fun y => y <= y2 other) (List.map snd ps)).
  { clear Hall Hp. induction Hps as [|q qs Hq _ IH].
    - repeat split; constructor.
    - destruct IH as (I1 & I2 & I3 & I4). unfold aabb_contains in Hq.
      repeat split; cbn [List.map]; constructor; try assumption; apply Hq. }
  destruct Hxs as (H1 & H2 & H3 & H4).
  repeat split.
  - apply py_min_ge; [apply Hp|exact H1].
  - apply py_max_le; [apply Hp|exact H2].
  - apply py_min_ge; [apply Hp|exact H3].
  - apply py_max_le; [apply Hp|exact H4].
Qed.

(** X1. The box computed from a non-empty list of points contains every one
    of them, has its lower corner before its upper corner on both axes, and
    lies inside every box that contains all the points: it is the smallest
    enclosing box. *)
Theorem box_is_smallest_enclosing (p : Point) (ps : list Point) :
  let box := get_axis_aligned_bounding_box (p :: ps) in
  Forall (fun q => aabb_contains box (fst q) (snd q)) (p :: ps) /\
  aabb_ordered box /\
  (forall other,
     Forall (fun q => aabb_contains other (fst q) (snd q)) (p :: ps) ->
     aabb_within box other).
Proof.
  cbv zeta. split; [apply box_encloses_points|]. split; [apply box_ordered|].
  intros other. apply box_least.
Qed.

Lemma half_between (lo hi : Q) : lo <= hi -> lo <= (lo + hi) / 2 /\ (lo + hi) / 2 <= hi.
Proof.
  intros H. assert (E : (lo + hi) / 2 == (lo + hi) * (1 # 2)) by (unfold Qdiv; reflexivity).
  rewrite E. split; lra.
Qed.

Lemma center_in_box (b : LocalBounds) (M : Matrix) :
  let box := box_of b M in
  aabb_contains box (fst (get_item_center box)) (snd (get_item_center box)).
Proof.
  cbv zeta. unfold box_of. destruct b as [[[by1 bx1] by2] bx2]. cbn [get_global_corners].
  match goal with |- context [get_axis_aligned_bounding_box (?p :: ?ps)] =>
    destruct (box_ordered p ps) as [Hx Hy] end.
  unfold aabb_contains, get_item_center. cbn [fst snd].
  split; apply half_between; assumption.
Qed.

(** X2. The centre point that the walk tests against the pages lies inside
    the element's own global box, whatever the bounds and the transform. *)
Theorem item_center_inside_box (b : LocalBounds) (M : Matrix) :
  bounds_is_zero b = false ->
  let box := fst (item_geometry b M) in
  let center := snd (item_geometry b M) in
  box = box_of b M /\ aabb_contains box (fst center) (snd center).
Proof.
  intros Hz. cbv zeta. unfold item_geometry. rewrite Hz. cbn [negb fst snd].
  split; [reflexivity|]. apply (center_in_box b M).
Qed.

Lemma scale_le (a lo hi : Q) : 0 <= a -> lo <= hi -> a * lo <= a * hi.
Proof.
  intros Ha H. rewrite (Qmult_comm a lo), (Qmult_comm a hi).
  apply Qmult_le_compat_r; assumption.
Qed.

(** X3. Under a transform without rotation or shear and with non-negative
    scale factors, the box of a local rectangle with ordered edges is the
    rectangle itself, scaled and shifted: x runs from a*x1+tx to a*x2+tx and
    y from d*y1+ty to d*y2+ty. *)
Theorem box_under_scale_and_shift (a d tx ty by1 bx1 by2 bx2 : Q) :
  0 <= a -> 0 <= d -> bx1 <= bx2 -> by1 <= by2 ->
  aabb_eq (box_of (by1, bx1, by2, bx2) (a, 0, 0, d, tx, ty))
          (mkAABB (a * bx1 + tx) (d * by1 + ty) (a * bx2 + tx) (d * by2 + ty)).
Proof.
  intros Ha Hd Hx Hy.
  pose proof (scale_le a bx1 bx2 Ha Hx) as Hax.
  pose proof (scale_le d by1 by2 Hd Hy) as Hdy.
  unfold box_of. cbn [get_global_corners apply_transform_to_point].
  match goal with |- aabb_eq (get_axis_aligned_bounding_box (?p :: ?ps)) ?target =>
    pose proof (box_encloses_points (p :: ps)) as Henc;
    assert (Hin : aabb_within (get_axis_aligned_bounding_box (p :: ps)) target)
  end.
  { apply box_least. unfold aabb_contains. cbn [x1 y1 x2 y2].
    repeat (apply List.Forall_cons; [cbn [fst snd]; repeat split; lra|]).
    apply List.Forall_nil. }
  unfold aabb_within in Hin. cbn [x1 y1 x2 y2] in Hin.
  rewrite List.Forall_forall in Henc.
  pose proof (Henc _ (or_introl eq_refl)) as H00.
  pose proof (Henc _ (or_intror (or_intror (or_intror (or_introl eq_refl))))) as H11.
  unfold aabb_contains in H00, H11. cbn [fst snd] in H00, H11.
  clear Henc.
  destruct Hin as [[I1 I2] [I3 I4]].
  destruct H00 as [[A1 A2] [A3 A4]]. destruct H11 as [[B1 B2] [B3 B4]].
  unfold aabb_eq. cbn [x1 y1 x2 y2]. unfold Point in *. repeat split; lra.
Qed.

(** In exact arithmetic the corners of a rectangle under a composed
    transform are the corners under the child's transform taken through the
    parent's, corner by corner and in the same order. *)
Lemma corners_compose (b : LocalBounds) (A B : Matrix) :
  Forall2 point_eq
    (get_global_corners b (multiply_matrices A B))
    (List.map (fun p => apply_transform_to_point (fst p) (snd p) A)
       (get_global_corners b B)).
Proof.
  destruct b as [[[by1 bx1] by2] bx2]. cbn [get_global_corners List.map].
  repeat constructor; apply apply_multiply.
Qed.

(** *** Moving the whole sheet *)

Lemma Qlt_bool_shift (x y x' y' d : Q) :
  x' == x + d -> y' == y + d -> Qlt_bool x' y' = Qlt_bool x y.
Proof.
  intros Hx Hy.
  destruct (Qlt_bool x y) eqn:E.
  - apply Qlt_bool_true. apply Qlt_bool_true in E. lra.
  - destruct (Qlt_bool x' y') eqn:E'; [|reflexivity].
    apply Qlt_bool_true in E'. assert (H : x < y) by lra.
    apply Qlt_bool_true in H. congruence.
Qed.

Lemma py_min_shift (d : Q) (l l' : list Q) :
  Forall2 (fun x x' => x' == x + d) l l' ->
  forall best best', best' == best + d -> py_min best' l' == py_min best l + d.
Proof.
  induction 1 as [|x x' l l' Hx _ IH]; intros best best' Hb; cbn [py_min]; [exact Hb|].
  rewrite (Qlt_bool_shift x best x' best' d Hx Hb).
  destruct (Qlt_bool x best); apply IH; assumption.
Qed.

Lemma py_max_shift (d : Q) (l l' : list Q) :
  Forall2 (fun x x' => x' == x + d) l l' ->
  forall best best', best' == best + d -> py_max best' l' == py_max best l + d.
Proof.
  induction 1 as [|x x' l l' Hx _ IH]; intros best best' Hb; cbn [py_max]; [exact Hb|].
  rewrite (Qlt_bool_shift best x best' x' d Hb Hx).
  destruct (Qlt_bool best x); apply IH; assumption.
Qed.

(** The box of a rectangle under a transform that is followed by a
    translation is the box under the transform, translated. *)
Lemma box_of_translated (b : LocalBounds) (M : Matrix) (dx dy : Q) :
  let moved := box_of b (multiply_matrices (translation dx dy) M) in
  let box := box_of b M in
  x1 moved == x1 box + dx /\ y1 moved == y1 box + dy /\
  x2 moved == x2 box + dx /\ y2 moved == y2 box + dy.
Proof.
  cbv zeta. unfold box_of, translation.
  destruct b as [[[by1 bx1] by2] bx2]. destruct_matrix M.
  cbn [multiply_matrices get_global_corners apply_transform_to_point
       get_axis_aligned_bounding_box List.map fst snd x1 y1 x2 y2].
  repeat split;
    (apply py_min_shift || apply py_max_shift);
    repeat (apply List.Forall2_cons || apply List.Forall2_nil); ring.
Qed.

(** In exact arithmetic page-relative bounds do not depend on where the
    sheet lies: following the transforms of an item and of its page by the
    same translation leaves the rebased box of the item and the width and
    height of the page as they were. *)
Lemma relative_bounds_ignore_sheet_shift
  (item_bounds page_bounds : LocalBounds) (Mi Mp : Matrix) (dx dy : Q) :
  let T := translation dx dy in
  let page := box_of page_bounds Mp in
  let page' := box_of page_bounds (multiply_matrices T Mp) in
  aabb_eq (rebase (box_of item_bounds (multiply_matrices T Mi)) (x1 page') (y1 page'))
          (rebase (box_of item_bounds Mi) (x1 page) (y1 page)) /\
  x2 page' - x1 page' == x2 page - x1 page /\
  y2 page' - y1 page' == y2 page - y1 page.
Proof.
  cbv zeta.
  destruct (box_of_translated item_bounds Mi dx dy) as (I1 & I2 & I3 & I4).
  destruct (box_of_translated page_bounds Mp dx dy) as (P1 & P2 & P3 & P4).
  unfold aabb_eq, rebase. cbn [x1 y1 x2 y2].
  repeat split; lra.
Qed.

(** ** Further properties of the containment test *)

(** X6. An element with non-zero bounds whose global box lies inside the
    box of a page is assigned to that page, unless a page earlier in the
    index contains the element's centre. *)
Theorem item_inside_page_is_assigned (b : LocalBounds) (M : Matrix)
  (before after : list PageGeometricInfo) (pg : PageGeometricInfo) :
  bounds_is_zero b = false ->
  aabb_within (box_of b M) (global_aabb pg) ->
  Forall (fun q => ~ aabb_contains (global_aabb q)
                     (fst (snd (item_geometry b M))) (snd (snd (item_geometry b M))))
    before ->
  find_page_for_item_center (fst (snd (item_geometry b M))) (snd (snd (item_geometry b M)))
    (before ++ pg :: after)
  = Some (pg_id pg).
Proof.
  intros Hz Hin Hbefore. apply find_page_some. exists before, pg, after.
  split; [reflexivity|]. split; [reflexivity|]. split; [|exact Hbefore].
  unfold item_geometry. rewrite Hz. cbn [negb fst snd].
  pose proof (center_in_box b M) as Hc. cbv zeta in Hc.
  fold (box_of b M). unfold aabb_contains in *. unfold aabb_within in Hin.
  destruct Hc as [[C1 C2] [C3 C4]]. destruct Hin as [[I1 I2] [I3 I4]].
  repeat split; lra.
Qed.

(** X7. When at most one page id owns a point, the order of the page index
    plays no part: every rearrangement of the pages gives the same owner. *)
Theorem find_owner_order_irrelevant (px py : Q) (pages pages' : list PageGeometricInfo) :
  Permutation pages pages' ->
  (forall p q, In p pages -> In q pages ->
               aabb_contains (global_aabb p) px py ->
               aabb_contains (global_aabb q) px py -> pg_id p = pg_id q) ->
  find_page_for_item_center px py pages = find_page_for_item_center px py pages'.
Proof.
  intros Hperm Huniq.
  destruct (find_page_for_item_center px py pages) as [pid|] eqn:E.
  - apply find_page_some in E as (before & pg & after & -> & -> & Hpg & _).
    assert (Hin : In pg (before ++ pg :: after)) by (apply in_elt).
    destruct (find_page_for_item_center px py pages') as [pid'|] eqn:E'.
    + apply find_page_some in E' as (before' & pg' & after' & Heq & -> & Hpg' & _).
      f_equal. apply Huniq; try assumption.
      apply (Permutation_in _ (Permutation_sym Hperm)). rewrite Heq. apply in_elt.
    + apply find_page_none in E'. rewrite List.Forall_forall in E'.
      exfalso. apply (E' pg); [|exact Hpg].
      apply (Permutation_in _ Hperm). exact Hin.
  - symmetry. apply find_page_none. apply find_page_none in E.
    rewrite List.Forall_forall in *. intros q Hq. apply E.
    apply (Permutation_in _ (Permutation_sym Hperm)). exact Hq.
Qed.

(** ** Further properties of the parsers *)

Lemma string_append_cons (x : ascii) (a b : string) :
  String.append (String x a) b = String x (String.append a b).
Proof. reflexivity. Qed.

Lemma string_append_nil (b : string) : String.append EmptyString b = b.
Proof. reflexivity. Qed.

Lemma string_append_assoc (a b c : string) :
  String.append (String.append a b) c = String.append a (String.append b c).
Proof.
  induction a as [|x a IH]; [reflexivity|].
  rewrite !string_append_cons, IH. reflexivity.
Qed.

Lemma string_append_empty (a : string) : String.append a EmptyString = a.
Proof.
  induction a as [|x a IH]; [reflexivity|]. rewrite string_append_cons, IH. reflexivity.
Qed.

Lemma string_all_append (f : ascii -> bool) (a b : string) :
  string_all f (String.append a b) = string_all f a && string_all f b.
Proof.
  induction a as [|x a IH]; [reflexivity|].
  rewrite string_append_cons. cbn [string_all]. rewrite IH, andb_assoc. reflexivity.
Qed.

Lemma py_split_from_tokens (s : string) :
  forall cur, unbroken cur = true -> Forall (fun t => is_token t = true) (py_split_from cur s).
Proof.
  induction s as [|c s IH]; intros cur Hcur; cbn [py_split_from].
  - destruct cur; constructor; [exact Hcur|constructor].
  - destruct (is_py_space c) eqn:E.
    + destruct cur; [apply IH; reflexivity|].
      constructor; [exact Hcur|apply IH; reflexivity].
    + apply IH. unfold unbroken in *. rewrite string_all_append, Hcur. cbn. rewrite E.
      reflexivity.
Qed.

Lemma py_split_from_ascii (s : string) :
  forall cur, ascii_only cur = true -> ascii_only s = true ->
              Forall (fun t => ascii_only t = true) (py_split_from cur s).
Proof.
  induction s as [|c s IH]; intros cur Hcur Hs; cbn [py_split_from].
  - destruct cur; constructor; [exact Hcur|constructor].
  - unfold ascii_only in Hs. cbn [string_all] in Hs. apply andb_true_iff in Hs as [Hc Hs].
    destruct (is_py_space c).
    + destruct cur; [apply IH; [reflexivity|exact Hs]|].
      constructor; [exact Hcur|apply IH; [reflexivity|exact Hs]].
    + apply IH; [|exact Hs]. unfold ascii_only in *.
      rewrite string_all_append, Hcur. cbn [string_all andb]. rewrite Hc. reflexivity.
Qed.

(** X8. On a string of ASCII characters, every item that [split()] returns
    is non-empty, holds ASCII characters only and none of them is a
    separator. *)
Theorem split_gives_tokens (s : string) :
  ascii_only s = true ->
  Forall (fun t => is_token t = true /\ ascii_only t = true) (py_split s).
Proof.
  intros Hs. apply List.Forall_and.
  - apply py_split_from_tokens. reflexivity.
  - apply py_split_from_ascii; [reflexivity|exact Hs].
Qed.

Lemma py_split_from_unbroken (t rest : string) :
  forall cur, unbroken t = true ->
              py_split_from cur (String.append t rest)
              = py_split_from (String.append cur t) rest.
Proof.
  induction t as [|c t IH]; intros cur Ht.
  - rewrite string_append_nil, string_append_empty. reflexivity.
  - unfold unbroken in Ht. cbn [string_all] in Ht. apply andb_true_iff in Ht as [Hc Ht].
    apply negb_true_iff in Hc. rewrite string_append_cons. cbn [py_split_from]. rewrite Hc.
    rewrite (IH _ Ht), string_append_assoc, string_append_cons, string_append_nil.
    reflexivity.
Qed.

Lemma py_split_from_blank_end (ws : string) :
  forall cur, blank ws = true ->
              py_split_from cur ws = match cur with EmptyString => [] | _ => [cur] end.
Proof.
  induction ws as [|c ws IH]; intros cur Hws; cbn [py_split_from]; [reflexivity|].
  unfold blank in Hws. cbn [string_all] in Hws. apply andb_true_iff in Hws as [Hc Hws].
  rewrite Hc. destruct cur; rewrite (IH _ Hws); reflexivity.
Qed.

Lemma py_split_from_blank_start (ws rest : string) :
  blank ws = true ->
  py_split_from EmptyString (String.append ws rest) = py_split_from EmptyString rest.
Proof.
  induction ws as [|c ws IH]; intros Hws; [reflexivity|].
  unfold blank in Hws. cbn [string_all] in Hws. apply andb_true_iff in Hws as [Hc Hws].
  rewrite string_append_cons. cbn [py_split_from]. rewrite Hc. apply IH, Hws.
Qed.

Lemma py_split_joined (tokens : list string) (trail : string) :
  Forall (fun t => is_token t = true) tokens -> blank trail = true ->
  py_split_from EmptyString (String.append (join_space tokens) trail) = tokens.
Proof.
  intros Htok Htrail. induction Htok as [|t rest Ht Hrest IH]; cbn [join_space].
  - rewrite string_append_nil. apply (py_split_from_blank_end trail EmptyString Htrail).
  - assert (Hu : unbroken t = true) by (destruct t; [discriminate|exact Ht]).
    destruct rest as [|t2 rest].
    + rewrite (py_split_from_unbroken t trail EmptyString Hu), string_append_nil.
      rewrite (py_split_from_blank_end trail t Htrail). destruct t; [discriminate|reflexivity].
    + rewrite string_append_assoc, (py_split_from_unbroken t _ EmptyString Hu).
      rewrite string_append_nil, string_append_cons. cbn [py_split_from].
      change (is_py_space " "%char) with true. cbv iota.
      destruct t; [discriminate|]. f_equal. exact IH.
Qed.

Lemma split_join_round_trip_aux (tokens : list string) (lead trail : string) :
  Forall (fun t => is_token t = true) tokens ->
  blank lead = true -> blank trail = true ->
  py_split (String.append lead (String.append (join_space tokens) trail)) = tokens.
Proof.
  intros Htok Hlead Htrail. unfold py_split.
  rewrite (py_split_from_blank_start lead _ Hlead). apply py_split_joined; assumption.
Qed.

(** X9. Splitting gives back the tokens that were joined with single
    blanks, also with separator characters in front and behind: for tokens
    of ASCII characters that are non-empty and free of separators,
    [(lead + " ".join(tokens) + trail).split() == tokens]. *)
Theorem split_join_round_trip (tokens : list string) (lead trail : string) :
  Forall (fun t => is_token t = true /\ ascii_only t = true) tokens ->
  blank lead = true -> blank trail = true ->
  py_split (String.append lead (String.append (join_space tokens) trail)) = tokens.
Proof.
  intros Htok. apply split_join_round_trip_aux.
  eapply List.Forall_impl; [|exact Htok]. intros t [Ht _]. exact Ht.
Qed.

Lemma map_float_length (parts : list string) (vs : list Q) :
  map_float parts = Some vs -> length vs = length parts.
Proof.
  revert vs. induction parts as [|p parts IH]; intros vs; cbn [map_float].
  - intros [= <-]. reflexivity.
  - destruct (py_float p); [|discriminate].
    destruct (map_float parts) as [xs|]; [|discriminate].
    intros [= <-]. cbn. rewrite (IH xs eq_refl). reflexivity.
Qed.

Lemma map_float_rejects (parts : list string) (t : string) :
  In t parts -> py_float t = None -> map_float parts = None.
Proof.
  induction parts as [|p parts IH]; intros Hin Ht; [destruct Hin|].
  cbn [map_float]. destruct Hin as [->|Hin].
  - rewrite Ht. reflexivity.
  - destruct (py_float p); [|reflexivity]. rewrite (IH Hin Ht). reflexivity.
Qed.

Lemma parse_transform_default (s : string) :
  (forall vs, map_float (py_split s) = Some vs -> length vs <> 6%nat) ->
  parse_transform_matrix (Some s) = identity_matrix.
Proof.
  intros H. unfold parse_transform_matrix.
  destruct (negb (py_truthy (Some s))); [reflexivity|].
  destruct (map_float (py_split s)) as [vs|]; [|reflexivity].
  specialize (H vs eq_refl).
  destruct vs as [|? [|? [|? [|? [|? [|? [|? ?]]]]]]]; try reflexivity.
  exfalso. apply H. reflexivity.
Qed.

Lemma parse_bounds_default (s : string) :
  (forall vs, map_float (py_split s) = Some vs -> length vs <> 4%nat) ->
  parse_geometric_bounds (Some s) = zero_bounds.
Proof.
  intros H. unfold parse_geometric_bounds.
  destruct (negb (py_truthy (Some s))); [reflexivity|].
  destruct (map_float (py_split s)) as [vs|]; [|reflexivity].
  specialize (H vs eq_refl).
  destruct vs as [|? [|? [|? [|? [|? ?]]]]]; try reflexivity.
  exfalso. apply H. reflexivity.
Qed.

(** X10. The parsers fall back to their defaults and never fail: a
    transform string that does not split into exactly six items, or that
    has an item [float] rejects, gives the identity; a bounds string that
    does not split into exactly four items, or has a rejected item, gives
    the all-zero bounds. *)
Theorem parsers_fall_back (s : string) :
  (length (py_split s) <> 6%nat -> parse_transform_matrix (Some s) = identity_matrix) /\
  (length (py_split s) <> 4%nat -> parse_geometric_bounds (Some s) = zero_bounds) /\
  (forall t, In t (py_split s) -> py_float t = None ->
             parse_transform_matrix (Some s) = identity_matrix /\
             parse_geometric_bounds (Some s) = zero_bounds).
Proof.
  split; [|split].
  - intros Hlen. apply parse_transform_default. intros vs Hvs.
    rewrite (map_float_length _ _ Hvs). exact Hlen.
  - intros Hlen. apply parse_bounds_default. intros vs Hvs.
    rewrite (map_float_length _ _ Hvs). exact Hlen.
  - intros t Hin Ht. pose proof (map_float_rejects _ t Hin Ht) as Hnone.
    split; [apply parse_transform_default|apply parse_bounds_default];
      intros vs Hvs; congruence.
Qed.

(** X11. A transform written as six numbers separated by single blanks,
    with any separator characters around, parses to these six numbers in
    order; a bounds string of four numbers likewise. *)
Theorem parsers_read_numbers (lead trail : string) (ts : list string) (vs : list Q) :
  Forall (fun t => is_token t = true) ts ->
  blank lead = true -> blank trail = true ->
  map_float ts = Some vs ->
  let s := String.append lead (String.append (join_space ts) trail) in
  (forall a b c d tx ty,
     vs = [a; b; c; d; tx; ty] -> parse_transform_matrix (Some s) = (a, b, c, d, tx, ty)) /\
  (forall ly1 lx1 ly2 lx2,
     vs = [ly1; lx1; ly2; lx2] -> parse_geometric_bounds (Some s) = (ly1, lx1, ly2, lx2)).
Proof.
  intros Htok Hlead Htrail Hvs. cbv zeta.
  pose proof (split_join_round_trip_aux ts lead trail Htok Hlead Htrail) as Hsplit.
  assert (Hne : forall n, length vs = S n ->
                 py_truthy (Some (String.append lead (String.append (join_space ts) trail)))
                 = true).
  { intros n Hn.
    destruct (String.append lead (String.append (join_space ts) trail)) eqn:E;
      [|reflexivity].
    try rewrite E in Hsplit. cbn in Hsplit. subst ts. cbn in Hvs. injection Hvs as <-.
    discriminate Hn. }
  split.
  - intros a b c d tx ty ->. unfold parse_transform_matrix.
    rewrite (Hne 5%nat eq_refl), Hsplit, Hvs. reflexivity.
  - intros ly1 lx1 ly2 lx2 ->. unfold parse_geometric_bounds.
    rewrite (Hne 3%nat eq_refl), Hsplit, Hvs. reflexivity.
Qed.

(** ** Further properties of the bounds resolver *)

(** X12. The bounds read from a path geometry have ordered edges and
    enclose every anchor point that parsed; there is at least one such
    point, and the point array is the one under [Properties] when there is
    one, else the first one under a [PathGeometry] anywhere below. *)
Theorem path_bounds_enclose_anchors (tf_element : Element) (by1 bx1 by2 bx2 : Q) :
  get_local_bounds_from_path_geometry tf_element = Some (by1, bx1, by2, bx2) ->
  by1 <= by2 /\ bx1 <= bx2 /\
  exists array,
    (find_path "Properties" ["PathGeometry"; "GeometryPathType"; "PathPointArray"] tf_element
       = Some array \/
     find_path "Properties" ["PathGeometry"; "GeometryPathType"; "PathPointArray"] tf_element
       = None /\
     find_path "PathGeometry" ["GeometryPathType"; "PathPointArray"] tf_element = Some array) /\
    anchor_points (children_tagged "PathPointType" array) <> [] /\
    Forall (fun p => (bx1 <= fst p /\ fst p <= bx2) /\ (by1 <= snd p /\ snd p <= by2))
      (anchor_points (children_tagged "PathPointType" array)).
Proof.
  unfold get_local_bounds_from_path_geometry.
  set (first := find_path "Properties" _ tf_element).
  set (second := find_path "PathGeometry" _ tf_element).
  intros H.
  assert (Harr : exists array,
             (first = Some array \/ first = None /\ second = Some array) /\
             match anchor_points (children_tagged "PathPointType" array) with
             | [] => None
             | p :: ps =>
                 Some (py_min (snd p) (List.map snd ps), py_min (fst p) (List.map fst ps),
                       py_max (snd p) (List.map snd ps), py_max (fst p) (List.map fst ps))
             end = Some (by1, bx1, by2, bx2)).
  { destruct first as [a|]; [exists a; split; [left; reflexivity|exact H]|].
    destruct second as [a|]; [|discriminate].
    exists a. split; [right; split; reflexivity|exact H]. }
  destruct Harr as (array & Hwhich & Hb). clear H.
  destruct (anchor_points (children_tagged "PathPointType" array)) as [|p ps] eqn:Ea;
    [discriminate|].
  injection Hb as <- <- <- <-.
  pose proof (box_ordered p ps) as [Ox Oy].
  pose proof (box_encloses_points (p :: ps)) as Henc.
  cbn [get_axis_aligned_bounding_box x1 y1 x2 y2] in Ox, Oy.
  split; [exact Oy|]. split; [exact Ox|].
  exists array. split; [exact Hwhich|]. rewrite Ea. split; [discriminate|].
  exact Henc.
Qed.

(** X13. For a text container the bounds of its path geometry win whenever
    it has one with a valid anchor, even if they are all zero; otherwise,
    and for every element that is neither an image nor a text container,
    the bounds are what [parse_geometric_bounds] makes of the element's
    bounds attribute (all zero when it is missing, empty or malformed). *)
Theorem text_frame_bounds_precedence (element : Element) :
  (tag_of element = "TextFrame" ->
   match get_local_bounds_from_path_geometry element with
   | Some path_gb => determined_local_bounds element = path_gb
   | None => determined_local_bounds element
             = parse_geometric_bounds (get element "GeometricBounds")
   end) /\
  (tag_of element <> "Image" -> tag_of element <> "TextFrame" ->
   determined_local_bounds element = parse_geometric_bounds (get element "GeometricBounds")).
Proof.
  unfold determined_local_bounds, resolve_local_bounds. split.
  - intros ->. change (String.eqb "TextFrame" "Image") with false.
    change (String.eqb "TextFrame" "TextFrame") with true. cbv iota.
    destruct (get_local_bounds_from_path_geometry element); [reflexivity|].
    destruct (get element "GeometricBounds") as [s|] eqn:E; [|reflexivity].
    destruct (py_truthy (Some s)) eqn:T; [reflexivity|].
    unfold parse_geometric_bounds. rewrite T. reflexivity.
  - intros H1 H2. apply String.eqb_neq in H1, H2. rewrite H1, H2. reflexivity.
Qed.

(** ** Further properties of the walk *)

Lemma process_image_content (element : Element) (parent_element : option Element)
  (assigned : option string) (box : AABB) (st : WalkState) :
  let element_id := get_default element "Self" "UnknownID" in
  pages_content_map (process_image element parent_element assigned box st) =
  match assigned, find_path "Link" [] element with
  | Some pid, Some le =>
      match get le "LinkResourceURI", dict_get pid (pages_content_map st) with
      | Some u, Some pd =>
          if py_truthy (Some pid) && py_truthy (Some u) && negb (image_recorded u element_id pd)
          then dict_set pid
                 (mkPageData (name pd)
                    (images pd ++ [mkImageItem u element_id (fst (container_of parent_element))
                                     (snd (container_of parent_element)) box
                                     (get element "ItemTransform")])
                    (texts pd))
                 (pages_content_map st)
          else pages_content_map st
      | _, _ => pages_content_map st
      end
  | _, _ => pages_content_map st
  end.
Proof.
  cbv zeta. unfold process_image, image_recorded, container_of.
  destruct assigned as [pid|]; [|reflexivity].
  destruct (py_truthy (Some pid)); cbn [andb].
  - destruct (find_path "Link" [] element) as [le|]; [|reflexivity].
    destruct (get le "LinkResourceURI") as [u|]; [|reflexivity].
    destruct (py_truthy (Some u)); cbn [andb].
    + destruct (dict_get pid (pages_content_map st)) as [pd|]; [|reflexivity].
      destruct (match parent_element with Some _ => _ | None => _ end) as [ctag cid].
      cbn [fst snd]. destruct (negb _); reflexivity.
    + destruct (dict_get pid (pages_content_map st)); reflexivity.
  - destruct (find_path "Link" [] element) as [le|]; [|reflexivity].
    destruct (get le "LinkResourceURI"); [|reflexivity].
    destruct (dict_get pid (pages_content_map st)); reflexivity.
Qed.

Lemma process_image_rest (element : Element) (parent_element : option Element)
  (assigned : option string) (box : AABB) (st : WalkState) :
  story_cache (process_image element parent_element assigned box st) = story_cache st.
Proof.
  unfold process_image.
  repeat match goal with
         | |- context [match ?x with _ => _ end] => destruct x
         end; reflexivity.
Qed.

(** X14. An image adds an item to a page's list exactly when a page was
    assigned to its centre, a [Link] below it carries a non-empty resource
    uri, and no item with the same uri and element id is in that page's
    list; the item goes last and records the parent's tag and id as its
    container.  In every other case the page contents stay as they are, and
    an image never touches the story cache or prints. *)
Theorem image_item_appended_iff (element : Element) (parent_element : option Element)
  (assigned : option string) (box : AABB) (st : WalkState) :
  let element_id := get_default element "Self" "UnknownID" in
  let st' := process_image element parent_element assigned box st in
  (forall pid le u pd,
     assigned = Some pid -> pid <> "" ->
     find_path "Link" [] element = Some le ->
     get le "LinkResourceURI" = Some u -> u <> "" ->
     dict_get pid (pages_content_map st) = Some pd ->
     image_recorded u element_id pd = false ->
     pages_content_map st' =
       dict_set pid
         (mkPageData (name pd)
            (images pd ++ [mkImageItem u element_id (fst (container_of parent_element))
                             (snd (container_of parent_element)) box
                             (get element "ItemTransform")])
            (texts pd))
         (pages_content_map st)) /\
  (~ (exists pid le u pd,
        assigned = Some pid /\ pid <> "" /\
        find_path "Link" [] element = Some le /\
        get le "LinkResourceURI" = Some u /\ u <> "" /\
        dict_get pid (pages_content_map st) = Some pd /\
        image_recorded u element_id pd = false) ->
   pages_content_map st' = pages_content_map st) /\
  story_cache st' = story_cache st /\ stdout st' = stdout st.
Proof.
  cbv zeta. split; [|split; [|split]].
  - intros pid le u pd -> Hpid Hle Hu Hne Hpd Hrec.
    rewrite process_image_content, Hle, Hu, Hpd, Hrec.
    apply py_truthy_some in Hpid, Hne. rewrite Hpid, Hne. reflexivity.
  - intros Hnot. rewrite process_image_content.
    destruct assigned as [pid|]; [|reflexivity].
    destruct (find_path "Link" [] element) as [le|]; [|reflexivity].
    destruct (get le "LinkResourceURI") as [u|] eqn:Hu; [|reflexivity].
    destruct (dict_get pid _) as [pd|] eqn:Hpd; [|reflexivity].
    destruct (py_truthy (Some pid)) eqn:H1; [|reflexivity].
    destruct (py_truthy (Some u)) eqn:H2; [|reflexivity].
    destruct (image_recorded _ _ pd) eqn:H3; [reflexivity|].
    exfalso. apply Hnot. exists pid, le, u, pd.
    apply py_truthy_some in H1, H2. repeat split; auto.
  - apply process_image_rest.
  - apply stdout_image.
Qed.

(** What holds before an element is walked and is kept by printing, by a
    text container and by an image holds after the walk of the element. *)
Lemma walk_preserves (P : WalkState -> Prop) :
  (forall out st, P st -> P (emit out st)) ->
  (forall indent element assigned box st,
     P st -> P (process_text_frame indent element assigned box st)) ->
  (forall element parent_element assigned box st,
     P st -> P (process_image element parent_element assigned box st)) ->
  forall (element : Element) (parent_element : option Element) (M : Matrix)
         (pages : list PageGeometricInfo) (depth : nat) (st : WalkState),
    P st -> P (process_spread_element_recursively element parent_element M pages depth st).
Proof.
  intros Hemit Htext Himage element.
  induction element as [t a cs IH] using Element_ind.
  intros parent_element M pages depth st HP.
  cbn [process_spread_element_recursively].
  assert (Hstep : P (fst (process_element (Elem t a cs) parent_element M pages depth st))).
  { rewrite process_element_uses_geometry.
    destruct (String.eqb (tag_of (Elem t a cs)) "TextFrame");
      [apply Htext; apply Hemit, Hemit, HP|].
    destruct (String.eqb (tag_of (Elem t a cs)) "Image");
      [apply Himage; apply Hemit, Hemit, HP|apply Hemit, Hemit, HP]. }
  destruct (process_element (Elem t a cs) parent_element M pages depth st) as [st2 G].
  cbn [fst] in Hstep. destruct (recursable t); [|exact Hstep].
  revert st2 Hstep. generalize (Some (Elem t a cs)) as parent.
  induction IH as [|c cs' Hc _ IHcs]; intros parent st2 Hstep; cbn [fold_left].
  - exact Hstep.
  - apply IHcs. apply Hc. exact Hstep.
Qed.

Lemma spread_walk_preserves (P : WalkState -> Prop) :
  (forall out st, P st -> P (emit out st)) ->
  (forall indent element assigned box st,
     P st -> P (process_text_frame indent element assigned box st)) ->
  (forall element parent_element assigned box st,
     P st -> P (process_image element parent_element assigned box st)) ->
  forall (spread_element : Element) (M : Matrix) (pages : list PageGeometricInfo)
         (cs : list Element) (st : WalkState),
    P st ->
    P (fold_left
         (fun s child_el =>
            if skipped_child (tag_of child_el) then s
            else process_spread_element_recursively child_el (Some spread_element)
                   M pages 0 s)
         cs st).
Proof.
  intros Hemit Htext Himage spread_element M pages cs.
  induction cs as [|c cs IH]; intros st HP; cbn [fold_left]; [exact HP|].
  apply IH. destruct (skipped_child (tag_of c)); [exact HP|].
  apply walk_preserves; assumption.
Qed.

(** *** Invariants of the page contents *)

Lemma dict_get_in {V : Type} (k : string) (v : V) (d : Dict V) :
  dict_get k d = Some v -> In (k, v) d.
Proof.
  induction d as [|[k' v'] d IH]; cbn [dict_get]; [discriminate|].
  destruct (String.eqb k k') eqn:E.
  - apply String.eqb_eq in E. subst k'. intros [= ->]. left. reflexivity.
  - intros H. right. apply IH, H.
Qed.

Lemma dict_set_in {V : Type} (k k0 : string) (v v0 : V) (d : Dict V) :
  In (k, v) (dict_set k0 v0 d) -> (k, v) = (k0, v0) \/ In (k, v) d.
Proof.
  induction d as [|[k' v'] d IH]; cbn [dict_set].
  - intros [H|[]]. left. symmetry. exact H.
  - destruct (String.eqb k0 k') eqn:E.
    + apply String.eqb_eq in E. subst k'. intros [H|H]; [left; symmetry; exact H|].
      right. right. exact H.
    + intros [H|H]; [right; left; exact H|].
      destruct (IH H) as [H'|H']; [left; exact H'|right; right; exact H'].
Qed.

Lemma NoDup_snoc {A : Type} (l : list A) (x : A) :
  List.NoDup l -> ~ In x l -> List.NoDup (l ++ [x]).
Proof.
  induction 1 as [|y l Hy Hl IH]; intros Hx; cbn [app].
  - constructor; [intros []|constructor].
  - constructor.
    + intros Hin. apply in_app_or in Hin as [Hin|[<-|[]]]; [exact (Hy Hin)|].
      apply Hx. left. reflexivity.
    + apply IH. intros Hin. apply Hx. right. exact Hin.
Qed.

Lemma frame_not_recorded (element_id : string) (pd : PageData) :
  frame_recorded element_id pd = false ->
  ~ In element_id (List.map text_frame_id (texts pd)).
Proof.
  unfold frame_recorded. intros H Hin. apply in_map_iff in Hin as (t & <- & Ht).
  assert (Htrue : existsb (fun tf => String.eqb (text_frame_id tf) (text_frame_id t))
                    (texts pd) = true).
  { apply existsb_exists. exists t. split; [exact Ht|apply String.eqb_refl]. }
  congruence.
Qed.

Lemma image_not_recorded (u element_id : string) (pd : PageData) :
  image_recorded u element_id pd = false ->
  ~ In (u, element_id) (List.map image_key (images pd)).
Proof.
  unfold image_recorded. intros H Hin. apply in_map_iff in Hin as (i & Hkey & Hi).
  unfold image_key in Hkey. injection Hkey as <- <-.
  assert (Htrue : existsb (fun j => String.eqb (uri j) (uri i)
                                    && String.eqb (image_element_id j) (image_element_id i))
                    (images pd) = true).
  { apply existsb_exists. exists i. split; [exact Hi|]. rewrite !String.eqb_refl. reflexivity. }
  congruence.
Qed.

(** The two ways a walk step leaves the contents: as they were, or with
    one page's entry replaced. *)
Lemma entries_after_set (Q : PageData -> Prop) (m : Dict PageData) (pid : string)
  (pd' : PageData) :
  (forall k v, In (k, v) m -> Q v) -> Q pd' ->
  forall k v, In (k, v) (dict_set pid pd' m) -> Q v.
Proof.
  intros Hm Hpd' k v Hin. apply dict_set_in in Hin as [[= -> ->]|Hin]; [exact Hpd'|].
  apply (Hm k v Hin).
Qed.

Lemma content_unique_text_frame (indent : nat) (element : Element)
  (assigned : option string) (box : AABB) (st : WalkState) :
  content_unique (pages_content_map st) ->
  content_unique (pages_content_map (process_text_frame indent element assigned box st)).
Proof.
  intros H. rewrite process_text_frame_content.
  destruct assigned as [pid|]; [|exact H].
  destruct (get element "ParentStory") as [story|]; [|exact H].
  destruct (dict_get pid (pages_content_map st)) as [pd|] eqn:Hpd; [|exact H].
  destruct (frame_recorded _ pd) eqn:Hrec;
    [rewrite andb_false_r; exact H|].
  match goal with |- context [if ?c then _ else _] => destruct c end; [|exact H].
  unfold content_unique. apply entries_after_set; [exact H|].
  destruct (H pid pd (dict_get_in _ _ _ Hpd)) as [Ht Hi].
  split; cbn [texts images]; [|exact Hi].
  rewrite map_app. cbn [List.map text_frame_id].
  apply NoDup_snoc; [exact Ht|]. apply frame_not_recorded, Hrec.
Qed.

Lemma content_unique_image (element : Element) (parent_element : option Element)
  (assigned : option string) (box : AABB) (st : WalkState) :
  content_unique (pages_content_map st) ->
  content_unique (pages_content_map (process_image element parent_element assigned box st)).
Proof.
  intros H. rewrite process_image_content.
  destruct assigned as [pid|]; [|exact H].
  destruct (find_path "Link" [] element) as [le|]; [|exact H].
  destruct (get le "LinkResourceURI") as [u|]; [|exact H].
  destruct (dict_get pid (pages_content_map st)) as [pd|] eqn:Hpd; [|exact H].
  destruct (image_recorded u _ pd) eqn:Hrec;
    [rewrite andb_false_r; exact H|].
  match goal with |- context [if ?c then _ else _] => destruct c end; [|exact H].
  unfold content_unique. apply entries_after_set; [exact H|].
  destruct (H pid pd (dict_get_in _ _ _ Hpd)) as [Ht Hi].
  split; cbn [texts images]; [exact Ht|].
  rewrite map_app. cbn [List.map image_key uri image_element_id].
  apply NoDup_snoc; [exact Hi|]. apply image_not_recorded, Hrec.
Qed.

Lemma build_pages_entries (Q : PageData -> Prop) (sheet_base : Matrix)
  (page_els : list Element) :
  (forall n, Q (mkPageData n [] [])) ->
  forall (content : Dict PageData) (pages : list PageGeometricInfo),
    (forall k v, In (k, v) content -> Q v) ->
    forall k v, In (k, v) (fst (build_pages sheet_base page_els content pages)) -> Q v.
Proof.
  intros Hempty. induction page_els as [|page_el rest IH]; intros content pages Hc;
    cbn [build_pages]; [exact Hc|].
  destruct (get page_el "Self") as [self|]; [|apply IH, Hc].
  destruct (py_truthy (Some self)); [|apply IH, Hc].
  apply IH. destruct (dict_get self content); [exact Hc|].
  apply entries_after_set; [exact Hc|apply Hempty].
Qed.

Lemma sheet_content_preserves (P : WalkState -> Prop) (Q : PageData -> Prop) :
  (forall out st, P st -> P (emit out st)) ->
  (forall indent element assigned box st,
     P st -> P (process_text_frame indent element assigned box st)) ->
  (forall element parent_element assigned box st,
     P st -> P (process_image element parent_element assigned box st)) ->
  (forall n, Q (mkPageData n [] [])) ->
  forall (spread_element : Element) (cache cache' : gmap string string)
         (out out' : list Event) (content : Dict PageData) (pages : list PageGeometricInfo),
    (forall m, (forall k v, In (k, v) m -> Q v) -> P (mkWalkState m cache out)) ->
    get_page_content_from_spread spread_element cache out
      = (SpreadContent content pages, cache', out') ->
    exists st, P st /\ pages_content_map st = content /\ story_cache st = cache'.
Proof.
  intros Hemit Htext Himage Hempty spread_element cache cache' out out' content pages Hinit.
  unfold get_page_content_from_spread.
  pose proof (build_pages_entries Q (parse_transform_matrix (get spread_element "ItemTransform"))
                (descendants_tagged "Page" spread_element) Hempty [] []) as Hbuild.
  destruct (build_pages _ _ [] []) as [c0 pages0]. cbn [fst] in Hbuild.
  destruct pages0 as [|pg pages0]; [discriminate|].
  intros [= <- <- <- _]. eexists. split; [|split; reflexivity].
  apply spread_walk_preserves; try assumption.
  apply Hinit. apply Hbuild. intros k v [].
Qed.

Lemma same_image_key (a b : ImageItem) :
  same_image a b = true <-> image_key a = image_key b.
Proof.
  unfold same_image, image_key. rewrite andb_true_iff, !String.eqb_eq. split.
  - intros [-> ->]. reflexivity.
  - intros [= -> ->]. split; reflexivity.
Qed.

Lemma merge_images_unique (incoming : list ImageItem) :
  forall existing,
    List.NoDup (List.map image_key existing) ->
    List.NoDup (List.map image_key (merge_images existing incoming)).
Proof.
  unfold merge_images. induction incoming as [|i incoming IH]; intros existing H;
    cbn [fold_left]; [exact H|].
  destruct (existsb (fun e => same_image e i) existing) eqn:E; cbn [negb];
    apply IH; [exact H|].
  rewrite map_app. cbn [List.map]. apply NoDup_snoc; [exact H|].
  intros Hin. apply in_map_iff in Hin as (e & Hkey & He).
  assert (Htrue : existsb (fun e => same_image e i) existing = true).
  { apply existsb_exists. exists e. split; [exact He|]. apply same_image_key, Hkey. }
  congruence.
Qed.

Lemma merge_texts_from_unique (incoming : list TextItem) :
  forall (existing : list TextItem) (ids : gset string),
    (forall x, x ∈ ids <-> In x (List.map text_frame_id existing)) ->
    List.NoDup (List.map text_frame_id existing) ->
    List.NoDup (List.map text_frame_id (fst (merge_texts_from incoming (existing, ids)))).
Proof.
  unfold merge_texts_from.
  induction incoming as [|t incoming IH]; intros existing ids Hids H; cbn [fold_left];
    [exact H|].
  destruct (bool_decide (text_frame_id t ∈ ids)) eqn:E; [apply IH; assumption|].
  apply bool_decide_eq_false in E. apply IH.
  - intros x. rewrite elem_of_union, elem_of_singleton, Hids, map_app, in_app_iff.
    cbn. split.
    + intros [->|Hx]; [right; left; reflexivity|left; exact Hx].
    + intros [Hx|[->|[]]]; [right; exact Hx|left; reflexivity].
  - rewrite map_app. cbn [List.map]. apply NoDup_snoc; [exact H|].
    intros Hin. apply E, Hids, Hin.
Qed.

Lemma merge_texts_unique (existing incoming : list TextItem) :
  List.NoDup (List.map text_frame_id existing) ->
  List.NoDup (List.map text_frame_id (merge_texts existing incoming)).
Proof.
  unfold merge_texts. apply merge_texts_from_unique.
  intros x. rewrite elem_of_list_to_set. apply list_elem_of_In.
Qed.

Lemma merge_page_entries (Q : PageData -> Prop) (doc : Dict PageData) (pid : string)
  (pd : PageData) :
  (forall k v, In (k, v) doc -> Q v) ->
  Q pd ->
  (forall cur, Q cur -> Q pd ->
               Q (mkPageData (name cur) (merge_images (images cur) (images pd))
                    (merge_texts (texts cur) (texts pd)))) ->
  forall k v, In (k, v) (merge_page doc (pid, pd)) -> Q v.
Proof.
  intros Hdoc Hpd Hmerge. unfold merge_page.
  destruct (dict_get pid doc) as [cur|] eqn:Hget.
  - apply entries_after_set; [exact Hdoc|].
    apply Hmerge; [|exact Hpd]. apply (Hdoc pid cur). apply dict_get_in, Hget.
  - apply entries_after_set; assumption.
Qed.

Lemma merge_spread_entries (Q : PageData -> Prop) (sheet : Dict PageData) :
  (forall cur pd, Q cur -> Q pd ->
                  Q (mkPageData (name cur) (merge_images (images cur) (images pd))
                       (merge_texts (texts cur) (texts pd)))) ->
  (forall k v, In (k, v) sheet -> Q v) ->
  forall doc,
    (forall k v, In (k, v) doc -> Q v) ->
    forall k v, In (k, v) (merge_spread doc sheet) -> Q v.
Proof.
  intros Hmerge. unfold merge_spread.
  induction sheet as [|[pid pd] sheet IH]; intros Hsheet doc Hdoc; cbn [fold_left];
    [exact Hdoc|].
  apply IH; [intros k v Hin; apply (Hsheet k v); right; exact Hin|].
  apply merge_page_entries; [exact Hdoc|apply (Hsheet pid pd); left; reflexivity|].
  intros cur Hcur Hp. apply Hmerge; assumption.
Qed.

(** An invariant of the document that every sheet's result re-establishes
    holds after the loop over the spread files. *)
Lemma process_spreads_invariant (I : ExtractState -> Prop) :
  (forall spread_element st content pages cache out,
     I st ->
     get_page_content_from_spread spread_element (run_story_cache st) (run_stdout st)
       = (SpreadContent content pages, cache, out) ->
     I (mkExtractState (merge_spread (all_page_data_by_id st) content)
          (merge_geometries (all_page_geometries st) pages) cache out)) ->
  forall (spreads : list Element) (st st' : ExtractState),
    I st -> process_spreads spreads st = Ok st' -> I st'.
Proof.
  intros Hstep spreads. induction spreads as [|spread_element rest IH];
    intros st st' HI; cbn [process_spreads].
  - intros [= <-]. exact HI.
  - destruct (get_page_content_from_spread spread_element (run_story_cache st) (run_stdout st))
      as [[res cache] out] eqn:Hres.
    destruct res as [content pages|]; [|discriminate].
    apply IH. apply (Hstep spread_element st content pages cache out HI Hres).
Qed.

(** X15. In the document that a run builds, no page holds two texts with
    the same element id or two images with the same uri and element id,
    whatever the sheets contain and however often an element recurs. *)
Theorem run_items_unique (spreads : list Element) (st : ExtractState) :
  process_spreads spreads (mkExtractState [] ∅ ∅ []) = Ok st ->
  forall pid pd,
    In (pid, pd) (all_page_data_by_id st) ->
    List.NoDup (List.map text_frame_id (texts pd)) /\
    List.NoDup (List.map (fun i => (uri i, image_element_id i)) (images pd)).
Proof.
  intros Hrun.
  apply (process_spreads_invariant (fun s => content_unique (all_page_data_by_id s)))
    with (spreads := spreads) (st := mkExtractState [] ∅ ∅ []); [| |exact Hrun].
  - intros spread_element s content pages cache out HI Hres.
    cbn [all_page_data_by_id].
    destruct (sheet_content_preserves
                (fun w => content_unique (pages_content_map w)) unique_items
                (fun out0 w H => H) content_unique_text_frame content_unique_image
                (fun n => conj (List.NoDup_nil _) (List.NoDup_nil _))
                spread_element (run_story_cache s) cache (run_stdout s) out content pages
                (fun m H => H) Hres) as (w & Hw & <- & _).
    unfold content_unique. apply merge_spread_entries; [|exact Hw|exact HI].
    intros cur pd [Ct Ci] _. split; cbn [texts images].
    + apply merge_texts_unique, Ct.
    + apply merge_images_unique, Ci.
  - intros pid pd [].
Qed.

(** *** The walk only appends *)

Lemma grown_from_refl (pd : PageData) : grown_from pd pd.
Proof.
  split; [reflexivity|]. split; exists []; rewrite app_nil_r; reflexivity.
Qed.

Lemma extends_refl (m : Dict PageData) : extends m m.
Proof.
  unfold extends. induction m as [|[k v] m IH]; constructor; [|exact IH].
  split; [reflexivity|]. apply grown_from_refl.
Qed.

Lemma extends_trans (m0 m1 m2 : Dict PageData) :
  extends m0 m1 -> extends m1 m2 -> extends m0 m2.
Proof.
  unfold extends. intros H01. revert m2.
  induction H01 as [|e0 e1 m0 m1 (Hk & Hn & [i1 Hi] & [t1 Ht]) _ IH]; intros m2 H12;
    inversion H12 as [|e1' e2 m1' m2' (Hk' & Hn' & [i2 Hi'] & [t2 Ht']) Hrest]; subst;
    constructor.
  - split; [congruence|]. split; [congruence|].
    split; [exists (i1 ++ i2)|exists (t1 ++ t2)]; rewrite app_assoc; congruence.
  - apply IH. exact Hrest.
Qed.

Lemma extends_set (m : Dict PageData) (pid : string) (pd pd' : PageData) :
  dict_get pid m = Some pd -> grown_from pd pd' -> extends m (dict_set pid pd' m).
Proof.
  intros Hget Hgrow. unfold extends.
  induction m as [|[k v] m IH]; cbn [dict_get dict_set] in *; [discriminate|].
  destruct (String.eqb pid k) eqn:E.
  - injection Hget as ->. constructor; [|apply extends_refl].
    split; [reflexivity|]. exact Hgrow.
  - constructor; [|apply IH, Hget]. split; [reflexivity|]. apply grown_from_refl.
Qed.

Lemma extends_text_frame (m0 : Dict PageData) (indent : nat) (element : Element)
  (assigned : option string) (box : AABB) (st : WalkState) :
  extends m0 (pages_content_map st) ->
  extends m0 (pages_content_map (process_text_frame indent element assigned box st)).
Proof.
  intros H. rewrite process_text_frame_content.
  destruct assigned as [pid|]; [|exact H].
  destruct (get element "ParentStory") as [story|]; [|exact H].
  destruct (dict_get pid (pages_content_map st)) as [pd|] eqn:Hpd; [|exact H].
  match goal with |- context [if ?c then _ else _] => destruct c end; [|exact H].
  apply (extends_trans _ _ _ H). apply (extends_set _ _ pd); [exact Hpd|].
  split; [reflexivity|]. split; [exists []; rewrite app_nil_r; reflexivity|].
  eexists. reflexivity.
Qed.

Lemma extends_image (m0 : Dict PageData) (element : Element)
  (parent_element : option Element) (assigned : option string) (box : AABB)
  (st : WalkState) :
  extends m0 (pages_content_map st) ->
  extends m0 (pages_content_map (process_image element parent_element assigned box st)).
Proof.
  intros H. rewrite process_image_content.
  destruct assigned as [pid|]; [|exact H].
  destruct (find_path "Link" [] element) as [le|]; [|exact H].
  destruct (get le "LinkResourceURI") as [u|]; [|exact H].
  destruct (dict_get pid (pages_content_map st)) as [pd|] eqn:Hpd; [|exact H].
  match goal with |- context [if ?c then _ else _] => destruct c end; [|exact H].
  apply (extends_trans _ _ _ H). apply (extends_set _ _ pd); [exact Hpd|].
  split; [reflexivity|]. split; [eexists; reflexivity|].
  exists []. rewrite app_nil_r. reflexivity.
Qed.

(** X16. The walk of an element only appends: afterwards the contents hold
    the same pages in the same order with the same names, and every page's
    images and texts start with the images and texts it had before; nothing
    is removed, replaced or reordered. *)
Theorem walk_only_appends (element : Element) (parent_element : option Element)
  (M : Matrix) (pages : list PageGeometricInfo) (depth : nat) (st : WalkState) :
  Forall2
    (fun before after =>
       fst after = fst before /\ name (snd after) = name (snd before) /\
       (exists more, images (snd after) = images (snd before) ++ more) /\
       (exists more, texts (snd after) = texts (snd before) ++ more))
    (pages_content_map st)
    (pages_content_map
       (process_spread_element_recursively element parent_element M pages depth st)).
Proof.
  apply (walk_preserves (fun w => extends (pages_content_map st) (pages_content_map w))).
  - intros out w H. exact H.
  - intros indent e a box w. apply extends_text_frame.
  - intros e p a box w. apply extends_image.
  - apply extends_refl.
Qed.

(** *** The story cache *)

Lemma resolve_story_cache_cases (indent : nat) (element_id story : string) (st : WalkState) :
  story_cache (resolve_story indent element_id story st) =
  match story_cache st !! story with
  | Some _ => story_cache st
  | None => <[story := file_text story]> (story_cache st)
  end.
Proof.
  unfold resolve_story, file_text.
  destruct (story_cache st !! story); [reflexivity|].
  destruct (stories_dir !! _); reflexivity.
Qed.

Lemma process_text_frame_cache (indent : nat) (element : Element)
  (assigned : option string) (box : AABB) (st : WalkState) :
  story_cache (process_text_frame indent element assigned box st) = story_cache st \/
  exists story,
    story_cache st !! story = None /\
    story_cache (process_text_frame indent element assigned box st)
      = <[story := file_text story]> (story_cache st).
Proof.
  unfold process_text_frame.
  destruct (py_truthy assigned && py_truthy (get element "ParentStory")).
  - destruct assigned as [pid|]; [|left; reflexivity].
    destruct (get element "ParentStory") as [story|]; [|left; reflexivity].
    assert (Hc : story_cache (resolve_story indent (get_default element "Self" "UnknownID")
                                story st) = story_cache st \/
                 story_cache st !! story = None /\
                 story_cache (resolve_story indent (get_default element "Self" "UnknownID")
                                story st) = <[story := file_text story]> (story_cache st)).
    { rewrite resolve_story_cache_cases.
      destruct (story_cache st !! story); [left; reflexivity|right; split; reflexivity]. }
    assert (Hsame : story_cache
                      (let st1 := resolve_story indent (get_default element "Self" "UnknownID")
                                    story st in
                       match dict_get pid (pages_content_map st1) with
                       | Some pd =>
                           if negb (existsb
                                      (fun tf => String.eqb (text_frame_id tf)
                                                   (get_default element "Self" "UnknownID"))
                                      (texts pd))
                           then
                             if py_truthy (Some (default "" (story_cache st1 !! story)))
                             then
                               mkWalkState
                                 (dict_set pid
                                    (mkPageData (name pd) (images pd)
                                       (texts pd ++
                                        [mkTextItem story
                                           (get_default element "Self" "UnknownID")
                                           (default "" (story_cache st1 !! story)) box
                                           (get element "ItemTransform")]))
                                    (pages_content_map st1))
                                 (story_cache st1)
                                 (stdout st1 ++
                                  [EvTextAdded indent
                                     (get_default element "Self" "UnknownID") story pid])
                             else emit [EvEmptyText indent
                                          (get_default element "Self" "UnknownID") story] st1
                           else st1
                       | None => st1
                       end)
                    = story_cache (resolve_story indent
                                     (get_default element "Self" "UnknownID") story st)).
    { cbv zeta. destruct (dict_get pid _); [|reflexivity].
      destruct (negb _); [|reflexivity]. destruct (py_truthy _); reflexivity. }
    cbv zeta in Hsame |- *. rewrite Hsame.
    destruct Hc as [Hc|[Hn Hc]]; [left; exact Hc|right; exists story; split; assumption].
  - left. destruct (get element "ParentStory"); [|reflexivity].
    destruct (py_truthy _); reflexivity.
Qed.

Lemma cache_faithful_insert (cache : gmap string string) (story : string) :
  cache_faithful cache -> cache_faithful (<[story := file_text story]> cache).
Proof.
  intros H s t. destruct (string_dec story s) as [<-|Hne].
  - rewrite lookup_insert_eq. intros [= <-]. reflexivity.
  - rewrite lookup_insert_ne by exact Hne. apply H.
Qed.

Lemma resolved_text_faithful (cache : gmap string string) (story : string) :
  cache_faithful cache -> resolved_text story cache = file_text story.
Proof.
  intros H. unfold resolved_text. destruct (cache !! story) as [t|] eqn:E; [|reflexivity].
  apply H, E.
Qed.

Lemma faithful_text_frame (indent : nat) (element : Element)
  (assigned : option string) (box : AABB) (st : WalkState) :
  cache_faithful (story_cache st) /\ texts_faithful (pages_content_map st) ->
  cache_faithful (story_cache (process_text_frame indent element assigned box st)) /\
  texts_faithful (pages_content_map (process_text_frame indent element assigned box st)).
Proof.
  intros [Hc Ht]. split.
  - destruct (process_text_frame_cache indent element assigned box st) as [->|(s & _ & ->)];
      [exact Hc|apply cache_faithful_insert, Hc].
  - rewrite process_text_frame_content.
    destruct assigned as [pid|]; [|exact Ht].
    destruct (get element "ParentStory") as [story|]; [|exact Ht].
    destruct (dict_get pid (pages_content_map st)) as [pd|] eqn:Hpd; [|exact Ht].
    destruct (py_truthy (Some (resolved_text story (story_cache st)))) eqn:Htc;
      [|rewrite andb_false_r; exact Ht].
    match goal with |- context [if ?c then _ else _] => destruct c end; [|exact Ht].
    intros k v t Hin.
    apply dict_set_in in Hin as [[= -> ->]|Hin]; [|exact (Ht k v t Hin)].
    cbn [texts]. intros Hin'. apply in_app_or in Hin' as [Hin'|[<-|[]]].
    + apply (Ht pid pd t); [apply dict_get_in, Hpd|exact Hin'].
    + cbn [content story_id]. split; [apply resolved_text_faithful, Hc|].
      apply py_truthy_some, Htc.
Qed.

Lemma faithful_image (element : Element) (parent_element : option Element)
  (assigned : option string) (box : AABB) (st : WalkState) :
  cache_faithful (story_cache st) /\ texts_faithful (pages_content_map st) ->
  cache_faithful (story_cache (process_image element parent_element assigned box st)) /\
  texts_faithful (pages_content_map (process_image element parent_element assigned box st)).
Proof.
  intros [Hc Ht]. rewrite process_image_rest. split; [exact Hc|].
  rewrite process_image_content.
  destruct assigned as [pid|]; [|exact Ht].
  destruct (find_path "Link" [] element) as [le|]; [|exact Ht].
  destruct (get le "LinkResourceURI") as [u|]; [|exact Ht].
  destruct (dict_get pid (pages_content_map st)) as [pd|] eqn:Hpd; [|exact Ht].
  match goal with |- context [if ?c then _ else _] => destruct c end; [|exact Ht].
  intros k v t Hin.
  apply dict_set_in in Hin as [[= -> ->]|Hin]; [|exact (Ht k v t Hin)].
  cbn [texts]. intros Hin'. apply (Ht pid pd t); [apply dict_get_in, Hpd|exact Hin'].
Qed.

Lemma run_faithful (spreads : list Element) (st : ExtractState) :
  process_spreads spreads (mkExtractState [] ∅ ∅ []) = Ok st ->
  cache_faithful (run_story_cache st) /\ texts_faithful (all_page_data_by_id st).
Proof.
  intros Hrun.
  apply (process_spreads_invariant
           (fun s => cache_faithful (run_story_cache s) /\
                     texts_faithful (all_page_data_by_id s)))
    with (spreads := spreads) (st := mkExtractState [] ∅ ∅ []); [| |exact Hrun].
  - intros spread_element s sheet pages cache out [Hc Ht] Hres.
    cbn [all_page_data_by_id run_story_cache].
    destruct (sheet_content_preserves
                (fun w => cache_faithful (story_cache w) /\
                          texts_faithful (pages_content_map w))
                (fun v => forall t, In t (texts v) ->
                                    content t = file_text (story_id t) /\ content t <> "")
                (fun out0 w H => H) faithful_text_frame faithful_image
                (fun n t (H : In t []) => match H with end)
                spread_element (run_story_cache s) cache (run_stdout s) out sheet pages
                (fun m H => conj Hc (fun k v t Hin => H k v Hin t)) Hres)
      as (w & [Hwc Hwt] & <- & <-).
    split; [exact Hwc|].
    intros k v t Hin. revert t.
    apply (merge_spread_entries
             (fun v => forall t, In t (texts v) ->
                                 content t = file_text (story_id t) /\ content t <> "")
             (pages_content_map w)) with (doc := all_page_data_by_id s) (k := k);
      [| | |exact Hin].
    + intros cur pd Hcur Hpd t. cbn [texts].
      destruct (merge_texts_appends (texts cur) (texts pd)) as (added & -> & Hadd & _).
      intros Hin'. apply in_app_or in Hin' as [Hin'|Hin']; [apply Hcur, Hin'|].
      apply Hpd. apply (Hadd t Hin').
    + intros k' v' Hin' t. apply (Hwt k' v' t Hin').
    + intros k' v' Hin' t. apply (Ht k' v' t Hin').
  - split; [intros s t H; cbn [run_story_cache] in H; rewrite lookup_empty in H;
            discriminate|intros k v t []].
Qed.

(** X17. Every text item of the document that a run builds carries the
    text of the file of its own story, and that text is not empty: the cache
    never hands out the text of another story or a stale one. *)
Theorem run_texts_come_from_files (spreads : list Element) (st : ExtractState) :
  process_spreads spreads (mkExtractState [] ∅ ∅ []) = Ok st ->
  forall pid pd t,
    In (pid, pd) (all_page_data_by_id st) -> In t (texts pd) ->
    content t
    = default "" (stories_dir !! String.append "Story_" (String.append (story_id t) ".xml")) /\
    content t <> "".
Proof.
  intros Hrun pid pd t Hin Ht.
  apply (proj2 (run_faithful spreads st Hrun) pid pd t Hin Ht).
Qed.

(** X18. A story that is in the cache keeps its text through the walk of
    any element: a story is resolved once, and the file is not read again. *)
Theorem walk_keeps_cached_stories (element : Element) (parent_element : option Element)
  (M : Matrix) (pages : list PageGeometricInfo) (depth : nat) (st : WalkState)
  (story text : string) :
  story_cache st !! story = Some text ->
  story_cache (process_spread_element_recursively element parent_element M pages depth st)
    !! story = Some text.
Proof.
  intros Hin.
  apply (walk_preserves (fun w => story_cache w !! story = Some text)); [| | |exact Hin].
  - intros out w H. exact H.
  - intros indent e a box w H.
    destruct (process_text_frame_cache indent e a box w) as [->|(s & Hnone & ->)];
      [exact H|].
    rewrite lookup_insert_ne; [exact H|]. intros <-. congruence.
  - intros e p a box w H. rewrite process_image_rest. exact H.
Qed.

(** *** The order of the pages in the document *)

Lemma has_key_spec {V : Type} (k : string) (d : Dict V) :
  has_key k d = true <-> In k (dict_keys d).
Proof.
  unfold has_key. rewrite existsb_exists. split.
  - intros (x & Hx & E). apply String.eqb_eq in E. subst x. exact Hx.
  - intros H. exists k. split; [exact H|apply String.eqb_refl].
Qed.

Lemma merge_page_keys_order (doc : Dict PageData) (pid : string) (pd : PageData) :
  dict_keys (merge_page doc (pid, pd))
  = dict_keys doc ++ (if has_key pid doc then [] else [pid]).
Proof.
  unfold merge_page.
  destruct (dict_get pid doc) as [cur|] eqn:Hget; rewrite dict_keys_set, Hget.
  - assert (H : has_key pid doc = true).
    { apply has_key_spec, dict_get_some_keys. eexists. exact Hget. }
    rewrite H, app_nil_r. reflexivity.
  - assert (H : has_key pid doc = false).
    { destruct (has_key pid doc) eqn:E; [|reflexivity].
      apply has_key_spec, dict_get_some_keys in E as [v Hv]. congruence. }
    rewrite H. reflexivity.
Qed.

(** X19. Merging a sheet keeps the pages of the document where they are
    and puts the pages that are new behind them, in the order in which the
    sheet lists them. *)
Theorem merge_keeps_page_order (sheet doc : Dict PageData) :
  List.NoDup (dict_keys sheet) ->
  dict_keys (merge_spread doc sheet)
  = dict_keys doc ++ List.filter (fun k => negb (has_key k doc)) (dict_keys sheet).
Proof.
  unfold merge_spread. revert doc.
  induction sheet as [|[pid pd] sheet IH]; intros doc Hnd; cbn [fold_left].
  - cbn. rewrite app_nil_r. reflexivity.
  - cbn [dict_keys List.map fst] in Hnd. apply List.NoDup_cons_iff in Hnd as [Hpid Hnd].
    fold (dict_keys sheet) in Hpid, Hnd.
    rewrite (IH _ Hnd), merge_page_keys_order, <- app_assoc. f_equal.
    cbn [dict_keys List.map fst List.filter]. fold (dict_keys sheet).
    assert (Hfilter : List.filter (fun k => negb (has_key k (merge_page doc (pid, pd))))
                        (dict_keys sheet)
                      = List.filter (fun k => negb (has_key k doc)) (dict_keys sheet)).
    { apply filter_ext_in. intros k Hk. f_equal.
      apply eq_true_iff_eq. rewrite !has_key_spec, merge_page_keys.
      split; [intros [H| ->]; [exact H|contradiction]|intros H; left; exact H]. }
    rewrite Hfilter. destruct (has_key pid doc); reflexivity.
Qed.

(** X20. The geometry of a page is the one of the first sheet, and within
    a sheet of the first page element, that introduced its id: a known id
    keeps its geometry, a new id gets the first entry of the list with that
    id, and an id that does not occur stays unknown. *)
Theorem first_geometry_wins (pages : list PageGeometricInfo)
  (g : gmap string PageGeometricInfo) (pid : string) :
  merge_geometries g pages !! pid =
  match g !! pid with
  | Some info => Some info
  | None => List.find (fun p => String.eqb (pg_id p) pid) pages
  end.
Proof.
  unfold merge_geometries. revert g.
  induction pages as [|pg pages IH]; intros g; cbn [fold_left List.find].
  - destruct (g !! pid); reflexivity.
  - rewrite IH. destruct (String.eqb (pg_id pg) pid) eqn:E.
    + apply String.eqb_eq in E. subst pid.
      destruct (g !! pg_id pg) eqn:Hg; [rewrite Hg; reflexivity|].
      rewrite lookup_insert_eq. reflexivity.
    + apply String.eqb_neq in E.
      destruct (g !! pg_id pg) eqn:Hg; [reflexivity|].
      rewrite lookup_insert_ne by exact E. reflexivity.
Qed.

(** *** Locating the sheet *)

Lemma head_filter_some {A : Type} (f : A -> bool) (l : list A) (x : A) :
  head (List.filter f l) = Some x -> In x l /\ f x = true.
Proof.
  induction l as [|y l IH]; cbn [List.filter]; [discriminate|].
  destruct (f y) eqn:E.
  - cbn [head]. intros [= <-]. split; [left; reflexivity|exact E].
  - intros H. destruct (IH H) as [Hin Hf]. split; [right; exact Hin|exact Hf].
Qed.

Lemma head_filter_none {A : Type} (f : A -> bool) (l : list A) :
  head (List.filter f l) = None <-> forall x, In x l -> f x = false.
Proof.
  induction l as [|y l IH]; cbn [List.filter].
  - split; [intros _ x []|reflexivity].
  - destruct (f y) eqn:E.
    + cbn [head]. split; [discriminate|].
      intros H. rewrite (H y (or_introl eq_refl)) in E. discriminate.
    + rewrite IH. split.
      * intros H x [<-|Hin]; [exact E|apply H, Hin].
      * intros H x Hin. apply H. right. exact Hin.
Qed.

Lemma child_is_descendant (e c : Element) :
  In c (children_of e) -> In c (descendants e).
Proof.
  destruct e as [t a cs]. cbn [children_of descendants]. intros Hin.
  apply in_flat_map. exists c. split; [exact Hin|left; reflexivity].
Qed.

Lemma py_endswith_refl (s : string) : py_endswith s s = true.
Proof. destruct s; cbn [py_endswith]; rewrite String.eqb_refl; reflexivity. Qed.

Lemma has_brace_append (pre local : string) :
  has_brace (String.append pre (String "}"%char local)) = true.
Proof.
  induction pre as [|c pre IH].
  - rewrite string_append_nil. reflexivity.
  - rewrite string_append_cons. cbn [has_brace]. rewrite IH. apply orb_true_r.
Qed.

(** On a qualified tag the test [endswith('Spread')] sees the local name
    only. *)
Lemma endswith_qualified (ns local : string) :
  py_endswith (String.append ns (String "}"%char local)) "Spread"
  = py_endswith local "Spread".
Proof.
  induction ns as [|c ns IH].
  - rewrite string_append_nil. cbn [py_endswith].
    destruct (String.eqb (String "}"%char local) "Spread") eqn:E; [|reflexivity].
    apply String.eqb_eq in E. discriminate.
  - rewrite string_append_cons. cbn [py_endswith]. rewrite IH.
    destruct (String.eqb (String c (String.append ns (String "}"%char local))) "Spread")
      eqn:E; [|reflexivity].
    apply String.eqb_eq in E.
    assert (H : has_brace (String c (String.append ns (String "}"%char local))) = true).
    { cbn [has_brace]. rewrite has_brace_append. apply orb_true_r. }
    rewrite E in H. discriminate.
Qed.

(** X21. The search for the sheet of a spread file is complete: the element
    it settles on is the root or one of its descendants, its tag ends in
    [Spread] and it has a [Page] child; and it gives up only when no element
    of the file is of that kind. *)
Theorem locate_spread_finds_any (root : Element) :
  (forall el, locate_spread root = Some el ->
              In el (root :: descendants root) /\
              py_endswith (tag_of el) "Spread" = true /\ has_page_child el = true) /\
  (locate_spread root = None <->
   forall el, In el (root :: descendants root) ->
              py_endswith (tag_of el) "Spread" && has_page_child el = false).
Proof.
  assert (Hfound : forall el,
             head (List.filter spread_with_pages (root :: descendants root)) = Some el ->
             In el (root :: descendants root) /\
             py_endswith (tag_of el) "Spread" = true /\ has_page_child el = true).
  { intros el H. apply head_filter_some in H as [Hin Hf].
    split; [exact Hin|]. apply andb_true_iff, Hf. }
  unfold locate_spread.
  destruct (py_endswith (tag_of root) "Spread") eqn:Hroot_tag; cbn [negb orb].
  - destruct (has_page_child root) eqn:Hroot_page; cbn [negb].
    + split.
      * intros el [= <-]. split; [left; reflexivity|split; assumption].
      * split; [discriminate|]. intros H.
        specialize (H root (or_introl eq_refl)).
        rewrite Hroot_tag, Hroot_page in H. discriminate.
    + destruct (head (children_tagged "Spread" root)) as [candidate|] eqn:Hcand.
      * destruct (has_page_child candidate) eqn:Hpage.
        -- apply head_filter_some in Hcand as [Hin Htag].
           apply String.eqb_eq in Htag.
           split.
           ++ intros el [= <-].
              split; [right; apply child_is_descendant, Hin|].
              split; [rewrite Htag; reflexivity|exact Hpage].
           ++ split; [discriminate|]. intros H.
              specialize (H candidate (or_intror (child_is_descendant _ _ Hin))).
              rewrite Htag, Hpage in H. discriminate.
        -- split; [exact Hfound|apply head_filter_none].
      * split; [exact Hfound|apply head_filter_none].
  - destruct (head (children_tagged "Spread" root)) as [candidate|] eqn:Hcand.
    + destruct (has_page_child candidate) eqn:Hpage.
      * apply head_filter_some in Hcand as [Hin Htag].
        apply String.eqb_eq in Htag.
        split.
        -- intros el [= <-].
           split; [right; apply child_is_descendant, Hin|].
           split; [rewrite Htag; reflexivity|exact Hpage].
        -- split; [discriminate|]. intros H.
           specialize (H candidate (or_intror (child_is_descendant _ _ Hin))).
           rewrite Htag, Hpage in H. discriminate.
      * split; [exact Hfound|apply head_filter_none].
    + split; [exact Hfound|apply head_filter_none].
Qed.

(** *** Sheets without a page id *)



(** ** [extract_box.py] against [extract_from_idml.py] *)

(** X23. The page record of [extract_box.py] is the one that
    [extract_from_idml.py] builds under the identity as the sheet's base
    transform: same id, name and local bounds, and equal global matrix and
    box. *)
Theorem ExtractBox_page_is_unbased_page (self_id name : string)
  (page_matrix_str page_bounds_str : option string) :
  let old := ExtractBox_PageGeometricInfo_init self_id name page_matrix_str page_bounds_str in
  let new := PageGeometricInfo_init self_id name page_matrix_str page_bounds_str
               identity_matrix in
  pg_id new = pg_id old /\ pg_name new = pg_name old /\
  local_bounds new = local_bounds old /\
  matrix_eq (global_matrix new) (global_matrix old) /\
  aabb_eq (global_aabb new) (global_aabb old).
Proof.
  cbv zeta. unfold ExtractBox_PageGeometricInfo_init, PageGeometricInfo_init.
  cbn [pg_id pg_name local_bounds global_matrix global_aabb].
  split; [reflexivity|]. split; [reflexivity|]. split; [reflexivity|]. split.
  - destruct (parse_transform_matrix page_matrix_str) as [[[[[a b] c] d] tx] ty].
    unfold identity_matrix, multiply_matrices, matrix_eq. repeat split; ring.
  - pose proof (box_of_translated (parse_geometric_bounds page_bounds_str)
                  (parse_transform_matrix page_matrix_str) 0 0) as H.
    cbv zeta in H. unfold box_of, translation in H. unfold identity_matrix, aabb_eq.
    destruct H as (Hx1 & Hy1 & Hx2 & Hy2).
    unfold Point in *. repeat split; lra.
Qed.

(** X24. The two files give an element the same box and the same test
    point, except for a [Group] whose local bounds are all zero. *)
Theorem ExtractBox_geometry_differs_for_empty_groups_only (element_tag_local : string)
  (item_local_bounds : LocalBounds) (item_global_matrix : Matrix) :
  element_tag_local <> "Group" \/ bounds_is_zero item_local_bounds = false ->
  ExtractBox_item_geometry element_tag_local item_local_bounds item_global_matrix
  = item_geometry item_local_bounds item_global_matrix.
Proof.
  unfold ExtractBox_item_geometry, item_geometry. intros [Htag|Hb].
  - apply String.eqb_neq in Htag. rewrite Htag, orb_false_r. reflexivity.
  - rewrite Hb. reflexivity.
Qed.

(** X25. For an [Image], [extract_box.py] has local bounds only when the
    graphic bounds are there and parse; if they are not all zero
    [extract_from_idml.py] takes the same bounds.  Where [extract_box.py]
    fails on the unbound local, [extract_from_idml.py] falls back to the
    element's own geometric bounds, or to all zero without them. *)
Theorem ExtractBox_image_bounds_agree (element : Element) :
  tag_of element = "Image" ->
  (forall b, ExtractBox_image_local_bounds element = Ok b ->
             bounds_is_zero b = false -> determined_local_bounds element = b) /\
  (forall e, ExtractBox_image_local_bounds element = Raise e ->
             e = UnboundLocalError /\
             determined_local_bounds element
             = if py_truthy (get element "GeometricBounds")
               then parse_geometric_bounds (get element "GeometricBounds")
               else zero_bounds).
Proof.
  intros Htag.
  unfold ExtractBox_image_local_bounds, determined_local_bounds, resolve_local_bounds.
  rewrite Htag. change (String.eqb "Image" "Image") with true. cbv iota.
  destruct (find_path "Properties" ["GraphicBounds"] element) as [gb_prop|].
  - destruct (graphic_bounds gb_prop) as [b0|].
    + split; [|discriminate]. intros b [= <-] Hz. rewrite Hz. reflexivity.
    + split; [discriminate|]. intros e [= <-]. split; [reflexivity|].
      change (bounds_is_zero zero_bounds) with true. cbv iota.
      destruct (py_truthy (get element "GeometricBounds")); reflexivity.
  - split; [discriminate|]. intros e [= <-]. split; [reflexivity|].
    change (bounds_is_zero zero_bounds) with true. cbv iota.
    destruct (py_truthy (get element "GeometricBounds")); reflexivity.
Qed.

(** ** Story texts *)

Lemma newline_is_space (c : N) : is_newline c = true -> is_unicode_space c = true.
Proof.
  unfold is_newline. intros H. apply N.eqb_eq in H. subst c. reflexivity.
Qed.

Lemma not_space_not_newline (c : N) : is_unicode_space c = false -> is_newline c = false.
Proof.
  intros H. destruct (is_newline c) eqn:E; [|reflexivity].
  apply newline_is_space in E. congruence.
Qed.

Lemma greedy_rest (p : N -> bool) (s : Text) :
  greedy p (fun rest => Some rest) s = Some (drop_class p s).
Proof.
  induction s as [|c s IH]; cbn [greedy drop_class]; [reflexivity|].
  destruct (p c); [rewrite IH|]; reflexivity.
Qed.

Lemma match_newline_space (s : Text) :
  re_match [ReOne is_newline; ReMany is_unicode_space] s
  = match s with
    | c :: s' => if is_newline c then Some (drop_class is_unicode_space s') else None
    | [] => None
    end.
Proof.
  destruct s as [|c s]; [reflexivity|]. cbn [re_match].
  destruct (is_newline c); [apply greedy_rest|reflexivity].
Qed.

Lemma greedy_space_newline (s : Text) :
  greedy is_unicode_space (re_match [ReOne is_newline; ReMany is_unicode_space]) s
  = if run_has_newline s then Some (drop_class is_unicode_space s) else None.
Proof.
  induction s as [|c s IH]; cbn [greedy run_has_newline drop_class]; [reflexivity|].
  destruct (is_unicode_space c) eqn:Hsp.
  - rewrite IH. destruct (run_has_newline s).
    + rewrite orb_true_r. reflexivity.
    + rewrite orb_false_r, match_newline_space. destruct (is_newline c); reflexivity.
  - rewrite match_newline_space, (not_space_not_newline c Hsp). reflexivity.
Qed.

(** The first pattern matches at the start of [s] when the whitespace there
    holds a newline, and then takes all of that whitespace. *)
Lemma match_space_newline_space (s : Text) :
  re_match space_newline_space s
  = if run_has_newline s then Some (drop_class is_unicode_space s) else None.
Proof. exact (greedy_space_newline s). Qed.

Lemma drop_class_length (p : N -> bool) (s : Text) :
  (length (drop_class p s) <= length s)%nat.
Proof.
  induction s as [|c s IH]; cbn [drop_class length]; [lia|].
  destruct (p c); cbn [length]; lia.
Qed.

Lemma skip_whitespace (pat : RePattern) (repl : Text) (s : Text) :
  re_sub_from pat repl
    (length s - length (drop_class is_unicode_space s)) s
  = re_sub_from pat repl 0 (drop_class is_unicode_space s).
Proof.
  induction s as [|c s IH]; [reflexivity|].
  cbn [drop_class]. destruct (is_unicode_space c).
  - pose proof (drop_class_length is_unicode_space s) as Hlen.
    replace (length (c :: s) - length (drop_class is_unicode_space s))%nat
      with (S (length s - length (drop_class is_unicode_space s)))
      by (cbn [length]; lia).
    cbn [re_sub_from]. exact IH.
  - rewrite Nat.sub_diag. reflexivity.
Qed.

Lemma sub_space_newline_empty : re_sub space_newline_space newline [] = [].
Proof. reflexivity. Qed.

Lemma sub_space_newline_match (c : N) (s : Text) :
  run_has_newline (c :: s) = true ->
  re_sub space_newline_space newline (c :: s)
  = newline_char :: (re_sub space_newline_space newline (drop_class is_unicode_space s)).
Proof.
  intros Hrun. unfold re_sub. cbn [re_sub_from].
  rewrite match_space_newline_space, Hrun.
  assert (Hsp : is_unicode_space c = true).
  { cbn [run_has_newline] in Hrun. destruct (is_unicode_space c); [reflexivity|discriminate]. }
  cbn [drop_class]. rewrite Hsp.
  pose proof (drop_class_length is_unicode_space s) as Hlen.
  replace (length (c :: s) - length (drop_class is_unicode_space s))%nat
    with (S (length s - length (drop_class is_unicode_space s)))
    by (cbn [length]; lia).
  rewrite skip_whitespace. reflexivity.
Qed.

Lemma sub_space_newline_copy (c : N) (s : Text) :
  run_has_newline (c :: s) = false ->
  re_sub space_newline_space newline (c :: s)
  = c :: re_sub space_newline_space newline s.
Proof.
  intros Hrun. unfold re_sub. cbn [re_sub_from].
  rewrite match_space_newline_space, Hrun. reflexivity.
Qed.

Lemma drop_class_first (p : N -> bool) (s : Text) :
  match first_char (drop_class p s) with
  | Some b => p b = false
  | None => True
  end.
Proof.
  induction s as [|c s IH]; cbn [drop_class]; [exact I|].
  destruct (p c) eqn:E; [exact IH|]. cbn [first_char]. exact E.
Qed.

Lemma run_first_not_space (s : Text) :
  match first_char s with
  | Some b => is_unicode_space b = false
  | None => True
  end ->
  run_has_newline s = false.
Proof.
  destruct s as [|b s]; cbn [first_char run_has_newline]; [reflexivity|].
  intros ->. reflexivity.
Qed.

(** After the first substitution no newline stands next to whitespace;
    the text starts with a newline when its leading whitespace held one, and
    with its own first character otherwise. *)
Lemma sub_space_newline_tight (n : nat) :
  forall s, (length s <= n)%nat ->
    lines_tight (re_sub space_newline_space newline s) = true /\
    first_char (re_sub space_newline_space newline s)
    = if run_has_newline s then Some newline_char else first_char s.
Proof.
  induction n as [|n IH]; intros s Hlen.
  - destruct s; [split; reflexivity|cbn [length] in Hlen; lia].
  - destruct s as [|c s]; [split; reflexivity|].
    cbn [length] in Hlen.
    destruct (run_has_newline (c :: s)) eqn:Hrun.
    + rewrite (sub_space_newline_match c s Hrun). cbn [first_char lines_tight].
      split; [|reflexivity].
      pose proof (drop_class_length is_unicode_space s) as Hdrop.
      destruct (IH (drop_class is_unicode_space s) ltac:(lia)) as [Ht Hf].
      rewrite Ht, andb_true_r, Hf.
      pose proof (drop_class_first is_unicode_space s) as Hfirst.
      rewrite (run_first_not_space _ Hfirst).
      destruct (first_char (drop_class is_unicode_space s)) as [b|]; [|reflexivity].
      unfold tight_pair. rewrite Hfirst, (not_space_not_newline b Hfirst).
      rewrite !andb_false_r. reflexivity.
    + rewrite (sub_space_newline_copy c s Hrun). cbn [first_char lines_tight].
      split; [|reflexivity].
      destruct (IH s ltac:(lia)) as [Ht Hf]. rewrite Ht, andb_true_r, Hf.
      cbn [run_has_newline] in Hrun.
      destruct (is_unicode_space c) eqn:Hsp.
      * apply orb_false_iff in Hrun as [Hnl Hrest]. rewrite Hrest.
        destruct s as [|b s]; [reflexivity|]. cbn [first_char].
        unfold tight_pair. rewrite Hnl. cbn [andb negb].
        cbn [run_has_newline] in Hrest.
        destruct (is_unicode_space b) eqn:Hb.
        -- apply orb_false_iff in Hrest as [-> _]. rewrite andb_false_r. reflexivity.
        -- rewrite (not_space_not_newline b Hb), andb_false_r. reflexivity.
      * destruct (if run_has_newline s then Some newline_char else first_char s) as [b|];
          [|reflexivity].
        unfold tight_pair. rewrite Hsp, (not_space_not_newline c Hsp). reflexivity.
Qed.

Lemma lines_tight_tail (c : N) (s : Text) :
  lines_tight (c :: s) = true -> lines_tight s = true.
Proof. cbn [lines_tight]. intros H. apply andb_true_iff in H as [_ H]. exact H. Qed.

(** The second pattern matches nowhere in a text without a newline next
    to whitespace. *)
Lemma sub_newlines_tight (s : Text) :
  lines_tight s = true -> re_sub newlines newline s = s.
Proof.
  unfold re_sub. induction s as [|c s IH]; intros Ht; [reflexivity|].
  assert (Hno : re_match newlines (c :: s) = None).
  { unfold newlines. cbn [re_match].
    destruct (is_newline c) eqn:Hc; [|reflexivity].
    destruct s as [|b s]; [reflexivity|].
    destruct (is_newline b) eqn:Hb; [|reflexivity].
    cbn [lines_tight first_char] in Ht. unfold tight_pair in Ht.
    rewrite Hc, (newline_is_space b Hb) in Ht. discriminate. }
  cbn [re_sub_from]. rewrite Hno, (IH (lines_tight_tail c s Ht)). reflexivity.
Qed.

Lemma sub_newlines_after_first (full_text : Text) :
  re_sub newlines newline (re_sub space_newline_space newline full_text)
  = re_sub space_newline_space newline full_text.
Proof.
  apply sub_newlines_tight.
  apply (sub_space_newline_tight (length full_text) full_text (Nat.le_refl _)).
Qed.

(** X26. The second substitution of line 110 never changes the text: what
    the first one returns holds no two newlines in a row. *)
Theorem second_substitution_changes_nothing (full_text : Text) :
  re_sub newlines newline (re_sub space_newline_space newline full_text)
  = re_sub space_newline_space newline full_text.
Proof. apply sub_newlines_after_first. Qed.

Lemma lines_tight_drop (p : N -> bool) (s : Text) :
  lines_tight s = true -> lines_tight (drop_class p s) = true.
Proof.
  induction s as [|c s IH]; intros Ht; cbn [drop_class]; [reflexivity|].
  destruct (p c); [apply IH, (lines_tight_tail c s Ht)|exact Ht].
Qed.

Lemma rstrip_first (s : Text) :
  py_rstrip s <> [] -> first_char (py_rstrip s) = first_char s.
Proof.
  destruct s as [|c s]; cbn [py_rstrip]; [reflexivity|].
  destruct (py_rstrip s) as [|b r].
  - destruct (is_unicode_space c); [intros H; contradiction H; reflexivity|reflexivity].
  - reflexivity.
Qed.

Lemma lines_tight_rstrip (s : Text) :
  lines_tight s = true -> lines_tight (py_rstrip s) = true.
Proof.
  induction s as [|c s IH]; intros Ht; [reflexivity|].
  cbn [py_rstrip].
  pose proof (rstrip_first s) as Hfirst. specialize (IH (lines_tight_tail c s Ht)).
  destruct (py_rstrip s) as [|b r].
  - destruct (is_unicode_space c); reflexivity.
  - cbn [lines_tight first_char] in Ht |- *.
    apply andb_true_iff in Ht as [Hpair _].
    rewrite <- Hfirst in Hpair by discriminate. cbn [first_char] in Hpair.
    rewrite Hpair. cbn [andb]. exact IH.
Qed.

Lemma rstrip_idempotent (s : Text) : py_rstrip (py_rstrip s) = py_rstrip s.
Proof.
  induction s as [|c s IH]; [reflexivity|].
  cbn [py_rstrip]. destruct (py_rstrip s) as [|b r] eqn:E.
  - destruct (is_unicode_space c) eqn:Hc; [reflexivity|].
    cbn [py_rstrip]. rewrite Hc. reflexivity.
  - cbn [py_rstrip] in IH |- *. rewrite IH. reflexivity.
Qed.

Lemma lstrip_fixed (s : Text) :
  match first_char s with
  | Some b => is_unicode_space b = false
  | None => True
  end ->
  py_lstrip s = s.
Proof.
  unfold py_lstrip. destruct s as [|b s]; cbn [first_char drop_class]; [reflexivity|].
  intros ->. reflexivity.
Qed.

Lemma strip_ends (s : Text) :
  py_lstrip (py_strip s) = py_strip s /\ py_rstrip (py_strip s) = py_strip s.
Proof.
  unfold py_strip. split; [|apply rstrip_idempotent].
  apply lstrip_fixed.
  pose proof (drop_class_first is_unicode_space s) as Hfirst.
  pose proof (rstrip_first (py_lstrip s)) as Hr. unfold py_lstrip in *.
  destruct (py_rstrip (drop_class is_unicode_space s)) as [|b r]; [exact I|].
  rewrite <- Hr in Hfirst by discriminate. exact Hfirst.
Qed.

Lemma normalize_tidy (full_text : Text) : tidy_text (normalize_story_text full_text).
Proof.
  unfold tidy_text, normalize_story_text.
  rewrite sub_newlines_after_first.
  split; [|apply strip_ends].
  unfold py_strip, py_lstrip. apply lines_tight_rstrip, lines_tight_drop.
  apply (sub_space_newline_tight (length full_text) full_text (Nat.le_refl _)).
Qed.

(** X27. Whatever the story file holds, the text that [get_story_text]
    returns has no whitespace at either end and no newline next to
    whitespace, so no blank line and no line that starts or ends with
    whitespace; a file that does not parse gives the empty text. *)
Theorem story_text_is_tidy (parsed : option StoryElement) :
  lines_tight (get_story_text parsed) = true /\
  py_lstrip (get_story_text parsed) = get_story_text parsed /\
  py_rstrip (get_story_text parsed) = get_story_text parsed /\
  (parsed = None -> get_story_text parsed = []).
Proof.
  destruct parsed as [root|]; cbn [get_story_text].
  - destruct (normalize_tidy (List.concat (text_content_segments root)))
      as (H1 & H2 & H3).
    repeat split; try assumption. discriminate.
  - repeat split; reflexivity.
Qed.

Lemma tight_run_no_newline (s : Text) :
  forall c, lines_tight (c :: s) = true -> is_unicode_space c = true ->
            is_newline c = false -> run_has_newline s = false.
Proof.
  induction s as [|b s IH]; intros c Ht Hsp Hnl; [reflexivity|].
  cbn [run_has_newline]. destruct (is_unicode_space b) eqn:Hb; [|reflexivity].
  pose proof Ht as Ht'. cbn [lines_tight first_char] in Ht'.
  apply andb_true_iff in Ht' as [Hpair Htail].
  unfold tight_pair in Hpair. rewrite Hsp, Hnl in Hpair. cbn [andb negb] in Hpair.
  destruct (is_newline b) eqn:Hbn; [discriminate|]. cbn [orb].
  apply (IH b); assumption.
Qed.

Lemma sub_space_newline_fixed (s : Text) :
  lines_tight s = true -> re_sub space_newline_space newline s = s.
Proof.
  induction s as [|c s IH]; intros Ht; [reflexivity|].
  specialize (IH (lines_tight_tail c s Ht)).
  destruct (run_has_newline (c :: s)) eqn:Hrun.
  - rewrite (sub_space_newline_match c s Hrun).
    cbn [run_has_newline] in Hrun.
    destruct (is_unicode_space c) eqn:Hsp; [|discriminate].
    destruct (is_newline c) eqn:Hnl.
    + assert (Hc : c = newline_char) by (apply N.eqb_eq, Hnl). subst c.
      assert (Hdrop : drop_class is_unicode_space s = s).
      { destruct s as [|b s]; [reflexivity|].
        cbn [lines_tight first_char] in Ht. apply andb_true_iff in Ht as [Hpair _].
        unfold tight_pair in Hpair. rewrite Hnl in Hpair. cbn [andb] in Hpair.
        cbn [drop_class]. destruct (is_unicode_space b); [discriminate|reflexivity]. }
      rewrite Hdrop, IH. reflexivity.
    + cbn [orb] in Hrun. rewrite (tight_run_no_newline s c Ht Hsp Hnl) in Hrun.
      discriminate.
  - rewrite (sub_space_newline_copy c s Hrun), IH. reflexivity.
Qed.

(** X28. The texts that line 110 leaves as they are are exactly the tidy
    ones; since it returns tidy texts only, applying it twice is the same
    as applying it once. *)
Theorem normalize_fixes_tidy_texts (s : Text) :
  (normalize_story_text s = s <->
   lines_tight s = true /\ py_lstrip s = s /\ py_rstrip s = s) /\
  normalize_story_text (normalize_story_text s) = normalize_story_text s.
Proof.
  assert (Hfix : forall t, tidy_text t -> normalize_story_text t = t).
  { intros t (Ht & Hl & Hr). unfold normalize_story_text.
    rewrite sub_newlines_after_first, (sub_space_newline_fixed t Ht).
    unfold py_strip. rewrite Hl. exact Hr. }
  split; [split|].
  - intros H. rewrite <- H. apply normalize_tidy.
  - apply Hfix.
  - apply Hfix, normalize_tidy.
Qed.


(** X29. When the files of the [Stories] directory, read as sequences of
    code points, hold what [get_story_text] returns, every text item of the
    document that a run builds carries a tidy, non-empty text: no whitespace
    at either end and no newline next to whitespace. *)
Theorem run_texts_are_tidy (decode : string -> Text) (spreads : list Element)
  (st : ExtractState) :
  stories_from_get_story_text decode ->
  process_spreads spreads (mkExtractState [] ∅ ∅ []) = Ok st ->
  forall pid pd t,
    In (pid, pd) (all_page_data_by_id st) -> In t (texts pd) ->
    content t <> "" /\
    lines_tight (decode (content t)) = true /\
    py_lstrip (decode (content t)) = decode (content t) /\
    py_rstrip (decode (content t)) = decode (content t).
Proof.
  intros Hfiles Hrun pid pd t Hin Ht.
  destruct (proj2 (run_faithful spreads st Hrun) pid pd t Hin Ht) as [Hfile Hne].
  split; [exact Hne|].
  unfold file_text in Hfile.
  destruct (stories_dir !! String.append "Story_" (String.append (story_id t) ".xml"))
    as [text|] eqn:E.
  - destruct (Hfiles _ _ E) as [parsed Hparsed]. cbn [default] in Hfile. unfold id in Hfile.
    rewrite Hfile, Hparsed. destruct parsed as [root|]; cbn [get_story_text].
    + apply normalize_tidy.
    + repeat split.
  - cbn [default] in Hfile. contradiction.
Qed.

(** *** Normalisation, item by item *)

Lemma Forall2_mapped {A B : Type} (R : A -> B -> Prop) (f : A -> B) :
  (forall x, R x (f x)) -> forall l, Forall2 R l (List.map f l).
Proof.
  intros H l. induction l as [|x l IH]; cbn [List.map]; constructor; [apply H|exact IH].
Qed.

(** C7. In every run the output loop finds the geometry of each page of the
    document, prints no warning and emits the pages in the order of the
    sorted ids; each item of a page keeps its identity, its bounds are its
    global bounds with the corner (x1, y1) of the page's global box
    subtracted from every coordinate, and it carries the page's width
    x2 - x1 and height y2 - y1.  The fallback for a page without geometry is
    therefore never entered in a run; where it is entered after a page with
    geometry, it prints the warning and passes the items on with their
    global bounds, offset (0, 0). *)
Theorem normalization_rebases_to_page_origin :
  (forall (spreads : list Element) (st : ExtractState),
     process_spreads spreads (mkExtractState [] ∅ ∅ []) = Ok st ->
     exists pages,
       prepare_output (all_page_data_by_id st) (all_page_geometries st) = ([], Ok pages) /\
       Forall2
         (fun pid page =>
            exists pdata info,
              dict_get pid (all_page_data_by_id st) = Some pdata /\
              all_page_geometries st !! pid = Some info /\
              page_id page = pid /\ page_name page = name pdata /\
              Forall2
                (fun img_item out =>
                   URI out = uri img_item /\ ImageId out = image_element_id img_item /\
                   image_Bounds out
                   = mkAABB (x1 (image_global_bounds img_item) - x1 (global_aabb info))
                            (y1 (image_global_bounds img_item) - y1 (global_aabb info))
                            (x2 (image_global_bounds img_item) - x1 (global_aabb info))
                            (y2 (image_global_bounds img_item) - y1 (global_aabb info)) /\
                   image_page_width out = x2 (global_aabb info) - x1 (global_aabb info) /\
                   image_page_height out = y2 (global_aabb info) - y1 (global_aabb info))
                (images pdata) (out_images page) /\
              Forall2
                (fun t_item out =>
                   Content out = content t_item /\ TextId out = text_frame_id t_item /\
                   text_Bounds out
                   = mkAABB (x1 (text_global_bounds t_item) - x1 (global_aabb info))
                            (y1 (text_global_bounds t_item) - y1 (global_aabb info))
                            (x2 (text_global_bounds t_item) - x1 (global_aabb info))
                            (y2 (text_global_bounds t_item) - y1 (global_aabb info)) /\
                   text_page_width out = x2 (global_aabb info) - x1 (global_aabb info) /\
                   text_page_height out = y2 (global_aabb info) - y1 (global_aabb info))
                (texts pdata) (out_texts page))
         (final_sorted_page_ids (all_page_data_by_id st)) pages) /\
  (forall (geoms : gmap string PageGeometricInfo) (pid : string) (pdata : PageData)
          (page_width page_height : Q),
     geoms !! pid = None ->
     exists page,
       output_page geoms pid pdata (Some (page_width, page_height))
       = ([EvGeometryMissing pid], Some (page_width, page_height), Ok page) /\
       page_id page = pid /\ page_name page = name pdata /\
       Forall2
         (fun img_item out =>
            URI out = uri img_item /\ ImageId out = image_element_id img_item /\
            aabb_eq (image_Bounds out) (image_global_bounds img_item))
         (images pdata) (out_images page) /\
       Forall2
         (fun t_item out =>
            Content out = content t_item /\ TextId out = text_frame_id t_item /\
            aabb_eq (text_Bounds out) (text_global_bounds t_item))
         (texts pdata) (out_texts page)).
Proof.
  split.
  - intros spreads st Hrun.
    assert (Hknown : geometry_known st).
    { apply (process_spreads_geometry_known spreads (mkExtractState [] ∅ ∅ []) st);
        [|exact Hrun]. intros pid []. }
    assert (Hkeys : forall pid, In pid (final_sorted_page_ids (all_page_data_by_id st)) ->
                                In pid (dict_keys (all_page_data_by_id st))).
    { intros pid Hin. eapply Permutation_in; [|exact Hin].
      symmetry. apply py_sorted_perm. }
    destruct (output_pages_normalized (all_page_data_by_id st) (all_page_geometries st)
                (final_sorted_page_ids (all_page_data_by_id st))
                (fun pid Hin => proj1 (dict_get_some_keys _ _) (Hkeys pid Hin))
                (fun pid Hin => Hknown pid (Hkeys pid Hin)) None [])
      as (pages & Hout & Hall).
    exists pages. split; [exact Hout|].
    eapply Forall2_impl; [exact Hall|].
    intros pid page (pdata & info & Hd & Hg & ->).
    exists pdata, info. split; [exact Hd|]. split; [exact Hg|].
    unfold normalized_page. cbn [page_id page_name out_images out_texts].
    split; [reflexivity|]. split; [reflexivity|].
    split; apply Forall2_mapped; intros x; repeat split.
  - intros geoms pid pdata w h Hnone.
    eexists. split; [apply output_page_missing_after, Hnone|].
    cbn [page_id page_name out_images out_texts].
    split; [reflexivity|]. split; [reflexivity|].
    split; apply Forall2_mapped; intros x;
      (split; [reflexivity|split; [reflexivity|apply rebase_zero]]).
Qed.

End Extract.

(** ** The theorems at concrete documents *)

Lemma page_box_composes_sheet_base_witness :
  get_page_content_from_spread dec_float ∅ offset_sheet ∅ []
    = (SpreadContent [("p1", mkPageData "1" [] [])] [offset_page_info], ∅, []) /\
  Forall2
    (fun page_el page_info =>
       get page_el "Self" = Some (pg_id page_info) /\
       global_aabb page_info = page_box dec_float (2, 0, 0, 2, 10, 0) page_el)
    [offset_page] [offset_page_info].
Proof.
  assert (H : get_page_content_from_spread dec_float ∅ offset_sheet ∅ []
              = (SpreadContent [("p1", mkPageData "1" [] [])] [offset_page_info], ∅, []))
    by (vm_compute; reflexivity).
  split; [exact H|].
  exact (page_box_composes_sheet_base dec_float ∅ offset_sheet ∅ ∅ [] [] _ _ H).
Defined.

Lemma merge_copies_new_appends_unseen_witness :
  List.NoDup (dict_keys second_sheet) /\
  dict_get "p2" (merge_spread known_document second_sheet) = Some (mkPageData "2" [] []) /\
  merge_spread (merge_spread known_document second_sheet) second_sheet
    = merge_spread known_document second_sheet.
Proof.
  assert (Hnd : List.NoDup (dict_keys second_sheet)).
  { repeat constructor; cbn; intuition discriminate. }
  destruct (merge_copies_new_appends_unseen known_document second_sheet Hnd)
    as (Hnew & _ & _ & Hidem).
  split; [exact Hnd|]. split; [|exact Hidem].
  apply Hnew; reflexivity.
Defined.


Lemma text_item_appended_iff_witness :
  pages_content_map
    (process_text_frame twin_stories 1 twin_frame_1 (Some "p1") twin_box_1
       (mkWalkState [("p1", mkPageData "1" [] [])] ∅ []))
  = [("p1", mkPageData "1" [] [twin_item_1])].
Proof.
  pose proof (proj1 (text_item_appended_iff twin_stories 1 twin_frame_1 (Some "p1") twin_box_1
                       (mkWalkState [("p1", mkPageData "1" [] [])] ∅ []))
                "p1" "u1" (mkPageData "1" [] []) eq_refl) as H.
  rewrite H; try reflexivity; try discriminate; vm_compute; discriminate.
Defined.


Lemma output_follows_page_names_witness :
  final_sorted_page_ids unordered_document = ["c"; "b"; "d"; "a"] /\
  List.map page_name
    [mkPageOutput "1" "c" [] []; mkPageOutput "10" "b" [] [];
     mkPageOutput "10" "d" [] []; mkPageOutput "2" "a" [] []]
  = List.map (name_of_page unordered_document) (final_sorted_page_ids unordered_document).
Proof.
  split; [reflexivity|].
  apply (proj2 (proj2 (proj2 (output_follows_page_names unordered_document))) ∅
           [EvGeometryMissing "c"; EvGeometryMissing "b"; EvGeometryMissing "d";
            EvGeometryMissing "a"]).
  vm_compute. reflexivity.
Defined.

(** ** Where the code leaves the specification *)

(** C6 as stated fails: the second of two text containers with the same
    element id is not recorded, although a page is assigned to it, it
    references a story, the story's text is not empty, and no item with
    its pair of story id and element id is in the page's list. *)
Lemma text_pair_key_counterexample :
  ~ (forall (stories : gmap string string) (indent : nat) (element : Element)
            (assigned : option string) (box : AABB) (st : WalkState)
            (pid story : string) (pd : PageData),
       assigned = Some pid -> pid <> "" ->
       get element "ParentStory" = Some story -> story <> "" ->
       dict_get pid (pages_content_map st) = Some pd ->
       resolved_text stories story (story_cache st) <> "" ->
       pair_recorded story (get_default element "Self" "UnknownID") pd = false ->
       exists pd',
         dict_get pid (pages_content_map
                         (process_text_frame stories indent element assigned box st))
           = Some pd' /\
         length (texts pd') = S (length (texts pd))).
Proof.
  intros Hclaim.
  destruct (Hclaim twin_stories 1%nat twin_frame_2 (Some "p1") twin_box_2 twin_state
              "p1" "u2" (mkPageData "1" [] [twin_item_1]))
    as (pd' & Hget & Hlen); try reflexivity; try discriminate.
  clear Hclaim. vm_compute in Hget. injection Hget as <-. discriminate Hlen.
Qed.

(** The same on a whole sheet: after the walk the page holds the first
    container's text only, and the second story has been resolved. *)
Lemma twin_frames_on_a_sheet :
  exists content pages cache out,
    get_page_content_from_spread dec_float twin_stories twin_sheet ∅ []
      = (SpreadContent content pages, cache, out) /\
    content = [("p1", mkPageData "1" [] [twin_item_1])] /\
    cache !! "u2" = Some "World" /\
    find_page_for_item_center (105) (250) pages = Some "p1".
Proof.
  do 4 eexists. split; [vm_compute; reflexivity|].
  repeat split; vm_compute; reflexivity.
Qed.


(** Five groups deep, by evaluation, with room for eight levels. *)
Lemma deep_leaf_is_processed :
  exists st,
    process_spread_element_recursively_within dec_float ∅ 8 (nest 5 deep_leaf)
      None identity_matrix [] 0 (mkWalkState [] ∅ []) = Some st /\
    In (EvProcessing 6 "TextFrame" "leaf") (stdout st).
Proof. eexists. split; [vm_compute; reflexivity|]. vm_compute. tauto. Qed.

(** The page box of [extract_box.py] on the shifted and scaled sheet: the
    sheet's transform is missing from it. *)
Lemma ExtractBox_page_box_differs :
  global_aabb
    (ExtractBox_PageGeometricInfo_init dec_float "p1" "1"
       (get offset_page "ItemTransform") (get offset_page "GeometricBounds"))
  = mkAABB 100 50 700 850 /\
  global_aabb offset_page_info = mkAABB 210 100 1410 1700.
Proof. split; vm_compute; reflexivity. Qed.

(** In [extract_box.py] an image that has only the bounds attribute gets no
    local bounds at all, where [extract_from_idml.py] falls back to the
    attribute. *)
Lemma ExtractBox_image_without_graphic_bounds :
  ExtractBox_image_local_bounds dec_float plain_image = Raise UnboundLocalError /\
  determined_local_bounds dec_float plain_image = (1, 2, 3, 4).
Proof. split; vm_compute; reflexivity. Qed.


(** ** Further theorems at concrete inputs *)

Lemma item_center_inside_box_witness :
  bounds_is_zero (0, 0, 10, 20) = false /\
  aabb_contains (fst (item_geometry (0, 0, 10, 20) (1, 0, 0, 1, 300, 200)))
    (fst (snd (item_geometry (0, 0, 10, 20) (1, 0, 0, 1, 300, 200))))
    (snd (snd (item_geometry (0, 0, 10, 20) (1, 0, 0, 1, 300, 200)))).
Proof.
  split; [reflexivity|].
  exact (proj2 (item_center_inside_box (0, 0, 10, 20) (1, 0, 0, 1, 300, 200) eq_refl)).
Defined.

Lemma box_under_scale_and_shift_witness :
  aabb_eq (box_of (0, 0, 10, 20) (2, 0, 0, 3, 1, 1)) (mkAABB (2 * 0 + 1) (3 * 0 + 1) (2 * 20 + 1) (3 * 10 + 1)).
Proof.
  apply (box_under_scale_and_shift 2 3 1 1 0 0 10 20); vm_compute; discriminate.
Defined.

Lemma item_inside_page_is_assigned_witness :
  find_page_for_item_center
    (fst (snd (item_geometry (0, 0, 10, 20) (1, 0, 0, 1, 700, 200))))
    (snd (snd (item_geometry (0, 0, 10, 20) (1, 0, 0, 1, 700, 200))))
    ([left_page_info] ++ right_page_info :: [])
  = Some "pR".
Proof.
  apply (item_inside_page_is_assigned (0, 0, 10, 20) (1, 0, 0, 1, 700, 200)
           [left_page_info] [] right_page_info).
  - reflexivity.
  - vm_compute. repeat split; discriminate.
  - constructor; [|constructor]. vm_compute. intros [[_ H] _]. apply H. reflexivity.
Defined.

Lemma find_owner_order_irrelevant_witness :
  find_page_for_item_center 700 200 [left_page_info; right_page_info]
  = find_page_for_item_center 700 200 [right_page_info; left_page_info].
Proof.
  apply find_owner_order_irrelevant.
  - apply perm_swap.
  - assert (Hleft : ~ aabb_contains (global_aabb left_page_info) 700 200).
    { vm_compute. intros [[_ H] _]. apply H. reflexivity. }
    intros p q [<-|[<-|[]]] [<-|[<-|[]]] Hp Hq;
      solve [reflexivity | contradiction].
Defined.

Lemma split_gives_tokens_witness :
  ascii_only " 1 0  2.5 " = true /\
  Forall (fun t => is_token t = true /\ ascii_only t = true) (py_split " 1 0  2.5 ").
Proof.
  split; [reflexivity|]. apply split_gives_tokens. reflexivity.
Defined.

Lemma split_join_round_trip_witness :
  py_split (String.append " " (String.append (join_space ["1"; "0"; "2.5"]) "  "))
  = ["1"; "0"; "2.5"].
Proof.
  apply (split_join_round_trip ["1"; "0"; "2.5"] " " "  ").
  - repeat constructor.
  - reflexivity.
  - reflexivity.
Defined.

Lemma parsers_fall_back_witness :
  parse_transform_matrix dec_float (Some "1 0 0 1") = identity_matrix /\
  parse_geometric_bounds dec_float (Some "1 0 x 1") = zero_bounds.
Proof.
  split.
  - apply (proj1 (parsers_fall_back dec_float "1 0 0 1")). vm_compute. discriminate.
  - apply (proj2 (proj2 (parsers_fall_back dec_float "1 0 x 1")) "x").
    + vm_compute. tauto.
    + reflexivity.
Defined.

Lemma parsers_read_numbers_witness :
  parse_transform_matrix dec_float (Some " 1 0 0 1 5 7.5") = (1, 0, 0, 1, 5, 75 # 10).
Proof.
  apply (proj1 (parsers_read_numbers dec_float " " "" ["1"; "0"; "0"; "1"; "5"; "7.5"]
                  [1; 0; 0; 1; 5; 75 # 10]
                  ltac:(repeat constructor) eq_refl eq_refl eq_refl)).
  reflexivity.
Defined.

Lemma path_bounds_enclose_anchors_witness :
  get_local_bounds_from_path_geometry dec_float path_frame = Some (5, 10, 40, 30) /\
  5 <= 40 /\ 10 <= 30.
Proof.
  assert (H : get_local_bounds_from_path_geometry dec_float path_frame = Some (5, 10, 40, 30))
    by (vm_compute; reflexivity).
  split; [exact H|].
  destruct (path_bounds_enclose_anchors dec_float path_frame 5 10 40 30 H) as (Hy & Hx & _).
  split; assumption.
Defined.

Lemma text_frame_bounds_precedence_witness :
  determined_local_bounds dec_float path_frame = (5, 10, 40, 30).
Proof.
  exact (proj1 (text_frame_bounds_precedence dec_float path_frame) eq_refl).
Defined.

Lemma image_item_appended_iff_witness :
  pages_content_map
    (process_image framed_image (Some bare_rectangle) (Some "p1") (mkAABB 5 6 55 66)
       fresh_state)
  = [("p1", mkPageData "1"
             [mkImageItem "file:a.png" "i1" "Unk" "Unk" (mkAABB 5 6 55 66) None] [])].
Proof.
  apply (proj1 (image_item_appended_iff framed_image (Some bare_rectangle) (Some "p1")
                  (mkAABB 5 6 55 66) fresh_state)
           "p1" (Elem "Link" [("LinkResourceURI", "file:a.png")] []) "file:a.png"
           (mkPageData "1" [] []));
    solve [reflexivity | discriminate].
Defined.

Lemma run_items_unique_witness :
  exists st,
    process_spreads dec_float twin_stories [twin_sheet; twin_sheet] (mkExtractState [] ∅ ∅ [])
    = Ok st /\
    forall pid pd,
      In (pid, pd) (all_page_data_by_id st) ->
      List.NoDup (List.map text_frame_id (texts pd)) /\
      List.NoDup (List.map (fun i => (uri i, image_element_id i)) (images pd)).
Proof.
  eexists. split; [vm_compute; reflexivity|].
  apply (run_items_unique dec_float twin_stories [twin_sheet; twin_sheet]).
  vm_compute. reflexivity.
Defined.

Lemma run_texts_come_from_files_witness :
  exists st,
    process_spreads dec_float twin_stories [twin_sheet] (mkExtractState [] ∅ ∅ []) = Ok st /\
    forall pid pd t,
      In (pid, pd) (all_page_data_by_id st) -> In t (texts pd) ->
      content t
      = default "" (twin_stories !! String.append "Story_" (String.append (story_id t) ".xml")) /\
      content t <> "".
Proof.
  eexists. split; [vm_compute; reflexivity|].
  apply (run_texts_come_from_files dec_float twin_stories [twin_sheet]).
  vm_compute. reflexivity.
Defined.

Lemma walk_keeps_cached_stories_witness :
  story_cache twin_state !! "u1" = Some "Hello" /\
  story_cache
    (process_spread_element_recursively dec_float twin_stories twin_frame_2 None
       identity_matrix [left_page_info] 0 twin_state) !! "u1" = Some "Hello".
Proof.
  assert (H : story_cache twin_state !! "u1" = Some "Hello") by reflexivity.
  split; [exact H|].
  apply (walk_keeps_cached_stories dec_float twin_stories twin_frame_2 None identity_matrix
           [left_page_info] 0 twin_state "u1" "Hello" H).
Defined.

Lemma merge_keeps_page_order_witness :
  List.NoDup (dict_keys second_sheet) /\
  dict_keys (merge_spread known_document second_sheet) = ["p1"; "p2"].
Proof.
  assert (Hnd : List.NoDup (dict_keys second_sheet)).
  { repeat constructor; cbn; intuition discriminate. }
  split; [exact Hnd|].
  exact (merge_keeps_page_order second_sheet known_document Hnd).
Defined.

Lemma locate_spread_finds_any_witness :
  locate_spread wrapped_file = Some twin_sheet /\
  In twin_sheet (wrapped_file :: descendants wrapped_file) /\
  py_endswith (tag_of twin_sheet) "Spread" = true /\ has_page_child twin_sheet = true.
Proof.
  assert (H : locate_spread wrapped_file = Some twin_sheet) by reflexivity.
  split; [exact H|].
  exact (proj1 (locate_spread_finds_any wrapped_file) twin_sheet H).
Defined.


Lemma ExtractBox_geometry_differs_for_empty_groups_only_witness :
  ExtractBox_item_geometry "Rectangle" zero_bounds (1, 0, 0, 1, 30, 40)
  = item_geometry zero_bounds (1, 0, 0, 1, 30, 40).
Proof.
  apply ExtractBox_geometry_differs_for_empty_groups_only. left. discriminate.
Defined.

Lemma ExtractBox_image_bounds_agree_witness :
  tag_of framed_image = "Image" /\
  ExtractBox_image_local_bounds dec_float framed_image = Ok (6, 5, 66, 55) /\
  determined_local_bounds dec_float framed_image = (6, 5, 66, 55).
Proof.
  assert (H : ExtractBox_image_local_bounds dec_float framed_image = Ok (6, 5, 66, 55))
    by (vm_compute; reflexivity).
  split; [reflexivity|]. split; [exact H|].
  exact (proj1 (ExtractBox_image_bounds_agree dec_float framed_image eq_refl)
           (6, 5, 66, 55) H eq_refl).
Defined.

(** The two stories of [twin_stories] are what [get_story_text] makes of
    two story files. *)
Lemma twin_stories_from_files :
  stories_from_get_story_text twin_stories code_points.
Proof.
  intros file text H. unfold twin_stories in H.
  apply lookup_insert_Some in H as [[_ <-]|[_ H]].
  - exists (Some hello_story). vm_compute. reflexivity.
  - apply lookup_insert_Some in H as [[_ <-]|[_ H]].
    + exists (Some world_story). vm_compute. reflexivity.
    + rewrite lookup_empty in H. discriminate.
Qed.

Lemma run_texts_are_tidy_witness :
  exists st,
    process_spreads dec_float twin_stories [twin_sheet] (mkExtractState [] ∅ ∅ []) = Ok st /\
    forall pid pd t,
      In (pid, pd) (all_page_data_by_id st) -> In t (texts pd) ->
      content t <> "" /\
      lines_tight (code_points (content t)) = true /\
      py_lstrip (code_points (content t)) = code_points (content t) /\
      py_rstrip (code_points (content t)) = code_points (content t).
Proof.
  eexists. split; [vm_compute; reflexivity|].
  apply (run_texts_are_tidy dec_float twin_stories code_points [twin_sheet] _
           twin_stories_from_files).
  vm_compute. reflexivity.
Defined.

(** Whitespace beyond the ASCII range is removed like any other. *)
Lemma wide_spaces_are_stripped :
  get_story_text (Some spaced_story)
  = code_points "Hello" ++ newline ++ code_points "World".
Proof. vm_compute. reflexivity. Qed.

Lemma run_output_normalized_witness :
  exists st,
    process_spreads dec_float twin_stories [twin_sheet] (mkExtractState [] ∅ ∅ []) = Ok st /\
    exists pages,
      prepare_output (all_page_data_by_id st) (all_page_geometries st) = ([], Ok pages) /\
      Forall2
        (fun pid page =>
           exists pdata info,
             dict_get pid (all_page_data_by_id st) = Some pdata /\
             all_page_geometries st !! pid = Some info /\
             page = normalized_page pid pdata (global_aabb info))
        (final_sorted_page_ids (all_page_data_by_id st)) pages.
Proof.
  eexists. split; [vm_compute; reflexivity|].
  apply (run_output_normalized dec_float twin_stories [twin_sheet]).
  vm_compute. reflexivity.
Defined.


Lemma normalization_rebases_to_page_origin_witness :
  exists st pages,
    process_spreads dec_float twin_stories [shifted_sheet] (mkExtractState [] ∅ ∅ []) = Ok st /\
    prepare_output (all_page_data_by_id st) (all_page_geometries st) = ([], Ok pages) /\
    pages
    = [mkPageOutput "1" "p1" []
         [mkOutText "Hello" "tf1" (mkAABB (130 - 110) (60 - 50) (330 - 110) (160 - 50))
            (710 - 110) (850 - 50)]].
Proof.
  assert (Hrun : exists st,
             process_spreads dec_float twin_stories [shifted_sheet] (mkExtractState [] ∅ ∅ [])
             = Ok st).
  { eexists. vm_compute. reflexivity. }
  destruct Hrun as [st Hrun].
  destruct (proj1 (normalization_rebases_to_page_origin dec_float twin_stories)
              [shifted_sheet] st Hrun) as (pages & Hout & _).
  exists st, pages. split; [exact Hrun|]. split; [exact Hout|].
  vm_compute in Hrun. injection Hrun as <-.
  vm_compute in Hout. injection Hout as <-. reflexivity.
Defined.

(** ** Transforms in floating-point arithmetic *)

Section RoundingTheory.
Variable representable : Q -> Prop.
Variable u : Q.
Hypothesis u_nonneg : 0 <= u.


Lemma compound_ge_1 (k : nat) : 1 <= Rounded.compound u k.
Proof.
  induction k as [|k IH]; cbn [Rounded.compound]; [lra|].
  assert (H : 0 <= u * Rounded.compound u k) by (apply Qmult_le_0_compat; lra).
  lra.
Qed.

Lemma compound_add (j k : nat) : Rounded.compound u (j + k) == Rounded.compound u j * Rounded.compound u k.
Proof.
  induction j as [|j IH]; cbn [Rounded.compound Nat.add]; [ring|]. rewrite IH. ring.
Qed.

Lemma compound_le (j k : nat) : (j <= k)%nat -> Rounded.compound u j <= Rounded.compound u k.
Proof.
  intros H. induction H as [|k H IH]; [lra|]. cbn [Rounded.compound].
  pose proof (compound_ge_1 k) as Hk.
  assert (H0 : 0 <= u * Rounded.compound u k) by (apply Qmult_le_0_compat; lra).
  lra.
Qed.

Lemma abs_le_iff (x b : Q) : Qabs x <= b <-> - b <= x <= b.
Proof. apply Qabs_Qle_condition. Qed.

Lemma abs_mul_le (a b A B : Q) : Qabs a <= A -> Qabs b <= B -> Qabs (a * b) <= A * B.
Proof.
  intros Ha Hb. rewrite Qabs_Qmult.
  pose proof (Qabs_nonneg a) as H0a. pose proof (Qabs_nonneg b) as H0b.
  apply Qle_trans with (Qabs a * B).
  - rewrite (Qmult_comm (Qabs a) (Qabs b)), (Qmult_comm (Qabs a) B).
    apply Qmult_le_compat_r; assumption.
  - apply Qmult_le_compat_r; [assumption|lra].
Qed.

Lemma approx_size (k : nat) (V e v : Q) : Rounded.approximates u k V e v -> Qabs v <= Rounded.compound u k * V.
Proof.
  intros [He Hv].
  assert (H : v == e + (v - e)) by ring. rewrite H.
  eapply Qle_trans; [apply Qabs_triangle|]. lra.
Qed.

Lemma approx_nonneg (k : nat) (V e v : Q) : Rounded.approximates u k V e v -> 0 <= V.
Proof. intros [He _]. pose proof (Qabs_nonneg e). lra. Qed.

Lemma approx_exact (e : Q) : Rounded.approximates u 0 (Qabs e) e e.
Proof.
  split; [lra|]. cbn [Rounded.compound].
  assert (H : e - e == 0) by ring. rewrite H. change (Qabs 0) with 0. lra.
Qed.

Lemma approx_mono (j k : nat) (V e v : Q) :
  (j <= k)%nat -> Rounded.approximates u j V e v -> Rounded.approximates u k V e v.
Proof.
  intros Hjk H. pose proof (approx_nonneg _ _ _ _ H) as HV. destruct H as [He Hv].
  split; [exact He|].
  eapply Qle_trans; [exact Hv|]. apply Qmult_le_compat_r; [|exact HV].
  pose proof (compound_le j k Hjk). lra.
Qed.

Lemma approx_eq (k : nat) (V V' e e' v : Q) :
  V == V' -> e == e' -> Rounded.approximates u k V e v -> Rounded.approximates u k V' e' v.
Proof. intros HV He [H1 H2]. split; rewrite <- HV, <- He; assumption. Qed.

Lemma approx_mul (j k : nat) (V1 V2 e1 e2 v1 v2 r : Q) :
  Rounded.approximates u j V1 e1 v1 -> Rounded.approximates u k V2 e2 v2 -> Rounded.rounds representable u (v1 * v2) r ->
  Rounded.approximates u (S (j + k)) (V1 * V2) (e1 * e2) r.
Proof.
  intros H1 H2 (_ & _ & Hr).
  pose proof (approx_nonneg _ _ _ _ H1) as HV1. pose proof (approx_nonneg _ _ _ _ H2) as HV2.
  pose proof (approx_size _ _ _ _ H1) as Hs1. pose proof (approx_size _ _ _ _ H2) as Hs2.
  destruct H1 as [He1 Hd1]. destruct H2 as [He2 Hd2].
  pose proof (compound_ge_1 j) as Gj. pose proof (compound_ge_1 k) as Gk.
  split; [apply abs_mul_le; assumption|].
  (* the product of the two approximations *)
  assert (Hp : Qabs (v1 * v2 - e1 * e2) <= (Rounded.compound u j * Rounded.compound u k - 1) * (V1 * V2)).
  { assert (E : v1 * v2 - e1 * e2 == v1 * (v2 - e2) + (v1 - e1) * e2) by ring.
    rewrite E. eapply Qle_trans; [apply Qabs_triangle|].
    pose proof (abs_mul_le _ _ _ _ Hs1 Hd2) as Ha.
    pose proof (abs_mul_le _ _ _ _ Hd1 He2) as Hb.
    assert (E' : (Rounded.compound u j * Rounded.compound u k - 1) * (V1 * V2)
                 == Rounded.compound u j * V1 * ((Rounded.compound u k - 1) * V2) + (Rounded.compound u j - 1) * V1 * V2) by ring.
    rewrite E'. lra. }
  assert (Hs : Qabs (v1 * v2) <= Rounded.compound u j * Rounded.compound u k * (V1 * V2)).
  { pose proof (abs_mul_le _ _ _ _ Hs1 Hs2) as H.
    assert (E : Rounded.compound u j * Rounded.compound u k * (V1 * V2) == Rounded.compound u j * V1 * (Rounded.compound u k * V2)) by ring.
    rewrite E. exact H. }
  assert (Hu : u * Qabs (v1 * v2) <= u * (Rounded.compound u j * Rounded.compound u k * (V1 * V2))).
  { rewrite (Qmult_comm u (Qabs _)), (Qmult_comm u (Rounded.compound u j * Rounded.compound u k * _)).
    apply Qmult_le_compat_r; assumption. }
  assert (E : r - e1 * e2 == (r - v1 * v2) + (v1 * v2 - e1 * e2)) by ring.
  rewrite E. eapply Qle_trans; [apply Qabs_triangle|].
  cbn [Rounded.compound]. rewrite compound_add.
  assert (E' : ((1 + u) * (Rounded.compound u j * Rounded.compound u k) - 1) * (V1 * V2)
               == u * (Rounded.compound u j * Rounded.compound u k * (V1 * V2)) + (Rounded.compound u j * Rounded.compound u k - 1) * (V1 * V2)) by ring.
  rewrite E'. lra.
Qed.

Lemma approx_add (k : nat) (V1 V2 e1 e2 v1 v2 r : Q) :
  Rounded.approximates u k V1 e1 v1 -> Rounded.approximates u k V2 e2 v2 -> Rounded.rounds representable u (v1 + v2) r ->
  Rounded.approximates u (S k) (V1 + V2) (e1 + e2) r.
Proof.
  intros H1 H2 (_ & _ & Hr).
  pose proof (approx_size _ _ _ _ H1) as Hs1. pose proof (approx_size _ _ _ _ H2) as Hs2.
  destruct H1 as [He1 Hd1]. destruct H2 as [He2 Hd2].
  split; [eapply Qle_trans; [apply Qabs_triangle|lra]|].
  assert (Hp : Qabs (v1 + v2 - (e1 + e2)) <= (Rounded.compound u k - 1) * (V1 + V2)).
  { assert (E : v1 + v2 - (e1 + e2) == (v1 - e1) + (v2 - e2)) by ring.
    rewrite E. eapply Qle_trans; [apply Qabs_triangle|].
    assert (E' : (Rounded.compound u k - 1) * (V1 + V2) == (Rounded.compound u k - 1) * V1 + (Rounded.compound u k - 1) * V2) by ring.
    rewrite E'. lra. }
  assert (Hs : Qabs (v1 + v2) <= Rounded.compound u k * (V1 + V2)).
  { eapply Qle_trans; [apply Qabs_triangle|].
    assert (E' : Rounded.compound u k * (V1 + V2) == Rounded.compound u k * V1 + Rounded.compound u k * V2) by ring. rewrite E'. lra. }
  assert (Hu : u * Qabs (v1 + v2) <= u * (Rounded.compound u k * (V1 + V2))).
  { rewrite (Qmult_comm u (Qabs _)), (Qmult_comm u (Rounded.compound u k * _)).
    apply Qmult_le_compat_r; assumption. }
  assert (E : r - (e1 + e2) == (r - (v1 + v2)) + (v1 + v2 - (e1 + e2))) by ring.
  rewrite E. eapply Qle_trans; [apply Qabs_triangle|].
  cbn [Rounded.compound].
  assert (E' : ((1 + u) * Rounded.compound u k - 1) * (V1 + V2)
               == u * (Rounded.compound u k * (V1 + V2)) + (Rounded.compound u k - 1) * (V1 + V2)) by ring.
  rewrite E'. lra.
Qed.

(** [a*x+c*y]: coefficients after [j] roundings, arguments after [k]. *)
Lemma approx_dot (j k : nat) (Va Vx Vc Vy ea ex ec ey a x c y r : Q) :
  Rounded.approximates u j Va ea a -> Rounded.approximates u k Vx ex x -> Rounded.approximates u j Vc ec c -> Rounded.approximates u k Vy ey y ->
  Rounded.dot representable u a x c y r ->
  Rounded.approximates u (S (S (j + k))) (Va * Vx + Vc * Vy) (ea * ex + ec * ey) r.
Proof.
  intros Ha Hx Hc Hy (p & q & Hp & Hq & Hr).
  apply (approx_add (S (j + k)) _ _ _ _ p q); [| |exact Hr].
  - apply (approx_mul j k _ _ _ _ a x); assumption.
  - apply (approx_mul j k _ _ _ _ c y); assumption.
Qed.

(** [a*x+c*y+t], with [t] after at most as many roundings as the sum. *)
Lemma approx_dot_plus (j k i : nat) (Va Vx Vc Vy Vt ea ex ec ey et a x c y t r : Q) :
  Rounded.approximates u j Va ea a -> Rounded.approximates u k Vx ex x -> Rounded.approximates u j Vc ec c -> Rounded.approximates u k Vy ey y ->
  Rounded.approximates u i Vt et t -> (i <= S (S (j + k)))%nat ->
  Rounded.dot_plus representable u a x c y t r ->
  Rounded.approximates u (S (S (S (j + k)))) (Va * Vx + Vc * Vy + Vt) (ea * ex + ec * ey + et) r.
Proof.
  intros Ha Hx Hc Hy Ht Hi (s & Hs & Hr).
  apply (approx_add (S (S (j + k))) _ _ _ _ s t); [| |exact Hr].
  - apply (approx_dot j k _ _ _ _ _ _ _ _ a x c y); assumption.
  - apply (approx_mono i); assumption.
Qed.

Hypothesis representable_proper :
  forall x y, x == y -> representable x -> representable y.
Hypothesis representable_0 : representable 0.

Lemma rounds_exact (x r v : Q) : Rounded.rounds representable u x r -> x == v -> representable v -> r == v.
Proof.
  intros (_ & Hex & _) E Hv. rewrite <- E. apply Hex.
  apply (representable_proper v x); [symmetry; exact E|exact Hv].
Qed.

Lemma rounds_same (x r : Q) : x == r -> representable r -> Rounded.rounds representable u x r.
Proof.
  intros E Hr. split; [exact Hr|]. split; [intros _; symmetry; exact E|].
  assert (H : r - x == 0) by (rewrite E; ring). rewrite H. change (Qabs 0) with 0.
  apply Qmult_le_0_compat; [exact u_nonneg|apply Qabs_nonneg].
Qed.

Lemma dot_exact (a x c y r v1 v2 v : Q) :
  a * x == v1 -> c * y == v2 -> v1 + v2 == v ->
  representable v1 -> representable v2 -> representable v ->
  Rounded.dot representable u a x c y r -> r == v.
Proof.
  intros E1 E2 E H1 H2 H (p & q & Hp & Hq & Hr).
  pose proof (rounds_exact _ _ _ Hp E1 H1) as Ep.
  pose proof (rounds_exact _ _ _ Hq E2 H2) as Eq.
  apply (rounds_exact _ _ _ Hr); [rewrite Ep, Eq; exact E|exact H].
Qed.

Lemma dot_plus_exact (a x c y t r v1 v2 v w : Q) :
  a * x == v1 -> c * y == v2 -> v1 + v2 == v -> v + t == w ->
  representable v1 -> representable v2 -> representable v -> representable w ->
  Rounded.dot_plus representable u a x c y t r -> r == w.
Proof.
  intros E1 E2 E Ew H1 H2 H Hw (s & Hs & Hr).
  pose proof (dot_exact _ _ _ _ _ _ _ _ E1 E2 E H1 H2 H Hs) as Es.
  apply (rounds_exact _ _ _ Hr); [rewrite Es; exact Ew|exact Hw].
Qed.

Lemma dot_same (a x c y v1 v2 v : Q) :
  a * x == v1 -> c * y == v2 -> v1 + v2 == v ->
  representable v1 -> representable v2 -> representable v ->
  Rounded.dot representable u a x c y v.
Proof.
  intros E1 E2 E H1 H2 H. exists v1, v2.
  split; [apply rounds_same; assumption|]. split; apply rounds_same; assumption.
Qed.

Lemma dot_plus_same (a x c y t v1 v2 v w : Q) :
  a * x == v1 -> c * y == v2 -> v1 + v2 == v -> v + t == w ->
  representable v1 -> representable v2 -> representable v -> representable w ->
  Rounded.dot_plus representable u a x c y t w.
Proof.
  intros E1 E2 E Ew H1 H2 H Hw. exists v.
  split; [apply (dot_same a x c y v1 v2 v); assumption|apply rounds_same; assumption].
Qed.

(** Composing with the identity Rounded.rounds representable u nowhere. *)
Lemma multiply_identity_rounded (M : Matrix) :
  Rounded.representable_matrix representable M ->
  Rounded.multiply_matrices representable u identity_matrix M M /\
  Rounded.multiply_matrices representable u M identity_matrix M /\
  (forall M', Rounded.multiply_matrices representable u identity_matrix M M' ->
              matrix_eq M' M) /\
  (forall M', Rounded.multiply_matrices representable u M identity_matrix M' ->
              matrix_eq M' M).
Proof.
  destruct M as [[[[[a b] c] d] tx] ty]. intros (Ha & Hb & Hc & Hd & Htx & Hty).
  unfold Rounded.multiply_matrices, identity_matrix, matrix_eq.
  split; [|split; [|split]].
  - repeat split.
    + apply (dot_same _ _ _ _ a 0 a); first [assumption|ring].
    + apply (dot_same _ _ _ _ 0 b b); first [assumption|ring].
    + apply (dot_same _ _ _ _ c 0 c); first [assumption|ring].
    + apply (dot_same _ _ _ _ 0 d d); first [assumption|ring].
    + apply (dot_plus_same _ _ _ _ _ tx 0 tx tx); first [assumption|ring].
    + apply (dot_plus_same _ _ _ _ _ 0 ty ty ty); first [assumption|ring].
  - repeat split.
    + apply (dot_same _ _ _ _ a 0 a); first [assumption|ring].
    + apply (dot_same _ _ _ _ b 0 b); first [assumption|ring].
    + apply (dot_same _ _ _ _ 0 c c); first [assumption|ring].
    + apply (dot_same _ _ _ _ 0 d d); first [assumption|ring].
    + apply (dot_plus_same _ _ _ _ _ 0 0 0 tx); first [assumption|ring].
    + apply (dot_plus_same _ _ _ _ _ 0 0 0 ty); first [assumption|ring].
  - intros [[[[[a' b'] c'] d'] tx'] ty'] (Ea & Eb & Ec & Ed & Etx & Ety).
    repeat split.
    + eapply (dot_exact _ _ _ _ _ a 0 a); [| | | | | |exact Ea]; first [assumption|ring].
    + eapply (dot_exact _ _ _ _ _ 0 b b); [| | | | | |exact Eb]; first [assumption|ring].
    + eapply (dot_exact _ _ _ _ _ c 0 c); [| | | | | |exact Ec]; first [assumption|ring].
    + eapply (dot_exact _ _ _ _ _ 0 d d); [| | | | | |exact Ed]; first [assumption|ring].
    + eapply (dot_plus_exact _ _ _ _ _ _ tx 0 tx tx); [| | | | | | | |exact Etx]; first [assumption|ring].
    + eapply (dot_plus_exact _ _ _ _ _ _ 0 ty ty ty); [| | | | | | | |exact Ety]; first [assumption|ring].
  - intros [[[[[a' b'] c'] d'] tx'] ty'] (Ea & Eb & Ec & Ed & Etx & Ety).
    repeat split.
    + eapply (dot_exact _ _ _ _ _ a 0 a); [| | | | | |exact Ea]; first [assumption|ring].
    + eapply (dot_exact _ _ _ _ _ b 0 b); [| | | | | |exact Eb]; first [assumption|ring].
    + eapply (dot_exact _ _ _ _ _ 0 c c); [| | | | | |exact Ec]; first [assumption|ring].
    + eapply (dot_exact _ _ _ _ _ 0 d d); [| | | | | |exact Ed]; first [assumption|ring].
    + eapply (dot_plus_exact _ _ _ _ _ _ 0 0 0 tx); [| | | | | | | |exact Etx]; first [assumption|ring].
    + eapply (dot_plus_exact _ _ _ _ _ _ 0 0 0 ty); [| | | | | | | |exact Ety]; first [assumption|ring].
Qed.

(** One coordinate of a point under the composed transform and under the
    two transforms one after the other: both stand for the same exact
    value, after five and after six roundings. *)
Lemma apply_compose_coordinate (a1 c1 t1 a2 b2 c2 d2 tx2 ty2 x y : Q)
  (ma mc mt qx qy r r' : Q) :
  Rounded.dot representable u a1 a2 c1 b2 ma ->
  Rounded.dot representable u a1 c2 c1 d2 mc ->
  Rounded.dot_plus representable u a1 tx2 c1 ty2 t1 mt ->
  Rounded.dot_plus representable u ma x mc y mt r ->
  Rounded.dot_plus representable u a2 x c2 y tx2 qx ->
  Rounded.dot_plus representable u b2 x d2 y ty2 qy ->
  Rounded.dot_plus representable u a1 qx c1 qy t1 r' ->
  Qabs (r - r')
  <= 2 * (Rounded.compound u 6 - 1)
     * (Qabs a1 * (Qabs a2 * Qabs x + Qabs c2 * Qabs y + Qabs tx2)
        + Qabs c1 * (Qabs b2 * Qabs x + Qabs d2 * Qabs y + Qabs ty2) + Qabs t1).
Proof.
  intros Hma Hmc Hmt Hr Hqx Hqy Hr'.
  set (V := Qabs a1 * (Qabs a2 * Qabs x + Qabs c2 * Qabs y + Qabs tx2)
            + Qabs c1 * (Qabs b2 * Qabs x + Qabs d2 * Qabs y + Qabs ty2) + Qabs t1).
  set (e := a1 * (a2 * x + c2 * y + tx2) + c1 * (b2 * x + d2 * y + ty2) + t1).
  (* the composed transform *)
  pose proof (approx_dot 0 0 _ _ _ _ _ _ _ _ _ _ _ _ _
                (approx_exact a1) (approx_exact a2) (approx_exact c1) (approx_exact b2) Hma)
    as Ama.
  pose proof (approx_dot 0 0 _ _ _ _ _ _ _ _ _ _ _ _ _
                (approx_exact a1) (approx_exact c2) (approx_exact c1) (approx_exact d2) Hmc)
    as Amc.
  pose proof (approx_dot_plus 0 0 0 _ _ _ _ _ _ _ _ _ _ _ _ _ _ _ _
                (approx_exact a1) (approx_exact tx2) (approx_exact c1) (approx_exact ty2)
                (approx_exact t1) ltac:(lia) Hmt) as Amt.
  cbn [Nat.add] in Ama, Amc, Amt.
  pose proof (approx_dot_plus 2 0 3 _ _ _ _ _ _ _ _ _ _ _ _ _ _ _ _
                Ama (approx_exact x) Amc (approx_exact y) Amt ltac:(lia) Hr) as Ar.
  cbn [Nat.add] in Ar.
  assert (Ar6 : Rounded.approximates u 6 V e r).
  { apply (approx_mono 5 6); [lia|].
    eapply approx_eq; [| |exact Ar]; unfold V, e; ring. }
  (* the two transforms in turn *)
  pose proof (approx_dot_plus 0 0 0 _ _ _ _ _ _ _ _ _ _ _ _ _ _ _ _
                (approx_exact a2) (approx_exact x) (approx_exact c2) (approx_exact y)
                (approx_exact tx2) ltac:(lia) Hqx) as Aqx.
  pose proof (approx_dot_plus 0 0 0 _ _ _ _ _ _ _ _ _ _ _ _ _ _ _ _
                (approx_exact b2) (approx_exact x) (approx_exact d2) (approx_exact y)
                (approx_exact ty2) ltac:(lia) Hqy) as Aqy.
  cbn [Nat.add] in Aqx, Aqy.
  pose proof (approx_dot_plus 0 3 0 _ _ _ _ _ _ _ _ _ _ _ _ _ _ _ _
                (approx_exact a1) Aqx (approx_exact c1) Aqy (approx_exact t1)
                ltac:(lia) Hr') as Ar'.
  cbn [Nat.add] in Ar'.
  assert (Ar6' : Rounded.approximates u 6 V e r').
  { eapply approx_eq; [| |exact Ar']; unfold V, e; ring. }
  destruct Ar6 as [_ H1]. destruct Ar6' as [_ H2].
  assert (E : r - r' == (r - e) + - (r' - e)) by ring.
  rewrite E. eapply Qle_trans; [apply Qabs_triangle|]. rewrite Qabs_opp.
  assert (E' : 2 * (Rounded.compound u 6 - 1) * V
               == (Rounded.compound u 6 - 1) * V + (Rounded.compound u 6 - 1) * V) by ring.
  rewrite E'. lra.
Qed.

Lemma compound_6 : Rounded.compound u 6 == (1 + u) ^ 6.
Proof. cbn [Rounded.compound]. change ((1 + u) ^ 6) with (Qpower_positive (1 + u) 6).
  cbn [Qpower_positive pow_pos]. ring.
Qed.

Lemma apply_compose_close (A B AB : Matrix) (x y : Q) (r q r' : Point) :
  Rounded.multiply_matrices representable u A B AB ->
  Rounded.apply_transform_to_point representable u x y AB r ->
  Rounded.apply_transform_to_point representable u x y B q ->
  Rounded.apply_transform_to_point representable u (fst q) (snd q) A r' ->
  Qabs (fst r - fst r') <= 2 * ((1 + u) ^ 6 - 1) * fst (reach A B x y) /\
  Qabs (snd r - snd r') <= 2 * ((1 + u) ^ 6 - 1) * snd (reach A B x y).
Proof.
  destruct A as [[[[[a1 b1] c1] d1] tx1] ty1]. destruct B as [[[[[a2 b2] c2] d2] tx2] ty2].
  destruct AB as [[[[[a b] c] d] tx] ty].
  intros (Ha & Hb & Hc & Hd & Htx & Hty) [Hrx Hry] [Hqx Hqy] [Hrx' Hry'].
  unfold reach, abs_matrix, apply_transform_to_point. cbn [fst snd].
  rewrite <- compound_6. split.
  - eapply Qle_trans;
      [apply (apply_compose_coordinate a1 c1 tx1 a2 b2 c2 d2 tx2 ty2 x y a c tx
                (fst q) (snd q) (fst r) (fst r')); assumption|].
    apply Qle_lteq. right. ring.
  - eapply Qle_trans;
      [apply (apply_compose_coordinate b1 d1 ty1 a2 b2 c2 d2 tx2 ty2 x y b d ty
                (fst q) (snd q) (snd r) (snd r')); assumption|].
    apply Qle_lteq. right. ring.
Qed.

Lemma compound_exact (k : nat) : u == 0 -> Rounded.compound u k == 1.
Proof.
  intros H. induction k as [|k IH]; cbn [Rounded.compound]; [reflexivity|].
  rewrite IH, H. ring.
Qed.

Lemma abs_zero (d : Q) : Qabs d <= 0 -> d == 0.
Proof. intros H. apply abs_le_iff in H. lra. Qed.

End RoundingTheory.

(** C4, as the code has it.  For a transform whose entries are numbers
    of the floating-point format, composing with the identity on either
    side rounds nowhere and gives the transform back.  Applying a composed
    transform to a point and applying the child's transform and then the
    parent's to the result evaluate the same expression in two orders; each
    operation being off by at most the fraction [u] of its exact value,
    each coordinate of the two results differs by at most
    2 ((1 + u)^6 - 1) times the size of the terms, and the two results are
    equal when nothing is rounded. *)
Theorem compose_identity_and_apply_rounded (representable : Q -> Prop) (u : Q) :
  0 <= u ->
  (forall x y, x == y -> representable x -> representable y) ->
  representable 0 ->
  forall (M A B : Matrix) (x y : Q),
    (Rounded.representable_matrix representable M ->
     Rounded.multiply_matrices representable u identity_matrix M M /\
     Rounded.multiply_matrices representable u M identity_matrix M /\
     (forall M', Rounded.multiply_matrices representable u identity_matrix M M' ->
                 matrix_eq M' M) /\
     (forall M', Rounded.multiply_matrices representable u M identity_matrix M' ->
                 matrix_eq M' M)) /\
    (forall (AB : Matrix) (r q r' : Point),
       Rounded.multiply_matrices representable u A B AB ->
       Rounded.apply_transform_to_point representable u x y AB r ->
       Rounded.apply_transform_to_point representable u x y B q ->
       Rounded.apply_transform_to_point representable u (fst q) (snd q) A r' ->
       Qabs (fst r - fst r') <= 2 * ((1 + u) ^ 6 - 1) * fst (reach A B x y) /\
       Qabs (snd r - snd r') <= 2 * ((1 + u) ^ 6 - 1) * snd (reach A B x y) /\
       (u == 0 -> point_eq r r')).
Proof.
  intros Hu Hproper H0 M A B x y. split.
  - apply multiply_identity_rounded; assumption.
  - intros AB r q r' HAB Hr Hq Hr'.
    destruct (apply_compose_close representable u Hu A B AB x y r q r' HAB Hr Hq Hr')
      as [Hx Hy].
    split; [exact Hx|]. split; [exact Hy|].
    intros Hz.
    assert (Hg : (1 + u) ^ 6 - 1 == 0).
    { rewrite <- (compound_6 u), (compound_exact u 6 Hz). ring. }
    rewrite Hg in Hx, Hy.
    assert (Zx : 2 * 0 * fst (reach A B x y) == 0) by ring.
    assert (Zy : 2 * 0 * snd (reach A B x y) == 0) by ring.
    rewrite Zx in Hx. rewrite Zy in Hy.
    split; [apply abs_zero in Hx|apply abs_zero in Hy]; lra.
Qed.

Lemma eighths_proper (x y : Q) : x == y -> eighths x -> eighths y.
Proof.
  unfold eighths. intros E H. apply Qeq_bool_iff in H. apply Qeq_bool_iff.
  rewrite <- E. exact H.
Qed.

Ltac concrete_rounds :=
  split; [vm_compute; reflexivity|];
  split; [let H := fresh in
          intros H; first [vm_compute; reflexivity | vm_compute in H; discriminate H]
         |let H := fresh in vm_compute; intros H; discriminate H].

Lemma compose_identity_and_apply_rounded_witness :
  Rounded.multiply_matrices eighths (1 # 4) identity_matrix
    (3 # 8, 0, 0, 1, 0, 0) (3 # 8, 0, 0, 1, 0, 0) /\
  Rounded.apply_transform_to_point eighths (1 # 4) (3 # 8) 0 (3 # 8, 0, 0, 1, 0, 0)
    (1 # 8, 0) /\
  Qabs ((1 # 8) - (1 # 8))
  <= 2 * ((1 + (1 # 4)) ^ 6 - 1) * fst (reach identity_matrix (3 # 8, 0, 0, 1, 0, 0) (3 # 8) 0).
Proof.
  pose proof (compose_identity_and_apply_rounded eighths (1 # 4)
                ltac:(vm_compute; discriminate) eighths_proper ltac:(vm_compute; reflexivity)
                (3 # 8, 0, 0, 1, 0, 0) identity_matrix (3 # 8, 0, 0, 1, 0, 0) (3 # 8) 0)
    as [Hid Hclose].
  assert (Hrep : Rounded.representable_matrix eighths (3 # 8, 0, 0, 1, 0, 0)).
  { repeat split; vm_compute; reflexivity. }
  destruct (Hid Hrep) as (Hmul & _).
  assert (Hstep : Rounded.apply_transform_to_point eighths (1 # 4) (3 # 8) 0
                    (3 # 8, 0, 0, 1, 0, 0) (1 # 8, 0)).
  { split.
    - exists (1 # 8). split; [exists (1 # 8), 0; split; [|split]|]; concrete_rounds.
    - exists 0. split; [exists 0, 0; split; [|split]|]; concrete_rounds. }
  assert (Hlast : Rounded.apply_transform_to_point eighths (1 # 4) (1 # 8) 0
                    identity_matrix (1 # 8, 0)).
  { split.
    - exists (1 # 8). split; [exists (1 # 8), 0; split; [|split]|]; concrete_rounds.
    - exists 0. split; [exists 0, 0; split; [|split]|]; concrete_rounds. }
  split; [exact Hmul|]. split; [exact Hstep|].
  exact (proj1 (Hclose (3 # 8, 0, 0, 1, 0, 0) (1 # 8, 0) (1 # 8, 0) (1 # 8, 0)
                  Hmul Hstep Hstep Hlast)).
Defined.

(** C4 as stated fails on the machine's numbers: shifting by 0.2 and then
    by 0.1 takes 0.3 to 0.6, the composed shift takes it to the next float
    above. *)
Lemma compose_apply_binary64_counterexample :
  ~ (forall (A B : Binary64.Matrix) (x y : PrimFloat.float),
       Binary64.point_eqb
         (Binary64.apply_transform_to_point x y (Binary64.multiply_matrices A B))
         (Binary64.apply_transform_to_point
            (fst (Binary64.apply_transform_to_point x y B))
            (snd (Binary64.apply_transform_to_point x y B)) A)
       = true).
Proof.
  intros H.
  specialize (H (Binary64.shift Binary64.tenth) (Binary64.shift Binary64.fifth)
                Binary64.three_tenths PrimFloat.zero).
  vm_compute in H. discriminate H.
Qed.

(** The two results of the counterexample are one unit in the last place
    apart. *)
Lemma compose_apply_binary64_close :
  let A := Binary64.shift Binary64.tenth in
  let B := Binary64.shift Binary64.fifth in
  let r := Binary64.apply_transform_to_point Binary64.three_tenths PrimFloat.zero
             (Binary64.multiply_matrices A B) in
  let q := Binary64.apply_transform_to_point Binary64.three_tenths PrimFloat.zero B in
  let r' := Binary64.apply_transform_to_point (fst q) (snd q) A in
  Binary64.point_eqb r r' = false /\
  Binary64.within Binary64.epsilon (fst r) (fst r') = true /\
  Binary64.within PrimFloat.zero (snd r) (snd r') = true.
Proof. vm_compute. repeat split. Qed.
